(** * Path enumeration and callback counting of the rule
      [promise-constructor-exactly-one-callback]

    A shallow embedding of the ESLint rule
    [rules/promise-constructor-exactly-one-callback.js]: the enumerator
    [analyzeBlock] with its helpers, the counter [countCallbacksInStatement]
    and the classifier [analyzeExecutionPaths].

    The rule is JavaScript over ESTree nodes, which are plain objects with a
    [type] property.  Nodes are modelled as they are: untyped values, read
    with property lookups, with JavaScript's truthiness and its [TypeError]
    on reading a property of [undefined] or [null]. *)

From Stdlib Require Import List String Ascii Bool Arith ZArith Lia.
Import ListNotations.
Local Open Scope string_scope.
Local Open Scope list_scope.
Local Open Scope nat_scope.

(** ** JavaScript values *)

(** An object is its list of own properties in insertion order, with
    distinct keys, as the parser builds it.  ESLint's [parent] links make
    the real tree cyclic; the rule never follows them (it skips the key),
    so the model leaves them out or holds any placeholder there. *)
#[warnings="-register-all"]
Inductive value : Type :=
| VUndefined
| VNull
| VBool (b : bool)
| VNum (z : Z)
| VStr (s : string)
| VArr (items : list value)
| VObj (props : list (string * value)).

(** [!!v] *)
Definition truthy (v : value) : bool :=
  match v with
  | VUndefined | VNull => false
  | VBool b => b
  | VNum z => negb (Z.eqb z 0)
  | VStr s => negb (String.eqb s "")
  | VArr _ | VObj _ => true
  end.

(** [typeof v === 'object'] *)
Definition typeofObject (v : value) : bool :=
  match v with
  | VNull | VArr _ | VObj _ => true
  | _ => false
  end.

(** [v === 'lit'] for a string literal *)
Definition isStr (lit : string) (v : value) : bool :=
  match v with
  | VStr s => String.eqb s lit
  | _ => false
  end.

Fixpoint lookup (k : string) (props : list (string * value)) : value :=
  match props with
  | [] => VUndefined
  | (k', v) :: rest => if String.eqb k' k then v else lookup k rest
  end.

(** [v.k] where [v] is known not to be [undefined] or [null], for the
    property names the rule reads ([type], [body], [callee], [name], ...):
    none of them is [length] or an index, so arrays and primitives answer
    [undefined]. *)
Definition get (k : string) (v : value) : value :=
  match v with
  | VObj props => lookup k props
  | _ => VUndefined
  end.

(** ** Outcomes of a run *)

Inductive error : Type :=
| TypeError     (* the exception JavaScript throws *)
| OutOfFuel.    (* the recursion bound of the model was reached *)

Inductive result (A : Type) : Type :=
| Ok (a : A)
| Err (e : error).
Arguments Ok {A} a.
Arguments Err {A} e.

Definition bind {A B : Type} (m : result A) (f : A -> result B) : result B :=
  match m with
  | Ok a => f a
  | Err e => Err e
  end.

Notation "x <- m ;; k" := (bind m (fun x => k))
  (at level 61, m at next level, right associativity).

(** [v.k] in general: reading a property of [undefined] or [null] throws. *)
Definition prop (v : value) (k : string) : result value :=
  match v with
  | VUndefined | VNull => Err TypeError
  | _ => Ok (get k v)
  end.

(** A statement list ([body], [consequent] of a case, [cases]) read as the
    array ESTree puts there.  [statements.length] and [for ... of] on
    [undefined] or [null] throw a TypeError; other values that are not
    arrays do not occur in ESTree and are given the same outcome. *)
Definition elements (v : value) : result (list value) :=
  match v with
  | VArr items => Ok items
  | _ => Err TypeError
  end.

(** ** The callback counter *)

Section Counter.

Variables resolveParam rejectParam : string.

(** [node.type === 'CallExpression' && node.callee &&
    node.callee.type === 'Identifier'] and then
    [callName === resolveParam || callName === rejectParam] *)
Definition isTargetCall (node : value) : bool :=
  isStr "CallExpression" (get "type" node)
  && truthy (get "callee" node)
  && isStr "Identifier" (get "type" (get "callee" node))
  && (let callName := get "name" (get "callee" node) in
      isStr resolveParam callName || isStr rejectParam callName).

(** [key === 'parent' || key === 'range' || key === 'loc'] *)
Definition skippedKey (key : string) : bool :=
  String.eqb key "parent" || String.eqb key "range" || String.eqb key "loc".

(** [item && typeof item === 'object' && item.type] *)
Definition isNode (item : value) : bool :=
  truthy item && typeofObject item && truthy (get "type" item).

(** The body of the [for (const key in node)] loop for one [child], given
    the function to call for [traverse]; the result is what the calls add
    to [count]. *)
Definition visitChild (traverse : value -> nat) (child : value) : nat :=
  match child with
  | VArr items =>
      list_sum (map (fun item => if isNode item then traverse item else 0) items)
  | _ => if isNode child then traverse child else 0
  end.

(** [traverse(node)], returning what it adds to the counter [count] of the
    enclosing [countCallbacksInStatement]. *)
Fixpoint traverse (node : value) : nat :=
  match node with
  | VObj props =>
      (if isTargetCall node then 1 else 0)
      + list_sum (map (fun kv : string * value =>
                         if skippedKey (fst kv) then 0
                         else visitChild traverse (snd kv)) props)
  | VArr items =>
      (* the keys of an array are its indices, never skipped *)
      list_sum (map (visitChild traverse) items)
  | _ => 0   (* !node || typeof node !== 'object' *)
  end.

Definition countCallbacksInStatement (stmt : value) : nat := traverse stmt.

End Counter.

(** [countCallbacksInPath(path, resolveParam, rejectParam)], over the
    statements of the path. *)
Definition countCallbacks (resolveParam rejectParam : string)
    (statements : list value) : nat :=
  fold_left (fun count stmt =>
               count + countCallbacksInStatement resolveParam rejectParam stmt)
            statements 0.

(** ** Execution paths *)

(** The strings ['no'], ['yes'] and ['thrown'] of [path.terminated]. *)
Inductive termination : Type := no | yes | thrown.

Definition isNo (t : termination) : bool :=
  match t with no => true | _ => false end.

(** The extra boolean property some synthetic paths carry; nothing reads
    it. *)
Inductive pathFlag : Type :=
| noFlag | continuesAfterIf | isEmpty | isImplicitDefault | isLoopSkip.

Record path : Type := mkPath {
  statements : list value;
  endNode : value;
  terminated : termination;
  flag : pathFlag
}.

Definition countCallbacksInPath (p : path) (resolveParam rejectParam : string) : nat :=
  countCallbacks resolveParam rejectParam (statements p).

(** ** The path enumerator *)

Section Enumerator.

(** The function the helpers call as [analyzeBlock]. *)
Variable analyzeBlock : list value -> list value -> result (list path).

(** A call [analyzeBlock(statements, currentPath)] whose first argument is
    read from a node. *)
Definition callBlock (statements : value) (currentPath : list value)
    : result (list path) :=
  l <- elements statements ;;
  analyzeBlock l currentPath.

(** [node.type === 'BlockStatement' ? node.body : [node]] *)
Definition blockOrSingle (node : value) : result value :=
  nodeType <- prop node "type" ;;
  if isStr "BlockStatement" nodeType then prop node "body"
  else Ok (VArr [node]).

Definition analyzeIfStatement (ifStmt : value) (currentPath : list value)
    : result (list path) :=
  (* Analyze then branch *)
  consequent <- prop ifStmt "consequent" ;;
  thenStatements <- blockOrSingle consequent ;;
  thenPaths <- callBlock thenStatements currentPath ;;
  (* Analyze else branch (or create empty else path) *)
  alternate <- prop ifStmt "alternate" ;;
  elsePaths <-
    (if truthy alternate then
       elseStatements <- blockOrSingle alternate ;;
       callBlock elseStatements currentPath
     else
       Ok [mkPath currentPath ifStmt no continuesAfterIf]) ;;
  Ok (thenPaths ++ elsePaths).

(** The loop [for (const tryPath of tryPaths)] of [analyzeTryStatement];
    both branches of its [if] make the same call. *)
Fixpoint finallyJoin (finallyStatements : value) (tryPaths : list path)
    : result (list path) :=
  match tryPaths with
  | [] => Ok []
  | tryPath :: rest =>
      finallyPaths <-
        (if isNo (terminated tryPath)
         then callBlock finallyStatements (statements tryPath)
         else callBlock finallyStatements (statements tryPath)) ;;
      more <- finallyJoin finallyStatements rest ;;
      Ok (finallyPaths ++ more)
  end.

Definition analyzeTryStatement (tryStmt : value) (currentPath : list value)
    : result (list path) :=
  (* Analyze try block *)
  block <- prop tryStmt "block" ;;
  tryStatements <- prop block "body" ;;
  tryPaths <- callBlock tryStatements currentPath ;;
  (* Analyze catch block if present *)
  handler <- prop tryStmt "handler" ;;
  paths <-
    (if truthy handler then
       handlerBody <- prop handler "body" ;;
       catchStatements <- prop handlerBody "body" ;;
       callBlock catchStatements currentPath
     else Ok []) ;;
  (* Analyze finally block if present *)
  finalizer <- prop tryStmt "finalizer" ;;
  if truthy finalizer then
    finallyStatements <- prop finalizer "body" ;;
    modifiedTryPaths <- finallyJoin finallyStatements tryPaths ;;
    Ok (paths ++ modifiedTryPaths)
  else
    Ok (paths ++ tryPaths).

Definition isNull (v : value) : bool :=
  match v with VNull => true | _ => false end.

(** The loop [for (const caseNode of cases)] of [analyzeSwitchStatement]:
    the paths it pushes and the final [hasDefault]. *)
Fixpoint switchCases (cases : list value) (currentPath : list value)
    : result (list path * bool) :=
  match cases with
  | [] => Ok ([], false)
  | caseNode :: rest =>
      test <- prop caseNode "test" ;;
      caseStatements <- prop caseNode "consequent" ;;
      caseList <- elements caseStatements ;;
      casePaths <-
        (if 0 <? List.length caseList then analyzeBlock caseList currentPath
         else Ok [mkPath currentPath caseNode no isEmpty]) ;;
      more <- switchCases rest currentPath ;;
      Ok (casePaths ++ fst more, isNull test || snd more)
  end.

Definition analyzeSwitchStatement (switchStmt : value) (currentPath : list value)
    : result (list path) :=
  cases <- prop switchStmt "cases" ;;
  caseList <- elements cases ;;
  r <- switchCases caseList currentPath ;;
  (* If no default case, there's an implicit path that does nothing *)
  if negb (snd r) then
    Ok (fst r ++ [mkPath currentPath switchStmt no isImplicitDefault])
  else Ok (fst r).

Definition analyzeLoopStatement (loopStmt : value) (currentPath : list value)
    : result (list path) :=
  body <- prop loopStmt "body" ;;
  bodyStatements <- blockOrSingle body ;;
  (* Loop body paths (may execute 0 or more times) *)
  bodyPaths <- callBlock bodyStatements currentPath ;;
  (* Path where loop doesn't execute or exits normally *)
  Ok (bodyPaths ++ [mkPath currentPath loopStmt no isLoopSkip]).

(** The loop [for (const path of ...Paths)] that follows each of the four
    control-flow cases of [analyzeBlock]. *)
Fixpoint continuePaths (subPaths : list path) (remainingStatements : list value)
    : result (list path) :=
  match subPaths with
  | [] => Ok []
  | p :: rest =>
      continuedPaths <-
        (if isNo (terminated p) && (0 <? List.length remainingStatements)
         then analyzeBlock remainingStatements (statements p)
         else Ok [p]) ;;
      more <- continuePaths rest remainingStatements ;;
      Ok (continuedPaths ++ more)
  end.

(** The [for] loop of [analyzeBlock] from index [i] on, where
    [statements] is [statements.slice(i)], and the code after the loop.
    [paths] is still empty whenever the loop runs, since every branch that
    pushes to it returns. *)
Fixpoint analyzeBlockLoop (statements : list value) (workingPath : list value)
    : result (list path) :=
  let paths : list path := [] in
  match statements with
  | [] =>
      (* Add the main path if it doesn't terminate *)
      if 0 <? List.length workingPath then
        Ok (paths ++ [mkPath workingPath (last workingPath VUndefined) no noFlag])
      else Ok paths
  | stmt :: remainingStatements =>
      stmtType <- prop stmt "type" ;;
      if isStr "IfStatement" stmtType then
        ifPaths <- analyzeIfStatement stmt workingPath ;;
        continuingPaths <- continuePaths ifPaths remainingStatements ;;
        Ok (paths ++ continuingPaths)
      else if isStr "TryStatement" stmtType then
        tryPaths <- analyzeTryStatement stmt workingPath ;;
        continuingPaths <- continuePaths tryPaths remainingStatements ;;
        Ok (paths ++ continuingPaths)
      else if isStr "SwitchStatement" stmtType then
        switchPaths <- analyzeSwitchStatement stmt workingPath ;;
        continuingPaths <- continuePaths switchPaths remainingStatements ;;
        Ok (paths ++ continuingPaths)
      else if isStr "ForStatement" stmtType
              || isStr "WhileStatement" stmtType
              || isStr "DoWhileStatement" stmtType then
        loopPaths <- analyzeLoopStatement stmt workingPath ;;
        continuingPaths <- continuePaths loopPaths remainingStatements ;;
        Ok (paths ++ continuingPaths)
      else if isStr "ReturnStatement" stmtType then
        Ok (paths ++ [mkPath (workingPath ++ [stmt]) stmt yes noFlag])
      else if isStr "ThrowStatement" stmtType then
        Ok (paths ++ [mkPath (workingPath ++ [stmt]) stmt thrown noFlag])
      else
        analyzeBlockLoop remainingStatements (workingPath ++ [stmt])
  end.

End Enumerator.

(** The recursion of [analyzeBlock] goes into the statements of the list and
    into the rest of the list; [fuel] bounds its depth. *)
Fixpoint analyzeBlockFuel (fuel : nat) (statements currentPath : list value)
    : result (list path) :=
  match fuel with
  | O => Err OutOfFuel
  | S fuel' => analyzeBlockLoop (analyzeBlockFuel fuel') statements currentPath
  end.

#[warnings="-register-all"]
Fixpoint vsize (v : value) : nat :=
  match v with
  | VArr items => S (list_sum (map vsize items))
  | VObj props => S (list_sum (map (fun kv : string * value => vsize (snd kv)) props))
  | _ => 0
  end.

Definition lsize (l : list value) : nat := list_sum (map vsize l).

(** [analyzeBlock(statements, currentPath)]; the bound is never reached
    ([analyzeBlock_unfold] and [analyzeBlock_total] below). *)
Definition analyzeBlock (statements currentPath : list value) : result (list path) :=
  analyzeBlockFuel (S (lsize statements)) statements currentPath.

Definition findAllExecutionPaths (callbackBody : value) : result (list path) :=
  bodyType <- prop callbackBody "type" ;;
  if negb (isStr "BlockStatement" bodyType) then
    Ok [mkPath [callbackBody] callbackBody no noFlag]
  else
    body <- prop callbackBody "body" ;;
    callBlock analyzeBlock body [].

(** ** The classifier *)

(** The message ids of [meta.messages]. *)
Inductive messageId : Type :=
| missingParameters | noCallback | multipleCallbacks | unreachableCallback.

Record issue : Type := mkIssue {
  node : value;
  message : messageId
}.

(** [a || b] *)
Definition orElse (a b : value) : value := if truthy a then a else b.

(** What one iteration of [for (const path of paths)] pushes to [issues]. *)
Definition issuesOfPath (callbackBody : value) (resolveParam rejectParam : string)
    (p : path) : list issue :=
  let callbackCount := countCallbacksInPath p resolveParam rejectParam in
  if callbackCount =? 0 then
    [mkIssue (orElse (endNode p) callbackBody) noCallback]
  else if 1 <? callbackCount then
    [mkIssue (orElse (endNode p) callbackBody) multipleCallbacks]
  else [].

Definition analyzeExecutionPaths (callbackBody : value)
    (resolveParam rejectParam : string) : result (list issue) :=
  paths <- findAllExecutionPaths callbackBody ;;
  Ok (flat_map (issuesOfPath callbackBody resolveParam rejectParam) paths).

(** ** ESTree nodes, as the parser builds them *)

Module ESTree.

Definition Identifier (name : string) : value :=
  VObj [("type", VStr "Identifier"); ("name", VStr name)].

Definition Literal (v : value) : value :=
  VObj [("type", VStr "Literal"); ("value", v)].

Definition CallExpression (callee : value) (arguments : list value) : value :=
  VObj [("type", VStr "CallExpression"); ("callee", callee);
        ("arguments", VArr arguments); ("optional", VBool false)].

Definition NewExpression (callee : value) (arguments : list value) : value :=
  VObj [("type", VStr "NewExpression"); ("callee", callee);
        ("arguments", VArr arguments)].

Definition ArrowFunctionExpression (params : list value) (body : value) : value :=
  VObj [("type", VStr "ArrowFunctionExpression"); ("id", VNull);
        ("expression", VBool (negb (isStr "BlockStatement" (get "type" body))));
        ("generator", VBool false); ("async", VBool false);
        ("params", VArr params); ("body", body)].

Definition FunctionExpression (params : list value) (body : value) : value :=
  VObj [("type", VStr "FunctionExpression"); ("id", VNull);
        ("expression", VBool false);
        ("generator", VBool false); ("async", VBool false);
        ("params", VArr params); ("body", body)].

Definition ExpressionStatement (expression : value) : value :=
  VObj [("type", VStr "ExpressionStatement"); ("expression", expression)].

Definition BlockStatement (body : list value) : value :=
  VObj [("type", VStr "BlockStatement"); ("body", VArr body)].

(** [alternate] is [null] when there is no [else]. *)
Definition IfStatement (test consequent alternate : value) : value :=
  VObj [("type", VStr "IfStatement"); ("test", test);
        ("consequent", consequent); ("alternate", alternate)].

Definition ReturnStatement (argument : value) : value :=
  VObj [("type", VStr "ReturnStatement"); ("argument", argument)].

Definition ThrowStatement (argument : value) : value :=
  VObj [("type", VStr "ThrowStatement"); ("argument", argument)].

Definition BreakStatement : value :=
  VObj [("type", VStr "BreakStatement"); ("label", VNull)].

Definition CatchClause (param body : value) : value :=
  VObj [("type", VStr "CatchClause"); ("param", param); ("body", body)].

(** [handler] and [finalizer] are [null] when absent. *)
Definition TryStatement (block handler finalizer : value) : value :=
  VObj [("type", VStr "TryStatement"); ("block", block);
        ("handler", handler); ("finalizer", finalizer)].

(** [test] is [null] for [default:]. *)
Definition SwitchCase (test : value) (consequent : list value) : value :=
  VObj [("type", VStr "SwitchCase"); ("consequent", VArr consequent);
        ("test", test)].

Definition SwitchStatement (discriminant : value) (cases : list value) : value :=
  VObj [("type", VStr "SwitchStatement"); ("discriminant", discriminant);
        ("cases", VArr cases)].

(** The statement [name(args);] *)
Definition callStmt (name : string) (arguments : list value) : value :=
  ExpressionStatement (CallExpression (Identifier name) arguments).

End ESTree.

(** ** Kinds of statements, as [analyzeBlock] tells them apart *)

Definition defined (v : value) : bool :=
  match v with VUndefined | VNull => false | _ => true end.

(** [stmt.type === lit] *)
Definition hasType (lit : string) (stmt : value) : bool :=
  isStr lit (get "type" stmt).

Definition isBranching (stmt : value) : bool :=
  hasType "IfStatement" stmt || hasType "TryStatement" stmt
  || hasType "SwitchStatement" stmt || hasType "ForStatement" stmt
  || hasType "WhileStatement" stmt || hasType "DoWhileStatement" stmt.

Definition isTerminator (stmt : value) : bool :=
  hasType "ReturnStatement" stmt || hasType "ThrowStatement" stmt.

Definition terminatorKind (stmt : value) : termination :=
  if hasType "ReturnStatement" stmt then yes else thrown.

(** A statement that reaches the final [else] of [analyzeBlock]. *)
Definition isPlain (stmt : value) : bool :=
  defined stmt && negb (isBranching stmt) && negb (isTerminator stmt).

(** ** Sequences without branching *)

(** Statements that are plain or terminators: no if, try, switch or loop. *)
Definition nonBranching (stmts : list value) : Prop :=
  Forall (fun s => isPlain s || isTerminator s = true) stmts.

(** The path of a sequence without branching that starts from the prefix
    [wp]: it ends at the first return or throw, or at the end. *)
Fixpoint straightPath (stmts wp : list value) : path :=
  match stmts with
  | [] => mkPath wp (last wp VUndefined) no noFlag
  | s :: rest =>
      if isTerminator s then mkPath (wp ++ [s]) s (terminatorKind s) noFlag
      else straightPath rest (wp ++ [s])
  end.

(** The path the switch has for a case whose body does not branch. *)
Definition casePath (cur : list value) (caseNode : value) : path :=
  match get "consequent" caseNode with
  | VArr (s :: body) => straightPath (s :: body) cur
  | _ => mkPath cur caseNode no isEmpty
  end.

(** ** What the enumerator guarantees *)

Definition extends (c : list value) (p : path) : Prop :=
  exists ext, statements p = c ++ ext.

(** What the enumerator guarantees of the paths it returns for the prefix
    [c]: they extend [c], and there is one at least when [c] is not
    empty. *)
Definition pathInv (c : list value) (ps : list path) : Prop :=
  Forall (extends c) ps /\ (c <> [] -> ps <> []).

(** Two runs agree when they give the same outcome and it is not the
    bound of the model. *)
Definition agree {A : Type} (r1 r2 : result A) : Prop :=
  r1 = r2 /\ r1 <> Err OutOfFuel.

(** ** Well-formed statements *)

(** The shape ESTree gives to the statements the enumerator looks into:
    what it reads as a node is there, and what it reads as a statement list
    is an array. *)
#[warnings="-register-all"]
Inductive wfStmt : value -> Prop :=
| wf_plain (s : value) :
    isPlain s = true -> wfStmt s
| wf_terminator (s : value) :
    isTerminator s = true -> wfStmt s
| wf_if (s : value) :
    hasType "IfStatement" s = true ->
    wfBranch (get "consequent" s) ->
    (truthy (get "alternate" s) = false \/ wfBranch (get "alternate" s)) ->
    wfStmt s
| wf_try (s : value) (tryBody : list value) :
    hasType "TryStatement" s = true ->
    get "body" (get "block" s) = VArr tryBody ->
    Forall wfStmt tryBody ->
    (truthy (get "handler" s) = false
     \/ exists catchBody,
          get "body" (get "body" (get "handler" s)) = VArr catchBody
          /\ Forall wfStmt catchBody) ->
    (truthy (get "finalizer" s) = false
     \/ exists finallyBody,
          get "body" (get "finalizer" s) = VArr finallyBody
          /\ Forall wfStmt finallyBody) ->
    wfStmt s
| wf_switch (s : value) (cases : list value) :
    hasType "SwitchStatement" s = true ->
    get "cases" s = VArr cases ->
    Forall (fun caseNode =>
              exists caseBody,
                get "consequent" caseNode = VArr caseBody
                /\ Forall wfStmt caseBody) cases ->
    wfStmt s
| wf_loop (s : value) :
    hasType "ForStatement" s = true \/ hasType "WhileStatement" s = true
    \/ hasType "DoWhileStatement" s = true ->
    wfBranch (get "body" s) ->
    wfStmt s
with wfBranch : value -> Prop :=
| wf_block (n : value) (body : list value) :
    hasType "BlockStatement" n = true ->
    get "body" n = VArr body ->
    Forall wfStmt body ->
    wfBranch n
| wf_single (n : value) :
    hasType "BlockStatement" n = false ->
    wfStmt n ->
    wfBranch n.

(** A function body: a block of well-formed statements, or the expression
    of an arrow function. *)
Definition wfBody (callbackBody : value) : Prop :=
  defined callbackBody = true
  /\ (hasType "BlockStatement" callbackBody = true ->
      exists body, get "body" callbackBody = VArr body /\ Forall wfStmt body).

(** ** Verdicts, in the words of the specification *)

Inductive verdict : Type := OK | NoCallback | MultipleCallbacks.

(** [count == 0 -> NoCallback; count == 1 -> OK; count > 1 ->
    MultipleCallbacks] *)
Definition specVerdict (count : nat) : verdict :=
  match count with
  | 0 => NoCallback
  | 1 => OK
  | _ => MultipleCallbacks
  end.

(** The diagnostics a verdict stands for, attached to [anchor]. *)
Definition issuesOfVerdict (anchor : value) (v : verdict) : list issue :=
  match v with
  | OK => []
  | NoCallback => [mkIssue anchor noCallback]
  | MultipleCallbacks => [mkIssue anchor multipleCallbacks]
  end.

(** ** Descendants of a node *)

(** The node and all its syntactic descendants, in the words of the
    specification: the nodes held by its properties (other than the
    book-keeping ones), directly or in an array, and theirs in turn,
    whatever the type of the node. *)
Definition childDescendants (descendants : value -> list value) (child : value)
    : list value :=
  match child with
  | VArr items => flat_map (fun item => if isNode item then descendants item else []) items
  | _ => if isNode child then descendants child else []
  end.

Fixpoint descendants (node : value) : list value :=
  match node with
  | VObj props =>
      node :: flat_map (fun kv : string * value =>
                          if skippedKey (fst kv) then []
                          else childDescendants descendants (snd kv)) props
  | VArr items => flat_map (childDescendants descendants) items
  | _ => []
  end.

(** Induction on values, with the hypothesis for every item of an array and
    every property of an object. *)
Section ValueInduction.

Variable P : value -> Prop.
Hypothesis HUndefined : P VUndefined.
Hypothesis HNull : P VNull.
Hypothesis HBool : forall b, P (VBool b).
Hypothesis HNum : forall z, P (VNum z).
Hypothesis HStr : forall s, P (VStr s).
Hypothesis HArr : forall items, Forall P items -> P (VArr items).
Hypothesis HObj :
  forall props, Forall (fun kv : string * value => P (snd kv)) props ->
                P (VObj props).

Fixpoint value_nested_ind (v : value) : P v :=
  match v with
  | VUndefined => HUndefined
  | VNull => HNull
  | VBool b => HBool b
  | VNum z => HNum z
  | VStr s => HStr s
  | VArr items =>
      HArr items
        ((fix all (l : list value) : Forall P l :=
            match l with
            | [] => Forall_nil P
            | x :: l' => Forall_cons x (value_nested_ind x) (all l')
            end) items)
  | VObj props =>
      HObj props
        ((fix all (l : list (string * value))
            : Forall (fun kv : string * value => P (snd kv)) l :=
            match l with
            | [] => Forall_nil _
            | kv :: l' => Forall_cons kv (value_nested_ind (snd kv)) (all l')
            end) props)
  end.

End ValueInduction.

(** ** Executor bodies of the examples *)

Module Examples.
Import ESTree.

Definition condition : value := Identifier "condition".

(** [resolve('success');], [reject(new Error('failed'));] and a second
    [resolve('finally callback');] *)
Definition callA : value := callStmt "resolve" [Literal (VStr "success")].
Definition callB : value :=
  callStmt "reject" [NewExpression (Identifier "Error") [Literal (VStr "failed")]].
Definition callC : value :=
  callStmt "resolve" [Literal (VStr "finally callback")].

(** [return;] and [throw new Error('failed');] *)
Definition returnVoid : value := ReturnStatement VNull.
Definition throwError : value :=
  ThrowStatement (NewExpression (Identifier "Error") [Literal (VStr "failed")]).

(** [try { A } catch (error) { B } finally { C }] *)
Definition tryCatchFinally : value :=
  TryStatement (BlockStatement [callA])
               (CatchClause (Identifier "error") (BlockStatement [callB]))
               (BlockStatement [callC]).

(** [if (condition) { A; return; }] *)
Definition ifReturn : value :=
  IfStatement condition (BlockStatement [callA; returnVoid]) VNull.

(** [if (condition) { A }] *)
Definition ifOnly : value :=
  IfStatement condition (BlockStatement [callA]) VNull.

(** [switch (status) { case 'success': resolve('ok'); break; case 'error': }] *)
Definition caseSuccess : value :=
  SwitchCase (Literal (VStr "success"))
             [callStmt "resolve" [Literal (VStr "ok")]; BreakStatement].
Definition caseError : value := SwitchCase (Literal (VStr "error")) [].
Definition switchTwoCases : value :=
  SwitchStatement (Identifier "status") [caseSuccess; caseError].

(** [switch (status) { case 'success': resolve('ok'); break; }] *)
Definition switchBreak : value :=
  SwitchStatement (Identifier "status") [caseSuccess].

(** [log();] and [if (condition) log();] *)
Definition logStmt : value := callStmt "log" [].
Definition ifLog : value := IfStatement condition logStmt VNull.


(** [return resolve('success');] *)
Definition returnResolve : value :=
  ReturnStatement
    (CallExpression (Identifier "resolve") [Literal (VStr "success")]).

(** [if (condition) { return resolve('success'); }] *)
Definition ifReturnResolve : value :=
  IfStatement condition (BlockStatement [returnResolve]) VNull.

(** [if (condition) { A } else { B }], [if (condition) {} else {}] and
    [if (condition) { A } else {}] *)
Definition ifElse : value :=
  IfStatement condition (BlockStatement [callA]) (BlockStatement [callB]).
Definition ifEmptyBranches : value :=
  IfStatement condition (BlockStatement []) (BlockStatement []).
Definition ifEmptyElse : value :=
  IfStatement condition (BlockStatement [callA]) (BlockStatement []).

End Examples.


(** ** The listener of the rule *)

(** [isPromiseConstructor(node)] *)
Definition isPromiseConstructor (node : value) : result bool :=
  nodeType <- prop node "type" ;;
  if isStr "NewExpression" nodeType then
    callee <- prop node "callee" ;;
    calleeType <- prop callee "type" ;;
    if isStr "Identifier" calleeType then
      calleeName <- prop callee "name" ;;
      Ok (isStr "Promise" calleeName)
    else Ok false
  else Ok false.

(** [getExecutorFunction(node)]; [node.arguments] is read as the array
    ESTree puts there. *)
Definition getExecutorFunction (node : value) : result value :=
  arguments <- prop node "arguments" ;;
  if truthy arguments then
    argumentList <- elements arguments ;;
    match argumentList with
    | [] => Ok VNull
    | executor :: _ =>
        executorType <- prop executor "type" ;;
        if isStr "ArrowFunctionExpression" executorType
           || isStr "FunctionExpression" executorType
        then Ok executor
        else Ok VNull
    end
  else Ok VNull.

(** [params[i] ? params[i].name : null] *)
Definition paramName (param : value) : value :=
  if truthy param then get "name" param else VNull.

(** [getParameterNames(executorFn)]: [None] for [null], else the values of
    [resolve] and [reject]. *)
Definition getParameterNames (executorFn : value) : result (option (value * value)) :=
  params <- prop executorFn "params" ;;
  paramList <- elements params ;;
  if List.length paramList <? 2 then Ok None
  else Ok (Some (paramName (nth 0 paramList VUndefined),
                 paramName (nth 1 paramList VUndefined))).

(** The name of an identifier is a string in ESTree; a truthy name that is
    not a string does not occur there and is given the outcome of an
    error. *)
Definition nameString (name : value) : result string :=
  match name with
  | VStr s => Ok s
  | _ => Err TypeError
  end.

(** The listener [NewExpression(node)] of the rule: the reports it makes
    through [context.report], in order. *)
Definition visitNewExpression (node : value) : result (list issue) :=
  isPromise <- isPromiseConstructor node ;;
  if negb isPromise then Ok []
  else
    executorFn <- getExecutorFunction node ;;
    if negb (truthy executorFn) then Ok []
    else
      params <- getParameterNames executorFn ;;
      match params with
      | None => Ok [mkIssue executorFn missingParameters]
      | Some (resolve, reject) =>
          if negb (truthy resolve) || negb (truthy reject) then
            Ok [mkIssue executorFn missingParameters]
          else
            resolveName <- nameString resolve ;;
            rejectName <- nameString reject ;;
            body <- prop executorFn "body" ;;
            analyzeExecutionPaths body resolveName rejectName
      end.

(** ** The shape of a path *)

Definition isLoop (stmt : value) : bool :=
  hasType "ForStatement" stmt || hasType "WhileStatement" stmt
  || hasType "DoWhileStatement" stmt.

(** How the fields of a path go together: a path without flag has
    statements and is anchored at the last of them, which is a return or
    throw statement of its kind when the path is terminated; a flagged path
    is not terminated and is anchored at the statement it was made for. *)
Definition pathShape (p : path) : Prop :=
  match flag p with
  | noFlag =>
      statements p <> []
      /\ last (statements p) VUndefined = endNode p
      /\ (terminated p = no
          \/ (isTerminator (endNode p) = true
              /\ terminated p = terminatorKind (endNode p)))
  | continuesAfterIf =>
      terminated p = no /\ hasType "IfStatement" (endNode p) = true
  | isImplicitDefault =>
      terminated p = no /\ hasType "SwitchStatement" (endNode p) = true
  | isLoopSkip =>
      terminated p = no /\ isLoop (endNode p) = true
  | isEmpty => terminated p = no
  end.

(** The flag of the implicit path a statement adds when nothing of it
    runs: an if without else, a loop, a switch whose cases all have a
    test. *)
Definition implicitFlag (stmt : value) : option pathFlag :=
  if hasType "IfStatement" stmt then
    if truthy (get "alternate" stmt) then None else Some continuesAfterIf
  else if isLoop stmt then Some isLoopSkip
  else if hasType "SwitchStatement" stmt then
    match get "cases" stmt with
    | VArr cases =>
        if forallb (fun caseNode => negb (isNull (get "test" caseNode))) cases
        then Some isImplicitDefault else None
    | _ => None
    end
  else None.

(** ** Book-keeping properties *)

(** The value without its [parent], [range] and [loc] properties, at every
    depth. *)
Fixpoint strip (v : value) : value :=
  match v with
  | VObj props =>
      VObj (filter (fun kv : string * value => negb (skippedKey (fst kv)))
                   (map (fun kv : string * value => (fst kv, strip (snd kv)))
                        props))
  | VArr items => VArr (map strip items)
  | _ => v
  end.

(** * The rule [promise-constructor-callbacks]

    The sibling rule [rules/promise-constructor-callbacks.js], which asks
    for a call of resolve or reject on every path and shares
    [isPromiseConstructor] and [getExecutorFunction] with the rule above. *)

Module PromiseConstructorCallbacks.

(** The message ids of [meta.messages]. *)
Inductive messageId : Type := noCallback | missingResolve | missingReject.

Record report : Type := mkReport {
  node : value;
  message : messageId
}.

(** [f (props.k)] for a function [f] whose value at [undefined] is [d],
    written so that [f] can be the function being defined. *)
Definition lookupWith {A : Type} (f : value -> A) (d : A) (k : string)
    : list (string * value) -> A :=
  fix go (props : list (string * value)) : A :=
    match props with
    | [] => d
    | (k', v) :: rest => if String.eqb k' k then f v else go rest
    end.

(** [targetCalls.includes(name)] *)
Definition includes (targetCalls : list string) (name : value) : bool :=
  match name with
  | VStr s => existsb (String.eqb s) targetCalls
  | _ => false
  end.

(** The "direct call check" of [containsTargetCall]. *)
Definition isDirectCall (targetCalls : list string) (node : value) : bool :=
  isStr "CallExpression" (get "type" node)
  && truthy (get "callee" node)
  && isStr "Identifier" (get "type" (get "callee" node))
  && includes targetCalls (get "name" (get "callee" node)).

(** The body of the [for (const key in node)] loop of [containsTargetCall]
    for one [child]: whether it makes the function return [true]. *)
Definition containsChild (contains : value -> bool) (child : value) : bool :=
  match child with
  | VArr items => existsb (fun item => isNode item && contains item) items
  | _ => isNode child && contains child
  end.

(** [containsTargetCall(node, targetCalls)] *)
Fixpoint containsTargetCall (targetCalls : list string) (node : value) : bool :=
  match node with
  | VObj props =>
      if isDirectCall targetCalls node then true
      else if isStr "ExpressionStatement" (lookup "type" props) then
        (* Expression statement wrapper *)
        lookupWith (containsTargetCall targetCalls) false "expression" props
      else
        existsb (fun kv : string * value =>
                   negb (skippedKey (fst kv))
                   && containsChild (containsTargetCall targetCalls) (snd kv))
                props
  | VArr items =>
      (* the keys of an array are its indices, never skipped *)
      existsb (containsChild (containsTargetCall targetCalls)) items
  | _ => false   (* !node, or a primitive, which has no node under a key *)
  end.

(** [calls.add(callName)] on the set [calls], kept as the list of its
    elements in insertion order. *)
Definition setAdd (callName : string) (calls : list string) : list string :=
  if existsb (String.eqb callName) calls then calls else calls ++ [callName].

(** The "check for direct function calls" of [findCallsInNode]: the set
    after it. *)
Definition recordCall (targetNames : list string) (currentNode : value)
    (calls : list string) : list string :=
  if isStr "CallExpression" (get "type" currentNode)
     && truthy (get "callee" currentNode)
     && isStr "Identifier" (get "type" (get "callee" currentNode))
  then
    match get "name" (get "callee" currentNode) with
    | VStr callName =>
        if existsb (String.eqb callName) targetNames
        then setAdd callName calls else calls
    | _ => calls   (* not a string, so not included in [targetNames] *)
    end
  else calls.

(** The body of the [for (const key in currentNode)] loop of the inner
    [traverse] for one [child]: the set after it. *)
Definition visitChildCalls (traverse : value -> list string -> list string)
    (child : value) (calls : list string) : list string :=
  match child with
  | VArr items =>
      fold_left (fun acc item => if isNode item then traverse item acc else acc)
                items calls
  | _ => if isNode child then traverse child calls else calls
  end.

(** The inner [traverse(currentNode)] of [findCallsInNode], passing the set
    [calls] it updates. *)
Fixpoint traverseCalls (targetNames : list string) (currentNode : value)
    (calls : list string) {struct currentNode} : list string :=
  match currentNode with
  | VObj props =>
      fold_left (fun acc (kv : string * value) =>
                   if skippedKey (fst kv) then acc
                   else visitChildCalls (traverseCalls targetNames) (snd kv) acc)
                props (recordCall targetNames currentNode calls)
  | VArr items =>
      (* the keys of an array are its indices, never skipped *)
      fold_left (fun acc item =>
                   visitChildCalls (traverseCalls targetNames) item acc)
                items calls
  | _ => calls   (* !currentNode || typeof currentNode !== 'object' *)
  end.

(** [findCallsInNode(node, targetNames)] *)
Definition findCallsInNode (node : value) (targetNames : list string)
    : list string :=
  traverseCalls targetNames node [].

(** [node.body.some(stmt => guaranteesCallback(stmt, targetCalls))] from the
    items on *)
Definition someGuarantees (guarantees : value -> result bool)
    : list value -> result bool :=
  fix some (items : list value) : result bool :=
    match items with
    | [] => Ok false
    | stmt :: rest =>
        g <- guarantees stmt ;;
        if g then Ok true else some rest
    end.

(** [guaranteesCallback(node, targetCalls)] *)
Fixpoint guaranteesCallback (targetCalls : list string) (node : value)
    : result bool :=
  match node with
  | VObj props =>
      (* Direct callback call *)
      if containsTargetCall targetCalls node then Ok true
      else if isStr "IfStatement" (lookup "type" props) then
        thenGuarantees <-
          lookupWith (guaranteesCallback targetCalls) (Ok false) "consequent" props ;;
        elseGuarantees <-
          (if truthy (lookup "alternate" props)
           then lookupWith (guaranteesCallback targetCalls) (Ok false)
                  "alternate" props
           else Ok false) ;;
        Ok (thenGuarantees && elseGuarantees)
      else if isStr "TryStatement" (lookup "type" props) then
        tryGuarantees <-
          lookupWith (guaranteesCallback targetCalls) (Ok false) "block" props ;;
        catchGuarantees <-
          (if truthy (lookup "handler" props)
           then lookupWith
                  (fun handler =>
                     match handler with
                     | VObj handlerProps =>
                         lookupWith (guaranteesCallback targetCalls) (Ok false)
                           "body" handlerProps
                     | _ => Ok false
                     end) (Ok false) "handler" props
           else Ok false) ;;
        Ok (tryGuarantees && catchGuarantees)
      else if isStr "BlockStatement" (lookup "type" props) then
        lookupWith
          (fun body =>
             match body with
             | VArr items => someGuarantees (guaranteesCallback targetCalls) items
             | _ => Err TypeError   (* [node.body.some] is not a function *)
             end) (Err TypeError) "body" props
      else Ok false
  | _ => Ok (containsTargetCall targetCalls node)
  end.

(** [node ? f(node) : d] for the node under a key, as in
    [stmt.alternate ? hasPathWithoutCallback(stmt.alternate, ...) : true]. *)
Definition ifPresent {A : Type} (f : value -> A) (d : A) (k : string)
    (props : list (string * value)) : A :=
  if truthy (lookup k props) then lookupWith f d k props else d.

(** [f (handler.body)] for a truthy [handler]; a handler that is not an
    object has no [body]. *)
Definition handlerBody {A : Type} (f : value -> A) (d : A) (handler : value) : A :=
  match handler with
  | VObj handlerProps => lookupWith f d "body" handlerProps
  | _ => d
  end.

(** One turn of the [for] loop of [analyzeBlock]: [Some b] when the loop
    returns [b] at [stmt], [None] when it goes on. *)
Definition blockStep (hasPath : value -> result bool) (targetCalls : list string)
    (stmt : value) : result (option bool) :=
  (* If this statement guarantees a callback, no uncovered path from here *)
  guarantees <- guaranteesCallback targetCalls stmt ;;
  if guarantees then Ok (Some false)
  else
    match stmt with
    | VUndefined | VNull => Err TypeError   (* [stmt.type] *)
    | VObj props =>
        if isStr "IfStatement" (lookup "type" props) then
          thenHasUncovered <- lookupWith hasPath (Ok true) "consequent" props ;;
          elseHasUncovered <- ifPresent hasPath (Ok true) "alternate" props ;;
          if thenHasUncovered || elseHasUncovered then Ok None
          else Ok (Some false)
        else if isStr "TryStatement" (lookup "type" props) then
          tryHasUncovered <- lookupWith hasPath (Ok true) "block" props ;;
          catchHasUncovered <-
            ifPresent (handlerBody hasPath (Ok true)) (Ok true) "handler" props ;;
          if tryHasUncovered || catchHasUncovered then Ok None
          else Ok (Some false)
        else if isStr "ReturnStatement" (lookup "type" props)
                || isStr "ThrowStatement" (lookup "type" props) then
          Ok (Some (negb (containsTargetCall targetCalls stmt)))
        else Ok None
    | _ => Ok None
    end.

(** The [for] loop of [analyzeBlock] from a statement on, and the
    [return true] after it. *)
Definition blockLoop (hasPath : value -> result bool) (targetCalls : list string)
    : list value -> result bool :=
  fix loop (statements : list value) : result bool :=
    match statements with
    | [] => Ok true
    | stmt :: rest =>
        step <- blockStep hasPath targetCalls stmt ;;
        match step with
        | Some b => Ok b
        | None => loop rest
        end
    end.

(** [hasPathWithoutCallback(node, targetCalls)], with the body of
    [analyzeBlock] in the place of its call. *)
Fixpoint hasPathWithoutCallback (targetCalls : list string) (node : value)
    : result bool :=
  match node with
  | VObj props =>
      if isStr "BlockStatement" (lookup "type" props) then
        lookupWith
          (fun statements =>
             match statements with
             | VArr items =>
                 if List.length items =? 0 then Ok true
                 else blockLoop (hasPathWithoutCallback targetCalls)
                        targetCalls items
             | _ => Err TypeError
             end) (Err TypeError) "body" props
      else
        guarantees <- guaranteesCallback targetCalls node ;;
        Ok (negb guarantees)
  | _ =>
      if truthy node then
        guarantees <- guaranteesCallback targetCalls node ;;
        Ok (negb guarantees)
      else Ok true   (* Empty path = no callback called *)
  end.

(** [analyzeBlock(blockNode, targetCalls)]; [blockNode.body] is read as the
    array ESTree puts there. *)
Definition analyzeBlock (blockNode : value) (targetCalls : list string)
    : result bool :=
  statements <- prop blockNode "body" ;;
  items <- elements statements ;;
  if List.length items =? 0 then Ok true
  else blockLoop (hasPathWithoutCallback targetCalls) targetCalls items.

(** [[resolveParam, rejectParam].filter(Boolean)] for names that are
    strings *)
Definition targetCallsOf (resolveParam rejectParam : string) : list string :=
  filter (fun name => negb (String.eqb name "")) [resolveParam; rejectParam].

(** [analyzeExecutorFunction(executorFn, resolveParam, rejectParam)] *)
Definition analyzeExecutorFunction (executorFn : value)
    (resolveParam rejectParam : string) : result bool :=
  let targetCalls := targetCallsOf resolveParam rejectParam in
  if List.length targetCalls =? 0 then Ok false
  else
    body <- prop executorFn "body" ;;
    hasUncoveredPath <- hasPathWithoutCallback targetCalls body ;;
    Ok (negb hasUncoveredPath).

(** [hasRequiredParameters(executorFn)] *)
Definition hasRequiredParameters (executorFn : value) : result bool :=
  params <- prop executorFn "params" ;;
  paramList <- elements params ;;
  Ok (2 <=? List.length paramList).

(** The listener [NewExpression(node)] of this rule: its reports. *)
Definition visitNewExpression (node : value) : result (list report) :=
  isPromise <- isPromiseConstructor node ;;
  if negb isPromise then Ok []
  else
    executorFn <- getExecutorFunction node ;;
    if negb (truthy executorFn) then Ok []
    else
      required <- hasRequiredParameters executorFn ;;
      params <- prop executorFn "params" ;;
      paramList <- elements params ;;
      if negb required then
        Ok [mkReport executorFn
              (if List.length paramList =? 0 then missingResolve
               else missingReject)]
      else
        let resolve := paramName (nth 0 paramList VUndefined) in
        let reject := paramName (nth 1 paramList VUndefined) in
        if negb (truthy resolve) || negb (truthy reject) then
          Ok [mkReport executorFn
                (if negb (truthy resolve) then missingResolve
                 else missingReject)]
        else
          resolveName <- nameString resolve ;;
          rejectName <- nameString reject ;;
          hasCallbacks <- analyzeExecutorFunction executorFn resolveName rejectName ;;
          if negb hasCallbacks then Ok [mkReport executorFn noCallback]
          else Ok [].

End PromiseConstructorCallbacks.

Module PCC := PromiseConstructorCallbacks.

(** The shape ESTree gives to the statements this rule looks into: a node is
    an object with a type; the branches of an if statement, the block of a
    try statement and the body of its handler are nodes or absent; the body
    of a block is an array of nodes. *)
#[warnings="-register-all"]
Inductive stmtNode : value -> Prop :=
| stmt_node (props : list (string * value)) :
    truthy (lookup "type" props) = true ->
    (isStr "IfStatement" (lookup "type" props) = true ->
     (truthy (lookup "consequent" props) = false
      \/ stmtNode (lookup "consequent" props))
     /\ (truthy (lookup "alternate" props) = false
         \/ stmtNode (lookup "alternate" props))) ->
    (isStr "TryStatement" (lookup "type" props) = true ->
     (truthy (lookup "block" props) = false
      \/ stmtNode (lookup "block" props))
     /\ (truthy (lookup "handler" props) = false
         \/ (stmtNode (lookup "handler" props)
             /\ (truthy (get "body" (lookup "handler" props)) = false
                 \/ stmtNode (get "body" (lookup "handler" props)))))) ->
    (isStr "BlockStatement" (lookup "type" props) = true ->
     exists items,
       lookup "body" props = VArr items /\ Forall stmtNode items) ->
    stmtNode (VObj props).

(** A statement position: a node, or nothing. *)
Definition optStmt (v : value) : Prop := truthy v = false \/ stmtNode v.

(** The statements of a block that its loop can get to: up to the first
    return or throw statement, included. *)
Fixpoint reachable (statements : list value) : list value :=
  match statements with
  | [] => []
  | stmt :: rest =>
      if isTerminator stmt then [stmt] else stmt :: reachable rest
  end.

(** Whether a call of a target is met on the way through a statement
    position: in a block, within its reachable statements; in any other
    node, anywhere in the node. *)
Definition covers (targetCalls : list string) (v : value) : bool :=
  if hasType "BlockStatement" v then
    match get "body" v with
    | VArr items => existsb (PCC.containsTargetCall targetCalls) (reachable items)
    | _ => false
    end
  else PCC.containsTargetCall targetCalls v.

(** * The version of the rule with [analyzeAllPaths]

    [rules/promise-constructor-callbacks.js] holds a second version of the
    rule, with the same [containsTargetCall] and the same listener, whose
    [analyzeExecutorFunction] asks [analyzeAllPaths] whether every path
    calls resolve or reject. *)

Module AllPaths.

(** One turn of the [for] loop of [analyzeBlockStatement]: [Some b] when
    the loop returns [b] at [stmt], [None] when it goes on. *)
Definition blockStatementStep (analyzeAllPaths : value -> result bool)
    (targetCalls : list string) (stmt : value) : result (option bool) :=
  (* If we find a direct call to resolve/reject, this path is valid *)
  if PCC.containsTargetCall targetCalls stmt then Ok (Some true)
  else
    match stmt with
    | VUndefined | VNull => Err TypeError   (* [stmt.type] *)
    | VObj props =>
        ifHasCalls <-
          (if isStr "IfStatement" (lookup "type" props) then
             thenHasCall <-
               PCC.lookupWith analyzeAllPaths (Ok false) "consequent" props ;;
             elseHasCall <-
               PCC.ifPresent analyzeAllPaths (Ok false) "alternate" props ;;
             Ok (thenHasCall && elseHasCall)
           else Ok false) ;;
        if ifHasCalls then Ok (Some true)
        else
          tryHasCalls <-
            (if isStr "TryStatement" (lookup "type" props) then
               tryHasCall <-
                 PCC.lookupWith analyzeAllPaths (Ok false) "block" props ;;
               catchHasCall <-
                 PCC.ifPresent (PCC.handlerBody analyzeAllPaths (Ok false))
                   (Ok false) "handler" props ;;
               Ok (tryHasCall && catchHasCall)
             else Ok false) ;;
          if tryHasCalls then Ok (Some true)
          else if isStr "ReturnStatement" (lookup "type" props) then
            Ok (Some (PCC.containsTargetCall targetCalls stmt))
          else if isStr "ThrowStatement" (lookup "type" props) then
            Ok (Some false)
          else Ok None
    | _ => Ok None
    end.

(** The [for] loop of [analyzeBlockStatement] from a statement on, and the
    [return false] after it. *)
Definition blockStatementLoop (analyzeAllPaths : value -> result bool)
    (targetCalls : list string) : list value -> result bool :=
  fix loop (statements : list value) : result bool :=
    match statements with
    | [] => Ok false
    | stmt :: rest =>
        step <- blockStatementStep analyzeAllPaths targetCalls stmt ;;
        match step with
        | Some b => Ok b
        | None => loop rest
        end
    end.

(** [analyzeAllPaths(node, targetCalls)], with the body of
    [analyzeBlockStatement] in the place of its call. *)
Fixpoint analyzeAllPaths (targetCalls : list string) (node : value)
    : result bool :=
  match node with
  | VObj props =>
      if isStr "BlockStatement" (lookup "type" props) then
        PCC.lookupWith
          (fun statements =>
             match statements with
             | VArr items =>
                 blockStatementLoop (analyzeAllPaths targetCalls)
                   targetCalls items
             | _ => Err TypeError
             end) (Err TypeError) "body" props
      else Ok (PCC.containsTargetCall targetCalls node)
  | _ =>
      (* [!node] gives false, and so does [containsTargetCall] *)
      Ok (PCC.containsTargetCall targetCalls node)
  end.

(** [analyzeBlockStatement(blockNode, targetCalls)]; [blockNode.body] is
    read as the array ESTree puts there. *)
Definition analyzeBlockStatement (blockNode : value) (targetCalls : list string)
    : result bool :=
  statements <- prop blockNode "body" ;;
  items <- elements statements ;;
  blockStatementLoop (analyzeAllPaths targetCalls) targetCalls items.

(** [analyzeExecutorFunction(executorFn, resolveParam, rejectParam)] *)
Definition analyzeExecutorFunction (executorFn : value)
    (resolveParam rejectParam : string) : result bool :=
  let targetCalls := PCC.targetCallsOf resolveParam rejectParam in
  if List.length targetCalls =? 0 then Ok false
  else
    body <- prop executorFn "body" ;;
    analyzeAllPaths targetCalls body.

(** The listener [NewExpression(node)] of this version: its reports. *)
Definition visitNewExpression (node : value) : result (list PCC.report) :=
  isPromise <- isPromiseConstructor node ;;
  if negb isPromise then Ok []
  else
    executorFn <- getExecutorFunction node ;;
    if negb (truthy executorFn) then Ok []
    else
      required <- PCC.hasRequiredParameters executorFn ;;
      params <- prop executorFn "params" ;;
      paramList <- elements params ;;
      if negb required then
        Ok [PCC.mkReport executorFn
              (if List.length paramList =? 0 then PCC.missingResolve
               else PCC.missingReject)]
      else
        let resolve := paramName (nth 0 paramList VUndefined) in
        let reject := paramName (nth 1 paramList VUndefined) in
        if negb (truthy resolve) || negb (truthy reject) then
          Ok [PCC.mkReport executorFn
                (if negb (truthy resolve) then PCC.missingResolve
                 else PCC.missingReject)]
        else
          resolveName <- nameString resolve ;;
          rejectName <- nameString reject ;;
          hasCallbacks <- analyzeExecutorFunction executorFn resolveName rejectName ;;
          if negb hasCallbacks then Ok [PCC.mkReport executorFn PCC.noCallback]
          else Ok [].

End AllPaths.

(** * The first version of the rule

    The first version of [rules/promise-constructor-callbacks.js] accepts an
    executor as soon as [findCallsInNode] finds a call. *)

Module FirstVersion.

(** [analyzeExecutorFunction(executorFn, resolveParam, rejectParam)] *)
Definition analyzeExecutorFunction (executorFn : value)
    (resolveParam rejectParam : string) : result bool :=
  let targetCalls := PCC.targetCallsOf resolveParam rejectParam in
  if List.length targetCalls =? 0 then Ok false
  else
    body <- prop executorFn "body" ;;
    let foundCalls := PCC.findCallsInNode body targetCalls in
    Ok (0 <? List.length foundCalls).

End FirstVersion.

(** The name a node makes [findCallsInNode] record, if any. *)
Definition recordedName (targetNames : list string) (node : value)
    : option string :=
  if isStr "CallExpression" (get "type" node)
     && truthy (get "callee" node)
     && isStr "Identifier" (get "type" (get "callee" node))
  then
    match get "name" (get "callee" node) with
    | VStr callName =>
        if existsb (String.eqb callName) targetNames then Some callName
        else None
    | _ => None
    end
  else None.

(** ** Statements that always leave a path *)

(** A statement from which the enumerator returns at least one path even
    with an empty prefix, read off the places where its sub-paths start:
    an if statement has no else, or one of its branches is solid; a try
    statement has a non-empty block of solid statements (and, if it has a
    finalizer, a non-empty one of solid statements), or a handler with such
    a body; the non-empty case bodies of a switch statement are made of
    solid statements.  Loops and the statements without branches are solid
    as they are.  A branch is solid when it is a non-empty block of solid
    statements or a single solid statement. *)
#[warnings="-register-all"]
Inductive solid : value -> Prop :=
| solid_stmt (s : value) :
    (hasType "IfStatement" s = true ->
     truthy (get "alternate" s) = false
     \/ solidBranch (get "consequent" s)
     \/ solidBranch (get "alternate" s)) ->
    (hasType "TryStatement" s = true ->
     (exists tryBody,
        get "body" (get "block" s) = VArr tryBody
        /\ tryBody <> [] /\ Forall solid tryBody
        /\ (truthy (get "finalizer" s) = false
            \/ exists finallyBody,
                 get "body" (get "finalizer" s) = VArr finallyBody
                 /\ finallyBody <> [] /\ Forall solid finallyBody))
     \/ (truthy (get "handler" s) = true
         /\ exists catchBody,
              get "body" (get "body" (get "handler" s)) = VArr catchBody
              /\ catchBody <> [] /\ Forall solid catchBody)) ->
    (hasType "SwitchStatement" s = true ->
     exists cases,
       get "cases" s = VArr cases
       /\ Forall (fun caseNode =>
                    exists caseBody,
                      get "consequent" caseNode = VArr caseBody
                      /\ Forall solid caseBody) cases) ->
    solid s
with solidBranch : value -> Prop :=
| solid_block (n : value) (body : list value) :
    hasType "BlockStatement" n = true ->
    get "body" n = VArr body ->
    body <> [] -> Forall solid body ->
    solidBranch n
| solid_single (n : value) :
    hasType "BlockStatement" n = false ->
    solid n ->
    solidBranch n.

(** * Properties *)

(** ** The recursion bound is never reached *)

Section Fuel.

Lemma agree_ok {A : Type} (a : A) : agree (Ok a) (Ok a).
Proof. split; [reflexivity | discriminate]. Qed.

Lemma agree_bind {A B : Type} (m1 m2 : result A) (f g : A -> result B) :
  agree m1 m2 ->
  (forall a, m1 = Ok a -> agree (f a) (g a)) ->
  agree (bind m1 f) (bind m2 g).
Proof.
  intros [<- Hm] Hf. destruct m1 as [a | e]; simpl.
  - apply Hf. reflexivity.
  - split; [reflexivity | ]. intros H. apply Hm. congruence.
Qed.

Lemma agree_prop (v : value) (k : string) : agree (prop v k) (prop v k).
Proof. split; [reflexivity | destruct v; discriminate]. Qed.

Lemma agree_elements (v : value) : agree (elements v) (elements v).
Proof. split; [reflexivity | destruct v; discriminate]. Qed.

Lemma agree_blockOrSingle (v : value) : agree (blockOrSingle v) (blockOrSingle v).
Proof.
  split; [reflexivity | ]. unfold blockOrSingle.
  destruct v; simpl; try discriminate;
    match goal with |- context [if ?b then _ else _] => destruct b end;
    discriminate.
Qed.

(** Sizes of what the property reads return. *)

Lemma lookup_size (k : string) (props : list (string * value)) :
  vsize (lookup k props)
  <= list_sum (map (fun kv : string * value => vsize (snd kv)) props).
Proof.
  induction props as [| [k' v] props IH]; simpl; [lia | ].
  destruct (String.eqb k' k); lia.
Qed.

Lemma get_le (k : string) (v : value) : vsize (get k v) <= vsize v.
Proof.
  destruct v; simpl; try lia. pose proof (lookup_size k props). lia.
Qed.

Lemma prop_le (v w : value) (k : string) :
  prop v k = Ok w -> vsize w <= vsize v.
Proof.
  destruct v; simpl; intros H; inversion H; subst; clear H;
    try (simpl; lia).
  pose proof (lookup_size k props). lia.
Qed.

Lemma prop_lt (v w : value) (k : string) :
  prop v k = Ok w -> w <> VUndefined -> vsize w < vsize v.
Proof.
  destruct v; simpl; intros H Hw; inversion H; subst; clear H;
    try congruence.
  pose proof (lookup_size k props). lia.
Qed.

Lemma prop_defined (v w : value) (k : string) :
  prop v k = Ok w -> v <> VUndefined.
Proof. destruct v; simpl; congruence. Qed.

Lemma truthy_defined (v : value) : truthy v = true -> v <> VUndefined.
Proof. destruct v; simpl; congruence. Qed.

Lemma elements_size (v : value) (l : list value) :
  elements v = Ok l -> lsize l < vsize v.
Proof.
  destruct v; simpl; intros H; inversion H; subst. unfold lsize. lia.
Qed.

Lemma blockOrSingle_size (n sv : value) (l : list value) :
  blockOrSingle n = Ok sv -> elements sv = Ok l ->
  lsize l <= vsize n /\ n <> VUndefined.
Proof.
  unfold blockOrSingle. intros H Hl.
  destruct (prop n "type") as [t | e] eqn:Ht; simpl in H; [ | discriminate].
  split; [ | eapply prop_defined; eassumption].
  destruct (isStr "BlockStatement" t).
  - apply prop_le in H. apply elements_size in Hl. lia.
  - inversion H; subst. simpl in Hl. inversion Hl; subst.
    unfold lsize; simpl. lia.
Qed.

Variables rec1 rec2 : list value -> list value -> result (list path).
Variable N : nat.
Hypothesis rec_agree :
  forall l c, lsize l < N -> agree (rec1 l c) (rec2 l c).

Lemma agree_callBlock (sv : value) (c : list value) :
  (forall l, elements sv = Ok l -> lsize l < N) ->
  agree (callBlock rec1 sv c) (callBlock rec2 sv c).
Proof.
  intros H. unfold callBlock.
  apply agree_bind; [apply agree_elements | ].
  intros l Hl. apply rec_agree. apply H. exact Hl.
Qed.

Lemma agree_branch (stmt n : value) (k : string) (c : list value) :
  vsize stmt <= N -> prop stmt k = Ok n ->
  agree (sv <- blockOrSingle n ;; callBlock rec1 sv c)
        (sv <- blockOrSingle n ;; callBlock rec2 sv c).
Proof.
  intros HN Hn.
  apply agree_bind; [apply agree_blockOrSingle | ].
  intros sv Hsv. apply agree_callBlock. intros l Hl.
  destruct (blockOrSingle_size _ _ _ Hsv Hl) as [Hle Hdef].
  pose proof (prop_lt _ _ _ Hn Hdef). lia.
Qed.

Lemma agree_analyzeIfStatement (stmt : value) (c : list value) :
  vsize stmt <= N ->
  agree (analyzeIfStatement rec1 stmt c) (analyzeIfStatement rec2 stmt c).
Proof.
  intros HN. unfold analyzeIfStatement.
  apply agree_bind; [apply agree_prop | intros consequent Hc].
  pose proof (agree_branch stmt consequent _ c HN Hc) as Hthen.
  destruct Hthen as [Heq Hne].
  destruct (blockOrSingle consequent) as [sv | e]; simpl in *;
    [ | split; [reflexivity | exact Hne]].
  apply agree_bind; [split; assumption | intros thenPaths _].
  apply agree_bind; [apply agree_prop | intros alternate Ha].
  apply agree_bind; [ | intros; apply agree_ok].
  destruct (truthy alternate).
  - eapply agree_branch; eassumption.
  - apply agree_ok.
Qed.

Lemma agree_finallyJoin (fs : value) (tryPaths : list path) :
  (forall l, elements fs = Ok l -> lsize l < N) ->
  agree (finallyJoin rec1 fs tryPaths) (finallyJoin rec2 fs tryPaths).
Proof.
  intros H. induction tryPaths as [| p rest IH]; simpl; [apply agree_ok | ].
  apply agree_bind.
  - destruct (isNo (terminated p)); apply agree_callBlock; exact H.
  - intros. apply agree_bind; [exact IH | intros; apply agree_ok].
Qed.

Lemma agree_analyzeTryStatement (stmt : value) (c : list value) :
  vsize stmt <= N ->
  agree (analyzeTryStatement rec1 stmt c) (analyzeTryStatement rec2 stmt c).
Proof.
  intros HN. unfold analyzeTryStatement.
  apply agree_bind; [apply agree_prop | intros block Hb].
  apply agree_bind; [apply agree_prop | intros ts Hts].
  apply agree_bind.
  { apply agree_callBlock. intros l Hl.
    pose proof (elements_size _ _ Hl). pose proof (prop_le _ _ _ Hts).
    pose proof (prop_lt _ _ _ Hb (prop_defined _ _ _ Hts)). lia. }
  intros tryPaths _.
  apply agree_bind; [apply agree_prop | intros handler Hh].
  apply agree_bind.
  { destruct (truthy handler) eqn:Htr; [ | apply agree_ok].
    apply agree_bind; [apply agree_prop | intros hb Hhb].
    apply agree_bind; [apply agree_prop | intros cs Hcs].
    apply agree_callBlock. intros l Hl.
    pose proof (elements_size _ _ Hl). pose proof (prop_le _ _ _ Hcs).
    pose proof (prop_le _ _ _ Hhb).
    pose proof (prop_lt _ _ _ Hh (truthy_defined _ Htr)). lia. }
  intros paths _.
  apply agree_bind; [apply agree_prop | intros finalizer Hf].
  destruct (truthy finalizer) eqn:Htr; [ | apply agree_ok].
  apply agree_bind; [apply agree_prop | intros fs Hfs].
  apply agree_bind; [ | intros; apply agree_ok].
  apply agree_finallyJoin. intros l Hl.
  pose proof (elements_size _ _ Hl). pose proof (prop_le _ _ _ Hfs).
  pose proof (prop_lt _ _ _ Hf (truthy_defined _ Htr)). lia.
Qed.

Lemma agree_switchCases (cases : list value) (c : list value) :
  lsize cases < N ->
  agree (switchCases rec1 cases c) (switchCases rec2 cases c).
Proof.
  induction cases as [| caseNode rest IH]; simpl; intros HN;
    [apply agree_ok | ].
  unfold lsize in HN, IH. simpl in HN.
  apply agree_bind; [apply agree_prop | intros test _].
  apply agree_bind; [apply agree_prop | intros cs Hcs].
  apply agree_bind; [apply agree_elements | intros l Hl].
  apply agree_bind.
  { destruct (0 <? List.length l); [ | apply agree_ok].
    apply rec_agree.
    pose proof (elements_size _ _ Hl). pose proof (prop_le _ _ _ Hcs). lia. }
  intros casePaths _.
  apply agree_bind; [apply IH; lia | intros; apply agree_ok].
Qed.

Lemma agree_analyzeSwitchStatement (stmt : value) (c : list value) :
  vsize stmt <= N ->
  agree (analyzeSwitchStatement rec1 stmt c) (analyzeSwitchStatement rec2 stmt c).
Proof.
  intros HN. unfold analyzeSwitchStatement.
  apply agree_bind; [apply agree_prop | intros cases Hc].
  apply agree_bind; [apply agree_elements | intros l Hl].
  apply agree_bind.
  { apply agree_switchCases.
    pose proof (elements_size _ _ Hl).
    assert (cases <> VUndefined) by (destruct cases; simpl in Hl; congruence).
    pose proof (prop_lt _ _ _ Hc H0). lia. }
  intros r _. destruct (negb (snd r)); apply agree_ok.
Qed.

Lemma agree_analyzeLoopStatement (stmt : value) (c : list value) :
  vsize stmt <= N ->
  agree (analyzeLoopStatement rec1 stmt c) (analyzeLoopStatement rec2 stmt c).
Proof.
  intros HN. unfold analyzeLoopStatement.
  apply agree_bind; [apply agree_prop | intros body Hb].
  pose proof (agree_branch stmt body _ c HN Hb) as [Heq Hne].
  destruct (blockOrSingle body) as [sv | e]; simpl in *;
    [ | split; [reflexivity | exact Hne]].
  apply agree_bind; [split; assumption | intros; apply agree_ok].
Qed.

Lemma agree_continuePaths (subPaths : list path) (remaining : list value) :
  lsize remaining < N ->
  agree (continuePaths rec1 subPaths remaining)
        (continuePaths rec2 subPaths remaining).
Proof.
  intros HN. induction subPaths as [| p rest IH]; simpl; [apply agree_ok | ].
  apply agree_bind.
  - destruct (isNo (terminated p) && (0 <? List.length remaining));
      [apply rec_agree; exact HN | apply agree_ok].
  - intros. apply agree_bind; [exact IH | intros; apply agree_ok].
Qed.

Lemma typed_size (stmt t : value) (lit : string) :
  prop stmt "type" = Ok t -> isStr lit t = true -> 1 <= vsize stmt.
Proof.
  intros Ht Hs. destruct stmt; simpl in Ht; inversion Ht; subst;
    simpl in Hs; try discriminate. simpl. lia.
Qed.

Lemma agree_analyzeBlockLoop (stmts : list value) (wp : list value) :
  lsize stmts <= N ->
  agree (analyzeBlockLoop rec1 stmts wp) (analyzeBlockLoop rec2 stmts wp).
Proof.
  revert wp. induction stmts as [| stmt remaining IH]; intros wp HN; simpl.
  - destruct (0 <? List.length wp); apply agree_ok.
  - unfold lsize in *. simpl in HN.
    apply agree_bind; [apply agree_prop | intros t Ht].
    assert (Hcont : forall lit sub1 sub2,
               isStr lit t = true -> agree sub1 sub2 ->
               agree (sp <- sub1 ;; cp <- continuePaths rec1 sp remaining ;; Ok ([] ++ cp))
                     (sp <- sub2 ;; cp <- continuePaths rec2 sp remaining ;; Ok ([] ++ cp))).
    { intros lit sub1 sub2 Hlit Hsub.
      pose proof (typed_size _ _ _ Ht Hlit).
      apply agree_bind; [exact Hsub | intros sp _].
      apply agree_bind; [ | intros; apply agree_ok].
      apply agree_continuePaths. unfold lsize. lia. }
    destruct (isStr "IfStatement" t) eqn:E1.
    { eapply Hcont; [exact E1 | apply agree_analyzeIfStatement; lia]. }
    destruct (isStr "TryStatement" t) eqn:E2.
    { eapply Hcont; [exact E2 | apply agree_analyzeTryStatement; lia]. }
    destruct (isStr "SwitchStatement" t) eqn:E3.
    { eapply Hcont; [exact E3 | apply agree_analyzeSwitchStatement; lia]. }
    destruct (isStr "ForStatement" t) eqn:E4; simpl.
    { eapply Hcont; [exact E4 | apply agree_analyzeLoopStatement; lia]. }
    destruct (isStr "WhileStatement" t) eqn:E5; simpl.
    { eapply Hcont; [exact E5 | apply agree_analyzeLoopStatement; lia]. }
    destruct (isStr "DoWhileStatement" t) eqn:E6; simpl.
    { eapply Hcont; [exact E6 | apply agree_analyzeLoopStatement; lia]. }
    destruct (isStr "ReturnStatement" t); [apply agree_ok | ].
    destruct (isStr "ThrowStatement" t); [apply agree_ok | ].
    apply IH. lia.
Qed.

End Fuel.

Lemma analyzeBlockFuel_agree (n m : nat) (stmts c : list value) :
  lsize stmts < n -> lsize stmts < m ->
  agree (analyzeBlockFuel n stmts c) (analyzeBlockFuel m stmts c).
Proof.
  revert m stmts c. induction n as [| n IH]; intros m stmts c Hn Hm; [lia | ].
  destruct m as [| m]; [lia | ]. simpl.
  apply agree_analyzeBlockLoop with (N := lsize stmts); [ | lia].
  intros l c' Hl. apply IH; lia.
Qed.

(** Any fuel above the size of the statements gives the outcome of
    [analyzeBlock]. *)
Lemma analyzeBlockFuel_enough (n : nat) (stmts c : list value) :
  lsize stmts < n -> analyzeBlockFuel n stmts c = analyzeBlock stmts c.
Proof.
  intros H. apply analyzeBlockFuel_agree; [exact H | lia].
Qed.

(** [analyzeBlock] never stops at the bound: its outcome is a list of paths
    or the TypeError of the source. *)
Lemma analyzeBlock_total (stmts c : list value) :
  analyzeBlock stmts c <> Err OutOfFuel.
Proof.
  apply (analyzeBlockFuel_agree (S (lsize stmts)) (S (lsize stmts))); lia.
Qed.

(** [analyzeBlock] is the body of the source function, calling itself. *)
Lemma analyzeBlock_unfold (stmts c : list value) :
  analyzeBlock stmts c = analyzeBlockLoop analyzeBlock stmts c.
Proof.
  unfold analyzeBlock at 1. simpl.
  apply agree_analyzeBlockLoop with (N := lsize stmts); [ | lia].
  intros l c' Hl. split.
  - apply analyzeBlockFuel_enough. exact Hl.
  - apply (analyzeBlockFuel_agree (lsize stmts) (lsize stmts)); exact Hl.
Qed.

Lemma prop_ok (v : value) (k : string) :
  defined v = true -> prop v k = Ok (get k v).
Proof. destruct v; simpl; congruence. Qed.

Lemma hasType_defined (lit : string) (stmt : value) :
  hasType lit stmt = true -> defined stmt = true.
Proof. unfold hasType. destruct stmt; simpl; congruence. Qed.

Lemma hasType_unique (a b : string) (stmt : value) :
  hasType a stmt = true -> hasType b stmt = true -> a = b.
Proof.
  unfold hasType, isStr. destruct (get "type" stmt); try discriminate.
  intros Ha Hb. apply String.eqb_eq in Ha, Hb. congruence.
Qed.

Lemma terminator_not_branching (stmt : value) :
  isTerminator stmt = true -> isBranching stmt = false.
Proof.
  unfold isTerminator, isBranching. intros H.
  apply orb_true_iff in H as [H | H];
    repeat (apply orb_false_intro);
    match goal with
    | |- hasType ?b stmt = false =>
        destruct (hasType b stmt) eqn:E; [ | reflexivity];
        pose proof (hasType_unique _ _ _ H E); discriminate
    end.
Qed.

Section LoopSteps.

Variable rec : list value -> list value -> result (list path).

Lemma loop_plain (stmt : value) (rest wp : list value) :
  isPlain stmt = true ->
  analyzeBlockLoop rec (stmt :: rest) wp
  = analyzeBlockLoop rec rest (wp ++ [stmt]).
Proof.
  unfold isPlain, isBranching, isTerminator, hasType. intros H.
  apply andb_prop in H as [H Ht]. apply andb_prop in H as [Hd Hb].
  apply negb_true_iff in Hb, Ht.
  repeat (apply orb_false_elim in Hb as [Hb ?]).
  apply orb_false_elim in Ht as [? ?].
  simpl. rewrite (prop_ok _ _ Hd). simpl.
  repeat match goal with H : isStr _ _ = false |- _ => rewrite H; clear H end.
  reflexivity.
Qed.

Lemma loop_plains (pre rest wp : list value) :
  Forall (fun s => isPlain s = true) pre ->
  analyzeBlockLoop rec (pre ++ rest) wp
  = analyzeBlockLoop rec rest (wp ++ pre).
Proof.
  intros H. revert wp. induction H as [| s pre Hs _ IH]; intros wp.
  - rewrite app_nil_r. reflexivity.
  - change ((s :: pre) ++ rest) with (s :: (pre ++ rest)).
    rewrite (loop_plain _ _ _ Hs), IH, <- app_assoc. reflexivity.
Qed.

Lemma loop_terminator (stmt : value) (rest wp : list value) :
  isTerminator stmt = true ->
  analyzeBlockLoop rec (stmt :: rest) wp
  = Ok [mkPath (wp ++ [stmt]) stmt (terminatorKind stmt) noFlag].
Proof.
  intros Ht. pose proof (terminator_not_branching _ Ht) as Hb. revert Hb Ht.
  unfold isBranching, isTerminator, terminatorKind, hasType. intros Hb Ht.
  repeat (apply orb_false_elim in Hb as [Hb ?]).
  assert (Hd : defined stmt = true)
    by (destruct stmt; simpl in Ht; try discriminate; reflexivity).
  simpl. rewrite (prop_ok _ _ Hd). simpl.
  repeat match goal with H : isStr _ _ = false |- _ => rewrite H; clear H end.
  simpl. destruct (isStr "ReturnStatement" (get "type" stmt)); [reflexivity | ].
  simpl in Ht. rewrite Ht. reflexivity.
Qed.

Lemma bind_ret {A : Type} (m : result (list A)) : (a <- m ;; Ok ([] ++ a)) = m.
Proof. destruct m; reflexivity. Qed.

Lemma hasType_other (a b : string) (stmt : value) :
  hasType a stmt = true -> a <> b -> isStr b (get "type" stmt) = false.
Proof.
  intros Ha Hab. destruct (isStr b (get "type" stmt)) eqn:E; [ | reflexivity].
  elim Hab. eapply hasType_unique; eassumption.
Qed.

(** At a control-flow statement the sub-paths of the statement are
    continued with the rest of the sequence. *)
Lemma loop_if (stmt : value) (rest wp : list value) :
  hasType "IfStatement" stmt = true ->
  analyzeBlockLoop rec (stmt :: rest) wp
  = (ifPaths <- analyzeIfStatement rec stmt wp ;;
     continuePaths rec ifPaths rest).
Proof.
  intros H. simpl. rewrite (prop_ok _ _ (hasType_defined _ _ H)). simpl bind at 1.
  unfold hasType in H. rewrite H.
  destruct (analyzeIfStatement rec stmt wp); simpl; [apply bind_ret | reflexivity].
Qed.

Lemma loop_try (stmt : value) (rest wp : list value) :
  hasType "TryStatement" stmt = true ->
  analyzeBlockLoop rec (stmt :: rest) wp
  = (tryPaths <- analyzeTryStatement rec stmt wp ;;
     continuePaths rec tryPaths rest).
Proof.
  intros H. simpl. rewrite (prop_ok _ _ (hasType_defined _ _ H)). simpl bind at 1.
  rewrite (hasType_other _ "IfStatement" _ H) by discriminate.
  unfold hasType in H. rewrite H.
  destruct (analyzeTryStatement rec stmt wp); simpl; [apply bind_ret | reflexivity].
Qed.

Lemma loop_switch (stmt : value) (rest wp : list value) :
  hasType "SwitchStatement" stmt = true ->
  analyzeBlockLoop rec (stmt :: rest) wp
  = (switchPaths <- analyzeSwitchStatement rec stmt wp ;;
     continuePaths rec switchPaths rest).
Proof.
  intros H. simpl. rewrite (prop_ok _ _ (hasType_defined _ _ H)). simpl bind at 1.
  rewrite (hasType_other _ "IfStatement" _ H) by discriminate.
  rewrite (hasType_other _ "TryStatement" _ H) by discriminate.
  unfold hasType in H. rewrite H.
  destruct (analyzeSwitchStatement rec stmt wp); simpl; [apply bind_ret | reflexivity].
Qed.

Lemma continuePaths_nil (subPaths : list path) :
  continuePaths rec subPaths [] = Ok subPaths.
Proof.
  induction subPaths as [| p ps IH]; simpl; [reflexivity | ].
  rewrite andb_false_r. simpl. rewrite IH. reflexivity.
Qed.

Lemma loop_end (wp : list value) :
  analyzeBlockLoop rec [] wp
  = Ok (if 0 <? List.length wp
        then [mkPath wp (last wp VUndefined) no noFlag] else []).
Proof. simpl. destruct (0 <? List.length wp); reflexivity. Qed.

End LoopSteps.

(** ** Every path extends the prefix it was seeded with *)

Lemma bind_ok {A B : Type} (m : result A) (f : A -> result B) (b : B) :
  bind m f = Ok b -> exists a, m = Ok a /\ f a = Ok b.
Proof.
  destruct m as [a | e]; simpl; [ | discriminate]. intros H. exists a. auto.
Qed.

Ltac inv_bind H :=
  let a := fresh "a" in
  let Ha := fresh "Ha" in
  apply bind_ok in H; destruct H as (a & Ha & H).

Ltac inv_ok H := inversion H; subst; clear H.

Lemma extends_refl (c : list value) (e : value) (t : termination) (f : pathFlag) :
  extends c (mkPath c e t f).
Proof. exists []. simpl. rewrite app_nil_r. reflexivity. Qed.

Lemma extends_trans (c : list value) (p q : path) :
  extends c p -> extends (statements p) q -> extends c q.
Proof.
  intros [e1 H1] [e2 H2]. exists (e1 ++ e2). rewrite H2, H1, app_assoc.
  reflexivity.
Qed.

Lemma extends_app (c d : list value) (p : path) :
  extends (c ++ d) p -> extends c p.
Proof. intros [e H]. exists (d ++ e). rewrite H, app_assoc. reflexivity. Qed.

Lemma extends_nonempty (c : list value) (p : path) :
  extends c p -> c <> [] -> statements p <> [].
Proof.
  intros [e H] Hc Hp. rewrite Hp in H. symmetry in H.
  apply app_eq_nil in H. tauto.
Qed.

Lemma app_nonempty_l {A : Type} (l1 l2 : list A) : l1 <> [] -> l1 ++ l2 <> [].
Proof. destruct l1; simpl; congruence. Qed.

Lemma app_nonempty_r {A : Type} (l1 l2 : list A) : l2 <> [] -> l1 ++ l2 <> [].
Proof. destruct l1, l2; simpl; congruence. Qed.

Section PathInvariant.

Variable rec : list value -> list value -> result (list path).
Hypothesis rec_inv : forall l c ps, rec l c = Ok ps -> pathInv c ps.

Lemma callBlock_inv (sv : value) (c : list value) (ps : list path) :
  callBlock rec sv c = Ok ps -> pathInv c ps.
Proof.
  unfold callBlock. intros H. inv_bind H. eapply rec_inv; eassumption.
Qed.

Lemma analyzeIfStatement_inv (stmt : value) (c : list value) (ps : list path) :
  analyzeIfStatement rec stmt c = Ok ps -> pathInv c ps.
Proof.
  unfold analyzeIfStatement. intros H.
  inv_bind H. inv_bind H. inv_bind H. inv_bind H. inv_bind H. inv_ok H.
  apply callBlock_inv in Ha1 as [Hthen Hne].
  assert (Helse : Forall (extends c) a3).
  { destruct (truthy a2).
    - inv_bind Ha3. apply callBlock_inv in Ha3. apply Ha3.
    - inv_ok Ha3. constructor; [apply extends_refl | constructor]. }
  split.
  - apply Forall_app. split; assumption.
  - intros Hc. apply app_nonempty_l. auto.
Qed.

Lemma finallyJoin_inv (fs : value) (c : list value) (tryPaths ps : list path) :
  pathInv c tryPaths ->
  finallyJoin rec fs tryPaths = Ok ps -> pathInv c ps.
Proof.
  intros [Hext Hne]. revert ps.
  induction tryPaths as [| p rest IH]; simpl; intros ps H.
  - inv_ok H. split; [constructor | ]. exact Hne.
  - inv_bind H. inv_bind H. inv_ok H.
    inversion Hext as [| ? ? Hp Hrest]; subst.
    assert (Hfin : pathInv (statements p) a).
    { destruct (isNo (terminated p)); eapply callBlock_inv; eassumption. }
    destruct Hfin as [Hfe Hfn].
    assert (Hrec : Forall (extends c) a0).
    { destruct rest as [| q rest'].
      - simpl in Ha0. inv_ok Ha0. constructor.
      - apply (IH Hrest); [congruence | exact Ha0]. }
    split.
    + apply Forall_app. split; [ | exact Hrec].
      eapply Forall_impl; [ | exact Hfe].
      intros q Hq. eapply extends_trans; eassumption.
    + intros Hc. apply app_nonempty_l. apply Hfn.
      eapply extends_nonempty; eassumption.
Qed.

Lemma analyzeTryStatement_inv (stmt : value) (c : list value) (ps : list path) :
  analyzeTryStatement rec stmt c = Ok ps -> pathInv c ps.
Proof.
  unfold analyzeTryStatement. intros H.
  inv_bind H. inv_bind H. inv_bind H. inv_bind H. inv_bind H. inv_bind H.
  apply callBlock_inv in Ha1 as Htry.
  assert (Hcatch : Forall (extends c) a3).
  { destruct (truthy a2).
    - inv_bind Ha3. inv_bind Ha3. apply callBlock_inv in Ha3. apply Ha3.
    - inv_ok Ha3. constructor. }
  destruct (truthy a4).
  - inv_bind H. inv_bind H. inv_ok H.
    destruct (finallyJoin_inv _ _ _ _ Htry Ha6) as [Hf Hn].
    split.
    + apply Forall_app. split; assumption.
    + intros Hc. apply app_nonempty_r. auto.
  - inv_ok H. destruct Htry as [Hf Hn]. split.
    + apply Forall_app. split; assumption.
    + intros Hc. apply app_nonempty_r. auto.
Qed.

Lemma switchCases_inv (cases c : list value) (r : list path * bool) :
  switchCases rec cases c = Ok r ->
  Forall (extends c) (fst r)
  /\ (c <> [] -> cases <> [] -> fst r <> [])
  /\ (snd r = true -> cases <> []).
Proof.
  revert r. induction cases as [| caseNode rest IH]; simpl; intros r H.
  - inv_ok H. simpl. repeat split; [constructor | congruence | discriminate].
  - inv_bind H. inv_bind H. inv_bind H. inv_bind H. inv_bind H. inv_ok H.
    simpl. destruct (IH _ Ha3) as (Hrest & _ & _).
    assert (Hcase : pathInv c a2).
    { destruct (0 <? List.length a1).
      - eapply rec_inv; eassumption.
      - inv_ok Ha2. split; [ | congruence].
        constructor; [apply extends_refl | constructor]. }
    destruct Hcase as [Hce Hcn]. repeat split.
    + apply Forall_app. split; assumption.
    + intros Hc _. apply app_nonempty_l. auto.
    + congruence.
Qed.

Lemma analyzeSwitchStatement_inv (stmt : value) (c : list value) (ps : list path) :
  analyzeSwitchStatement rec stmt c = Ok ps -> pathInv c ps.
Proof.
  unfold analyzeSwitchStatement. intros H.
  inv_bind H. inv_bind H. inv_bind H.
  destruct (switchCases_inv _ _ _ Ha1) as (He & Hn & Hd).
  destruct (snd a1); simpl in H; inv_ok H.
  - split; [exact He | ]. intros Hc. apply Hn; auto.
  - split.
    + apply Forall_app. split; [exact He | ].
      constructor; [apply extends_refl | constructor].
    + intros _. apply app_nonempty_r. congruence.
Qed.

Lemma analyzeLoopStatement_inv (stmt : value) (c : list value) (ps : list path) :
  analyzeLoopStatement rec stmt c = Ok ps -> pathInv c ps.
Proof.
  unfold analyzeLoopStatement. intros H.
  inv_bind H. inv_bind H. inv_bind H. inv_ok H.
  apply callBlock_inv in Ha1 as [He _]. split.
  - apply Forall_app. split; [exact He | ].
    constructor; [apply extends_refl | constructor].
  - intros _. apply app_nonempty_r. congruence.
Qed.

Lemma continuePaths_inv (subPaths : list path) (remaining c : list value)
    (ps : list path) :
  pathInv c subPaths ->
  continuePaths rec subPaths remaining = Ok ps -> pathInv c ps.
Proof.
  intros [Hext Hne]. revert ps.
  induction subPaths as [| p rest IH]; simpl; intros ps H.
  - inv_ok H. split; [constructor | exact Hne].
  - inv_bind H. inv_bind H. inv_ok H.
    inversion Hext as [| ? ? Hp Hrest]; subst.
    assert (Hcont : Forall (extends c) a /\ (c <> [] -> a <> [])).
    { destruct (isNo (terminated p) && (0 <? List.length remaining)).
      - destruct (rec_inv _ _ _ Ha) as [He Hn]. split.
        + eapply Forall_impl; [ | exact He].
          intros q Hq. eapply extends_trans; eassumption.
        + intros Hc. apply Hn. eapply extends_nonempty; eassumption.
      - inv_ok Ha. split; [ | congruence].
        constructor; [exact Hp | constructor]. }
    destruct Hcont as [Hce Hcn].
    assert (Hrec : Forall (extends c) a0).
    { destruct rest as [| q rest'].
      - simpl in Ha0. inv_ok Ha0. constructor.
      - apply (IH Hrest); [congruence | exact Ha0]. }
    split.
    + apply Forall_app. split; assumption.
    + intros Hc. apply app_nonempty_l. auto.
Qed.

Lemma analyzeBlockLoop_inv (stmts wp : list value) (ps : list path) :
  analyzeBlockLoop rec stmts wp = Ok ps -> pathInv wp ps.
Proof.
  revert wp ps. induction stmts as [| stmt remaining IH]; intros wp ps H.
  - rewrite loop_end in H. inv_ok H. destruct wp as [| x wp'].
    + split; [constructor | congruence].
    + split; [ | simpl; congruence].
      constructor; [apply extends_refl | constructor].
  - simpl in H. inv_bind H.
    assert (Hcont : forall sub,
               (forall sp, sub = Ok sp -> pathInv wp sp) ->
               (sp <- sub ;; cp <- continuePaths rec sp remaining ;; Ok ([] ++ cp))
               = Ok ps -> pathInv wp ps).
    { intros sub Hsub H'. inv_bind H'. inv_bind H'. inv_ok H'. simpl.
      eapply continuePaths_inv; [apply Hsub; reflexivity | eassumption]. }
    destruct (isStr "IfStatement" a).
    { eapply Hcont; [ | exact H]. intros; eapply analyzeIfStatement_inv; eassumption. }
    destruct (isStr "TryStatement" a).
    { eapply Hcont; [ | exact H]. intros; eapply analyzeTryStatement_inv; eassumption. }
    destruct (isStr "SwitchStatement" a).
    { eapply Hcont; [ | exact H]. intros; eapply analyzeSwitchStatement_inv; eassumption. }
    destruct (isStr "ForStatement" a || isStr "WhileStatement" a
              || isStr "DoWhileStatement" a).
    { eapply Hcont; [ | exact H]. intros; eapply analyzeLoopStatement_inv; eassumption. }
    assert (Hclose : forall t, pathInv wp [mkPath (wp ++ [stmt]) stmt t noFlag]).
    { intros t. split; [ | congruence].
      constructor; [ | constructor]. exists [stmt]. reflexivity. }
    destruct (isStr "ReturnStatement" a); [inv_ok H; apply Hclose | ].
    destruct (isStr "ThrowStatement" a); [inv_ok H; apply Hclose | ].
    destruct (IH _ _ H) as [He Hn]. split.
    + eapply Forall_impl; [ | exact He]. intros q. apply extends_app.
    + intros _. apply Hn. apply app_nonempty_r. congruence.
Qed.

End PathInvariant.

Lemma analyzeBlockFuel_inv (n : nat) (stmts c : list value) (ps : list path) :
  analyzeBlockFuel n stmts c = Ok ps -> pathInv c ps.
Proof.
  revert stmts c ps. induction n as [| n IH]; simpl; intros stmts c ps H.
  - discriminate.
  - eapply analyzeBlockLoop_inv; [ | exact H]. exact IH.
Qed.

Lemma analyzeBlock_inv (stmts c : list value) (ps : list path) :
  analyzeBlock stmts c = Ok ps -> pathInv c ps.
Proof. apply analyzeBlockFuel_inv. Qed.

(** ** C1: finally is joined to the try paths only *)

(** With a handler and a finalizer, [analyzeTryStatement] returns the catch
    paths as enumerated, followed by the try paths joined with the finally
    statements. *)
Lemma analyzeTryStatement_finally
    (rec : list value -> list value -> result (list path))
    (discr : value) (tryBody catchBody finallyBody cur : list value) :
  analyzeTryStatement rec
    (ESTree.TryStatement (ESTree.BlockStatement tryBody)
       (ESTree.CatchClause discr (ESTree.BlockStatement catchBody))
       (ESTree.BlockStatement finallyBody)) cur
  = (tryPaths <- rec tryBody cur ;;
     catchPaths <- rec catchBody cur ;;
     joined <- finallyJoin rec (VArr finallyBody) tryPaths ;;
     Ok (catchPaths ++ joined)).
Proof. reflexivity. Qed.

(** C1 (the code departs from the claim): for
    [try { A } catch (error) { B } finally { C }] with sentinel calls A, B
    and C, the enumerator returns the catch path [B] without the finally
    statement, with one sentinel call and no diagnostic, and the try path
    [A; C] with two sentinel calls; only the latter is reported as
    multipleCallbacks. *)
Theorem C1_finally_joined_to_try_paths_only :
  findAllExecutionPaths (ESTree.BlockStatement [Examples.tryCatchFinally])
  = Ok [mkPath [Examples.callB] Examples.callB no noFlag;
        mkPath [Examples.callA; Examples.callC] Examples.callC no noFlag]
  /\ countCallbacks "resolve" "reject" [Examples.callB] = 1
  /\ countCallbacks "resolve" "reject" [Examples.callA; Examples.callC] = 2
  /\ analyzeExecutionPaths (ESTree.BlockStatement [Examples.tryCatchFinally])
       "resolve" "reject"
     = Ok [mkIssue Examples.callC multipleCallbacks].
Proof. repeat split; vm_compute; reflexivity. Qed.

(** ** C2: return and throw close the path *)

(** A path that already terminated is kept as it is by the continuation
    loop. *)
Lemma continuePaths_terminated
    (rec : list value -> list value -> result (list path))
    (p : path) (ps : list path) (remaining : list value) :
  terminated p <> no ->
  continuePaths rec (p :: ps) remaining
  = (more <- continuePaths rec ps remaining ;; Ok (p :: more)).
Proof.
  intros H. simpl. destruct (terminated p); [congruence | | ]; reflexivity.
Qed.

Lemma terminatorKind_not_no (r : value) : terminatorKind r <> no.
Proof. unfold terminatorKind. destruct (hasType "ReturnStatement" r); discriminate. Qed.

(** C2: when the enumeration of a sequence reaches a return or throw
    statement [r] (the statements [pre] before it are plain, as they are in
    every call of [analyzeBlock] whose loop gets to [r]), it returns
    exactly one path, closed at [r] with terminal yes/thrown, whose last
    statement is [r]; the statements [rest] after [r] are on no path; and the
    continuation loop keeps such a path as it is.  For
    [if (condition) { A; return; } B;] the paths are [A; return], closed at
    the return with one sentinel call, and [B] from the synthetic no-else
    path, with one sentinel call; there is no diagnostic. *)
Theorem C2_return_closes_exactly_one_path
    (pre rest cur : list value) (r : value) :
  Forall (fun s => isPlain s = true) pre ->
  isTerminator r = true ->
  analyzeBlock (pre ++ r :: rest) cur
  = Ok [mkPath (cur ++ pre ++ [r]) r (terminatorKind r) noFlag]
  /\ last (cur ++ pre ++ [r]) VUndefined = r
  /\ (forall more, continuePaths analyzeBlock
                     [mkPath (cur ++ pre ++ [r]) r (terminatorKind r) noFlag] more
                   = Ok [mkPath (cur ++ pre ++ [r]) r (terminatorKind r) noFlag])
  /\ (findAllExecutionPaths (ESTree.BlockStatement [Examples.ifReturn; Examples.callB])
      = Ok [mkPath [Examples.callA; Examples.returnVoid] Examples.returnVoid yes noFlag;
            mkPath [Examples.callB] Examples.callB no noFlag]
      /\ countCallbacks "resolve" "reject" [Examples.callA; Examples.returnVoid] = 1
      /\ countCallbacks "resolve" "reject" [Examples.callB] = 1
      /\ analyzeExecutionPaths
           (ESTree.BlockStatement [Examples.ifReturn; Examples.callB])
           "resolve" "reject" = Ok []).
Proof.
  intros Hpre Hr. split; [ | split; [ | split]].
  - rewrite analyzeBlock_unfold, loop_plains by exact Hpre.
    rewrite loop_terminator by exact Hr. rewrite <- app_assoc. reflexivity.
  - rewrite app_assoc. apply last_last.
  - intros more. rewrite continuePaths_terminated.
    + reflexivity.
    + simpl. apply terminatorKind_not_no.
  - repeat split; vm_compute; reflexivity.
Qed.

Lemma C2_return_closes_exactly_one_path_witness :
  analyzeBlock ([Examples.callA] ++ Examples.throwError :: [Examples.callB]) []
  = Ok [mkPath [Examples.callA; Examples.throwError] Examples.throwError
               thrown noFlag].
Proof.
  apply (C2_return_closes_exactly_one_path
           [Examples.callA] [Examples.callB] [] Examples.throwError).
  - repeat constructor.
  - reflexivity.
Defined.

(** ** C3: an if without else *)

(** C3: for an if statement without alternate, [analyzeIfStatement] returns
    the paths of the consequent followed by exactly one more path, seeded
    with the current prefix, anchored at the if statement and not
    terminated.  For the body [if (condition) { A }] this gives two paths:
    [A] with one sentinel call and no diagnostic, and the empty synthetic
    path, reported as noCallback at the if statement. *)
Theorem C3_missing_else_adds_one_path
    (ifStmt : value) (cur : list value) (thenPaths : list path) :
  truthy (get "alternate" ifStmt) = false ->
  (sv <- blockOrSingle (get "consequent" ifStmt) ;;
   callBlock analyzeBlock sv cur) = Ok thenPaths ->
  analyzeIfStatement analyzeBlock ifStmt cur
  = Ok (thenPaths ++ [mkPath cur ifStmt no continuesAfterIf])
  /\ (findAllExecutionPaths (ESTree.BlockStatement [Examples.ifOnly])
      = Ok [mkPath [Examples.callA] Examples.callA no noFlag;
            mkPath [] Examples.ifOnly no continuesAfterIf]
      /\ countCallbacks "resolve" "reject" [Examples.callA] = 1
      /\ countCallbacks "resolve" "reject" [] = 0
      /\ analyzeExecutionPaths (ESTree.BlockStatement [Examples.ifOnly])
           "resolve" "reject"
         = Ok [mkIssue Examples.ifOnly noCallback]).
Proof.
  intros Halt Hthen. split; [ | repeat split; vm_compute; reflexivity].
  unfold analyzeIfStatement.
  assert (Hd : defined ifStmt = true).
  { destruct ifStmt; try reflexivity; simpl in Hthen; discriminate. }
  rewrite !(prop_ok _ _ Hd). simpl bind at 1.
  destruct (blockOrSingle (get "consequent" ifStmt)) as [sv | e];
    simpl in Hthen |- *; [ | discriminate].
  rewrite Hthen. simpl. rewrite Halt. reflexivity.
Qed.

Lemma C3_missing_else_adds_one_path_witness :
  analyzeIfStatement analyzeBlock Examples.ifOnly [Examples.callB]
  = Ok ([mkPath [Examples.callB; Examples.callA] Examples.callA no noFlag]
        ++ [mkPath [Examples.callB] Examples.ifOnly no continuesAfterIf]).
Proof.
  apply (C3_missing_else_adds_one_path Examples.ifOnly [Examples.callB]
           [mkPath [Examples.callB; Examples.callA] Examples.callA no noFlag]).
  - reflexivity.
  - vm_compute. reflexivity.
Defined.

(** ** C4: the verdict depends on the count alone *)

(** C4: what the classifier reports for a path is the verdict of the
    specification for its sentinel count: noCallback for count 0, nothing
    for count 1, multipleCallbacks for a greater count.  For the body
    [A; B;] one path is enumerated, with count 2, reported as
    multipleCallbacks. *)
Theorem C4_verdict_from_count_alone :
  (forall callbackBody resolveParam rejectParam p,
     issuesOfPath callbackBody resolveParam rejectParam p
     = issuesOfVerdict (orElse (endNode p) callbackBody)
         (specVerdict (countCallbacksInPath p resolveParam rejectParam)))
  /\ (exists messagesOfCount : nat -> list messageId,
        forall callbackBody resolveParam rejectParam p,
          map message (issuesOfPath callbackBody resolveParam rejectParam p)
          = messagesOfCount (countCallbacksInPath p resolveParam rejectParam))
  /\ findAllExecutionPaths (ESTree.BlockStatement [Examples.callA; Examples.callB])
     = Ok [mkPath [Examples.callA; Examples.callB] Examples.callB no noFlag]
  /\ countCallbacks "resolve" "reject" [Examples.callA; Examples.callB] = 2
  /\ analyzeExecutionPaths (ESTree.BlockStatement [Examples.callA; Examples.callB])
       "resolve" "reject"
     = Ok [mkIssue Examples.callB multipleCallbacks].
Proof.
  split; [ | split; [ | repeat split; vm_compute; reflexivity]].
  - intros body r j p. unfold issuesOfPath.
    destruct (countCallbacksInPath p r j) as [| [| n]]; reflexivity.
  - exists (fun count => map message (issuesOfVerdict VNull (specVerdict count))).
    intros body r j p. unfold issuesOfPath.
    destruct (countCallbacksInPath p r j) as [| [| n]]; reflexivity.
Qed.

(** ** Well-formed statements never raise a TypeError *)

Lemma wfStmt_defined (s : value) : wfStmt s -> defined s = true.
Proof.
  intros H. destruct H as [s H | s H | s H _ _ | s ? H _ _ _ _ | s ? H _ _ | s H _].
  - unfold isPlain in H. apply andb_prop in H as [H _].
    apply andb_prop in H as [H _]. exact H.
  - unfold isTerminator in H. apply orb_true_iff in H as [H | H];
      eapply hasType_defined; eassumption.
  - eapply hasType_defined; eassumption.
  - eapply hasType_defined; eassumption.
  - eapply hasType_defined; eassumption.
  - destruct H as [H | [H | H]]; eapply hasType_defined; eassumption.
Qed.

Lemma get_lt (k : string) (v : value) :
  get k v <> VUndefined -> vsize (get k v) < vsize v.
Proof.
  destruct v; simpl; try congruence. intros _.
  pose proof (lookup_size k props). lia.
Qed.

Lemma truthy_defined_true (v : value) : truthy v = true -> defined v = true.
Proof. destruct v; simpl; congruence. Qed.

Lemma defined_not_undefined (v : value) : defined v = true -> v <> VUndefined.
Proof. destruct v; simpl; congruence. Qed.

Section WellFormed.

Variable rec : list value -> list value -> result (list path).
Variable N : nat.
Hypothesis rec_ok :
  forall l c, lsize l < N -> Forall wfStmt l -> exists ps, rec l c = Ok ps.

Lemma body_ok (n : value) (body c : list value) :
  get "body" n = VArr body -> vsize n <= N -> Forall wfStmt body ->
  exists ps, rec body c = Ok ps.
Proof.
  intros Hb HN Hwf. apply rec_ok; [ | exact Hwf].
  pose proof (get_le "body" n) as Hle. rewrite Hb in Hle. simpl in Hle.
  unfold lsize. lia.
Qed.

Lemma branch_ok (n : value) (c : list value) :
  wfBranch n -> vsize n < N ->
  exists sv ps, blockOrSingle n = Ok sv /\ callBlock rec sv c = Ok ps.
Proof.
  intros Hwf HN. unfold blockOrSingle, callBlock.
  destruct Hwf as [n body Ht Hb Hwf | n Ht Hwf].
  - rewrite !(prop_ok _ _ (hasType_defined _ _ Ht)). simpl.
    unfold hasType in Ht. rewrite Ht, Hb.
    destruct (body_ok n body c Hb) as [ps Hps]; [lia | exact Hwf | ].
    exists (VArr body), ps. split; [reflexivity | exact Hps].
  - rewrite (prop_ok _ _ (wfStmt_defined _ Hwf)). simpl.
    unfold hasType in Ht. rewrite Ht.
    destruct (rec_ok [n] c) as [ps Hps].
    + unfold lsize. simpl. lia.
    + constructor; [exact Hwf | constructor].
    + exists (VArr [n]), ps. split; [reflexivity | exact Hps].
Qed.

Lemma sub_lt (k : string) (stmt : value) :
  vsize stmt <= N -> defined (get k stmt) = true -> vsize (get k stmt) < N.
Proof.
  intros HN Hd. pose proof (get_lt k stmt (defined_not_undefined _ Hd)). lia.
Qed.

Lemma wfBranch_defined (n : value) : wfBranch n -> defined n = true.
Proof.
  intros [? ? H _ _ | ? _ H];
    [eapply hasType_defined; eassumption | apply wfStmt_defined; exact H].
Qed.

Lemma analyzeIfStatement_ok (s : value) (c : list value) :
  hasType "IfStatement" s = true ->
  wfBranch (get "consequent" s) ->
  (truthy (get "alternate" s) = false \/ wfBranch (get "alternate" s)) ->
  vsize s <= N ->
  exists ps, analyzeIfStatement rec s c = Ok ps.
Proof.
  intros Ht Hcons Halt HN. unfold analyzeIfStatement.
  rewrite !(prop_ok _ _ (hasType_defined _ _ Ht)). simpl bind at 1.
  destruct (branch_ok _ c Hcons) as (sv & ps & Hsv & Hps).
  { apply sub_lt; [exact HN | apply wfBranch_defined; exact Hcons]. }
  rewrite Hsv. simpl bind at 1. rewrite Hps. simpl bind at 1. simpl bind at 1.
  destruct (truthy (get "alternate" s)) eqn:Htr.
  - destruct Halt as [Halt | Halt]; [discriminate | ].
    destruct (branch_ok _ c Halt) as (sv' & ps' & Hsv' & Hps').
    { apply sub_lt; [exact HN | apply truthy_defined_true; exact Htr]. }
    rewrite Hsv'. simpl bind at 2. rewrite Hps'. simpl. eauto.
  - simpl. eauto.
Qed.

Lemma finallyJoin_ok (fs : list value) (tryPaths : list path) :
  lsize fs < N -> Forall wfStmt fs ->
  exists ps, finallyJoin rec (VArr fs) tryPaths = Ok ps.
Proof.
  intros HN Hwf. induction tryPaths as [| p rest [ps IH]]; simpl; [eauto | ].
  unfold callBlock. simpl.
  destruct (rec_ok fs (statements p) HN Hwf) as [ps' Hps'].
  rewrite Hps', IH. destruct (isNo (terminated p)); simpl; eauto.
Qed.

Lemma analyzeTryStatement_ok (s : value) (tryBody c : list value) :
  hasType "TryStatement" s = true ->
  get "body" (get "block" s) = VArr tryBody ->
  Forall wfStmt tryBody ->
  (truthy (get "handler" s) = false
   \/ exists catchBody,
        get "body" (get "body" (get "handler" s)) = VArr catchBody
        /\ Forall wfStmt catchBody) ->
  (truthy (get "finalizer" s) = false
   \/ exists finallyBody,
        get "body" (get "finalizer" s) = VArr finallyBody
        /\ Forall wfStmt finallyBody) ->
  vsize s <= N ->
  exists ps, analyzeTryStatement rec s c = Ok ps.
Proof.
  intros Ht Hb Hwf Hh Hf HN. unfold analyzeTryStatement.
  assert (Hvd : forall v l, get "body" v = VArr l -> defined v = true).
  { intros v l H. destruct v; simpl in H; try discriminate; reflexivity. }
  rewrite !(prop_ok _ _ (hasType_defined _ _ Ht)). simpl bind at 1.
  pose proof (Hvd _ _ Hb) as Hbd.
  rewrite (prop_ok _ _ Hbd). simpl bind at 1. rewrite Hb.
  unfold callBlock at 1. simpl bind at 1.
  destruct (body_ok (get "block" s) tryBody c Hb) as [tps Htps];
    [pose proof (sub_lt "block" s HN Hbd); lia | exact Hwf | ].
  rewrite Htps. simpl bind at 1. simpl bind at 1.
  assert (Hcatch : exists cps,
             (if truthy (get "handler" s)
              then handlerBody <- prop (get "handler" s) "body" ;;
                   catchStatements <- prop handlerBody "body" ;;
                   callBlock rec catchStatements c
              else Ok []) = Ok cps).
  { destruct (truthy (get "handler" s)) eqn:Htr; [ | eauto].
    destruct Hh as [Hh | (cb & Hcb & Hcwf)]; [discriminate | ].
    pose proof (truthy_defined_true _ Htr) as Hhd.
    rewrite (prop_ok _ _ Hhd). simpl bind at 1.
    rewrite (prop_ok _ _ (Hvd _ _ Hcb)). simpl bind at 1. rewrite Hcb.
    unfold callBlock. simpl bind at 1.
    apply (body_ok (get "body" (get "handler" s)) cb c Hcb); [ | exact Hcwf].
    pose proof (get_le "body" (get "handler" s)).
    pose proof (sub_lt "handler" s HN Hhd). lia. }
  destruct Hcatch as [cps Hcps]. rewrite Hcps. simpl bind at 1. simpl bind at 1.
  destruct (truthy (get "finalizer" s)) eqn:Htr; [ | eauto].
  destruct Hf as [Hf | (fb & Hfb & Hfwf)]; [discriminate | ].
  pose proof (truthy_defined_true _ Htr) as Hfd.
  rewrite (prop_ok _ _ Hfd). simpl bind at 1. rewrite Hfb.
  destruct (finallyJoin_ok fb tps) as [jps Hjps]; [ | exact Hfwf | ].
  { pose proof (get_le "body" (get "finalizer" s)) as Hle.
    rewrite Hfb in Hle. simpl in Hle.
    pose proof (sub_lt "finalizer" s HN Hfd). unfold lsize. lia. }
  rewrite Hjps. simpl. eauto.
Qed.

Lemma switchCases_ok (cases c : list value) :
  lsize cases < N ->
  Forall (fun caseNode =>
            exists caseBody,
              get "consequent" caseNode = VArr caseBody
              /\ Forall wfStmt caseBody) cases ->
  exists r, switchCases rec cases c = Ok r.
Proof.
  intros HN Hwf. induction Hwf as [| caseNode rest (cb & Hcb & Hcwf) _ IH];
    simpl; [eauto | ].
  unfold lsize in HN, IH. simpl in HN.
  assert (Hd : defined caseNode = true).
  { destruct caseNode; simpl in Hcb; try discriminate; reflexivity. }
  rewrite !(prop_ok _ _ Hd). simpl bind at 1. simpl bind at 1. rewrite Hcb.
  simpl bind at 1.
  destruct IH as [r Hr]; [lia | ].
  assert (Hcase : exists cps,
             (if 0 <? List.length cb then rec cb c
              else Ok [mkPath c caseNode no isEmpty]) = Ok cps).
  { destruct (0 <? List.length cb); [ | eauto].
    apply rec_ok; [ | exact Hcwf].
    pose proof (get_le "consequent" caseNode) as Hle. rewrite Hcb in Hle.
    simpl in Hle. unfold lsize. lia. }
  destruct Hcase as [cps Hcps]. rewrite Hcps, Hr. simpl. eauto.
Qed.

Lemma analyzeSwitchStatement_ok (s : value) (cases c : list value) :
  hasType "SwitchStatement" s = true ->
  get "cases" s = VArr cases ->
  Forall (fun caseNode =>
            exists caseBody,
              get "consequent" caseNode = VArr caseBody
              /\ Forall wfStmt caseBody) cases ->
  vsize s <= N ->
  exists ps, analyzeSwitchStatement rec s c = Ok ps.
Proof.
  intros Ht Hc Hwf HN. unfold analyzeSwitchStatement.
  rewrite (prop_ok _ _ (hasType_defined _ _ Ht)). simpl bind at 1.
  rewrite Hc. simpl bind at 1.
  destruct (switchCases_ok cases c) as [r Hr]; [ | exact Hwf | ].
  { assert (Hd : get "cases" s <> VUndefined) by (rewrite Hc; discriminate).
    pose proof (get_lt "cases" s Hd) as Hlt. rewrite Hc in Hlt.
    simpl in Hlt. unfold lsize. lia. }
  rewrite Hr. simpl. destruct (negb (snd r)); eauto.
Qed.

Lemma analyzeLoopStatement_ok (s : value) (c : list value) :
  defined s = true -> wfBranch (get "body" s) -> vsize s <= N ->
  exists ps, analyzeLoopStatement rec s c = Ok ps.
Proof.
  intros Hd Hbody HN. unfold analyzeLoopStatement.
  rewrite (prop_ok _ _ Hd). simpl bind at 1.
  destruct (branch_ok _ c Hbody) as (sv & ps & Hsv & Hps).
  { apply sub_lt; [exact HN | apply wfBranch_defined; exact Hbody]. }
  rewrite Hsv. simpl bind at 1. rewrite Hps. simpl. eauto.
Qed.

Lemma continuePaths_ok (subPaths : list path) (remaining : list value) :
  lsize remaining < N -> Forall wfStmt remaining ->
  exists ps, continuePaths rec subPaths remaining = Ok ps.
Proof.
  intros HN Hwf. induction subPaths as [| p rest [ps IH]]; simpl; [eauto | ].
  rewrite IH.
  destruct (isNo (terminated p) && (0 <? List.length remaining)).
  - destruct (rec_ok remaining (statements p) HN Hwf) as [ps' ->].
    simpl. eauto.
  - simpl. eauto.
Qed.

End WellFormed.

Section WellFormedLoop.

Variable rec : list value -> list value -> result (list path).
Variable N : nat.
Hypothesis rec_ok :
  forall l c, lsize l < N -> Forall wfStmt l -> exists ps, rec l c = Ok ps.

Lemma hasType_size (lit : string) (s : value) :
  hasType lit s = true -> 1 <= vsize s.
Proof.
  unfold hasType. destruct s; simpl; try discriminate. intros _. lia.
Qed.

Lemma analyzeBlockLoop_ok (stmts wp : list value) :
  lsize stmts <= N -> Forall wfStmt stmts ->
  exists ps, analyzeBlockLoop rec stmts wp = Ok ps.
Proof.
  intros HN Hwf. revert wp HN.
  induction Hwf as [| stmt remaining Hs Hrem IH]; intros wp HN.
  - rewrite loop_end. eauto.
  - unfold lsize in HN, IH. simpl in HN.
    assert (Hcont : forall lit sub,
               hasType lit stmt = true ->
               (exists sp, sub = Ok sp) ->
               exists ps,
                 (sp <- sub ;; cp <- continuePaths rec sp remaining ;;
                  Ok ([] ++ cp)) = Ok ps).
    { intros lit sub Hlit [sp ->]. simpl bind at 1.
      pose proof (hasType_size _ _ Hlit).
      destruct (continuePaths_ok rec N rec_ok sp remaining) as [cp ->];
        [unfold lsize; lia | exact Hrem | ].
      simpl. eauto. }
    destruct Hs as [s H | s H | s H Hc Ha | s tb H Hb Hwb Hh Hf
                    | s cases H Hc Hcs | s H Hb].
    + rewrite loop_plain by exact H. apply IH. lia.
    + rewrite loop_terminator by exact H. eauto.
    + simpl. rewrite (prop_ok _ _ (hasType_defined _ _ H)). simpl bind at 1.
      unfold hasType in H. rewrite H. fold (hasType "IfStatement" s) in H.
      eapply Hcont; [exact H | ].
      apply (analyzeIfStatement_ok rec N rec_ok); auto; lia.
    + simpl. rewrite (prop_ok _ _ (hasType_defined _ _ H)). simpl bind at 1.
      destruct (isStr "IfStatement" (get "type" s)) eqn:E.
      { pose proof (hasType_unique _ _ _ H E). discriminate. }
      unfold hasType in H. rewrite H. fold (hasType "TryStatement" s) in H.
      eapply Hcont; [exact H | ].
      eapply (analyzeTryStatement_ok rec N rec_ok); eauto; lia.
    + simpl. rewrite (prop_ok _ _ (hasType_defined _ _ H)). simpl bind at 1.
      destruct (isStr "IfStatement" (get "type" s)) eqn:E1.
      { pose proof (hasType_unique _ _ _ H E1). discriminate. }
      destruct (isStr "TryStatement" (get "type" s)) eqn:E2.
      { pose proof (hasType_unique _ _ _ H E2). discriminate. }
      unfold hasType in H. rewrite H. fold (hasType "SwitchStatement" s) in H.
      eapply Hcont; [exact H | ].
      eapply (analyzeSwitchStatement_ok rec N rec_ok); eauto; lia.
    + assert (Hd : defined s = true).
      { destruct H as [H | [H | H]]; eapply hasType_defined; eassumption. }
      assert (Hlit : exists lit, hasType lit s = true).
      { destruct H as [H | [H | H]]; eauto. }
      destruct Hlit as [lit Hlit].
      simpl. rewrite (prop_ok _ _ Hd). simpl bind at 1.
      destruct (isStr "IfStatement" (get "type" s)) eqn:E1.
      { destruct H as [H | [H | H]];
          pose proof (hasType_unique _ _ _ H E1); discriminate. }
      destruct (isStr "TryStatement" (get "type" s)) eqn:E2.
      { destruct H as [H | [H | H]];
          pose proof (hasType_unique _ _ _ H E2); discriminate. }
      destruct (isStr "SwitchStatement" (get "type" s)) eqn:E3.
      { destruct H as [H | [H | H]];
          pose proof (hasType_unique _ _ _ H E3); discriminate. }
      assert (Hor : isStr "ForStatement" (get "type" s)
                    || isStr "WhileStatement" (get "type" s)
                    || isStr "DoWhileStatement" (get "type" s) = true).
      { unfold hasType in H. destruct H as [H | [H | H]]; rewrite H;
          repeat rewrite orb_true_r; reflexivity. }
      rewrite Hor.
      eapply Hcont; [exact Hlit | ].
      apply (analyzeLoopStatement_ok rec N rec_ok); auto; lia.
Qed.

End WellFormedLoop.

(** On well-formed statements [analyzeBlock] returns a list of paths. *)
Lemma analyzeBlock_ok (stmts c : list value) :
  Forall wfStmt stmts -> exists ps, analyzeBlock stmts c = Ok ps.
Proof.
  remember (lsize stmts) as n eqn:Hn.
  assert (Hle : lsize stmts <= n) by lia. clear Hn.
  revert stmts c Hle. induction n as [n IH] using lt_wf_ind.
  intros stmts c Hle Hwf. rewrite analyzeBlock_unfold.
  apply analyzeBlockLoop_ok with (N := n); [ | exact Hle | exact Hwf].
  intros l c' Hl Hwfl. apply (IH (lsize l)); [exact Hl | lia | exact Hwfl].
Qed.

Lemma findAllExecutionPaths_ok (callbackBody : value) :
  wfBody callbackBody -> exists ps, findAllExecutionPaths callbackBody = Ok ps.
Proof.
  intros [Hd Hb]. unfold findAllExecutionPaths.
  rewrite !(prop_ok _ _ Hd). simpl bind at 1.
  fold (hasType "BlockStatement" callbackBody).
  destruct (hasType "BlockStatement" callbackBody); simpl; [ | eauto].
  destruct (Hb eq_refl) as (body & -> & Hwf). unfold callBlock. simpl.
  apply analyzeBlock_ok. exact Hwf.
Qed.

(** ** C5: bodies without a path *)

(** C5: the enumeration does not return a path for every body.
    [analyzeBlock] pushes the path of a statement sequence that runs to its
    end only when its working path is not empty, so a sequence that is
    empty where no statement precedes it has no path at all.  The empty
    body [{}] has no path and no verdict.  The body
    [if (condition) {} else {} A; B;] has no path either, although every
    run of it calls both callbacks: nothing is reported.  And in
    [if (condition) { A } else {}] the else branch has no path, while the
    same statement without else has the path of the missing else, reported
    as noCallback at the if statement. *)
Theorem C5_empty_sequences_yield_no_path :
  (findAllExecutionPaths (ESTree.BlockStatement []) = Ok []
   /\ analyzeExecutionPaths (ESTree.BlockStatement []) "resolve" "reject"
      = Ok [])
  /\ (findAllExecutionPaths
        (ESTree.BlockStatement
           [Examples.ifEmptyBranches; Examples.callA; Examples.callB])
      = Ok []
      /\ countCallbacks "resolve" "reject" [Examples.callA; Examples.callB] = 2
      /\ analyzeExecutionPaths
           (ESTree.BlockStatement
              [Examples.ifEmptyBranches; Examples.callA; Examples.callB])
           "resolve" "reject"
         = Ok [])
  /\ (findAllExecutionPaths (ESTree.BlockStatement [Examples.ifEmptyElse])
      = Ok [mkPath [Examples.callA] Examples.callA no noFlag]
      /\ analyzeExecutionPaths (ESTree.BlockStatement [Examples.ifEmptyElse])
           "resolve" "reject"
         = Ok []
      /\ findAllExecutionPaths (ESTree.BlockStatement [Examples.ifOnly])
         = Ok [mkPath [Examples.callA] Examples.callA no noFlag;
               mkPath [] Examples.ifOnly no continuesAfterIf]
      /\ analyzeExecutionPaths (ESTree.BlockStatement [Examples.ifOnly])
           "resolve" "reject"
         = Ok [mkIssue Examples.ifOnly noCallback]).
Proof. repeat split; vm_compute; reflexivity. Qed.

(** ** C6: calls inside nested function literals are counted *)

Lemma length_filter_flat_map {A B : Type} (f : B -> bool) (g : A -> list B)
    (l : list A) :
  List.length (filter f (flat_map g l))
  = list_sum (map (fun x => List.length (filter f (g x))) l).
Proof.
  induction l as [| x l IH]; simpl; [reflexivity | ].
  rewrite filter_app, length_app, IH. reflexivity.
Qed.

Lemma list_sum_map_ext {A : Type} (f g : A -> nat) (l : list A) :
  Forall (fun x => f x = g x) l -> list_sum (map f l) = list_sum (map g l).
Proof. induction 1 as [| x l Hx _ IH]; simpl; congruence. Qed.

Section CounterSpec.

Variables resolveParam rejectParam : string.

Let traverse := traverse resolveParam rejectParam.
Let target := isTargetCall resolveParam rejectParam.

Lemma visitChild_descendants (child : value) :
  (forall item, child = VArr item -> Forall
     (fun x => traverse x = List.length (filter target (descendants x))) item) ->
  traverse child = List.length (filter target (descendants child)) ->
  visitChild traverse child
  = List.length (filter target (childDescendants descendants child)).
Proof.
  intros Hitems Hself. destruct child; simpl; try reflexivity;
    try (destruct (isNode _); [exact Hself | reflexivity]).
  rewrite length_filter_flat_map. apply list_sum_map_ext.
  eapply Forall_impl; [ | apply (Hitems items eq_refl)].
  intros x Hx. simpl. destruct (isNode x); [exact Hx | reflexivity].
Qed.

Lemma traverse_descendants_items (node : value) :
  traverse node = List.length (filter target (descendants node))
  /\ (forall items, node = VArr items ->
       Forall (fun x => traverse x = List.length (filter target (descendants x)))
              items).
Proof.
  induction node as [| | b | z | s | items IH | props IH]
    using value_nested_ind; try (split; [reflexivity | discriminate]).
  - (* array *)
    assert (Hitems : Forall
              (fun x => traverse x = List.length (filter target (descendants x)))
              items).
    { eapply Forall_impl; [ | exact IH]. intros x [Hx _]. exact Hx. }
    split; [ | intros ? [= <-]; exact Hitems].
    simpl. rewrite length_filter_flat_map. apply list_sum_map_ext.
    eapply Forall_impl; [ | exact IH]. intros child [Hchild Hsub]. simpl.
    apply visitChild_descendants; assumption.
  - (* object *)
    split; [ | discriminate].
    change (traverse (VObj props))
      with ((if target (VObj props) then 1 else 0)
            + list_sum (map (fun kv : string * value =>
                               if skippedKey (fst kv) then 0
                               else visitChild traverse (snd kv)) props)).
    change (descendants (VObj props))
      with (VObj props
            :: flat_map (fun kv : string * value =>
                           if skippedKey (fst kv) then []
                           else childDescendants descendants (snd kv)) props).
    cbn [filter].
    assert (Hrest :
      list_sum (map (fun kv : string * value =>
                       if skippedKey (fst kv) then 0
                       else visitChild traverse (snd kv)) props)
      = List.length
          (filter target
             (flat_map (fun kv : string * value =>
                          if skippedKey (fst kv) then []
                          else childDescendants descendants (snd kv)) props))).
    { rewrite length_filter_flat_map. apply list_sum_map_ext.
      eapply Forall_impl; [ | exact IH]. intros [k child] [Hchild Hsub].
      simpl. destruct (skippedKey k); [reflexivity | ].
      apply visitChild_descendants; assumption. }
    rewrite Hrest. destruct (target (VObj props)); reflexivity.
Qed.

(** The counter counts the target calls among the node and all its
    descendants. *)
Lemma traverse_descendants (node : value) :
  traverse node = List.length (filter target (descendants node)).
Proof. apply traverse_descendants_items. Qed.

End CounterSpec.

Lemma isNode_object (v : value) :
  isNode v = true -> exists props, v = VObj props.
Proof.
  unfold isNode. destruct v; simpl; try discriminate; eauto;
    rewrite ?andb_false_r; discriminate.
Qed.

(** A node held by a property of any object is among its descendants, and
    so are the descendants of that node. *)
Lemma descendants_child (props : list (string * value)) (k : string)
    (child : value) :
  In (k, child) props -> skippedKey k = false -> isNode child = true ->
  incl (descendants child) (descendants (VObj props)).
Proof.
  intros Hin Hk Hnode x Hx.
  change (descendants (VObj props))
    with (VObj props
          :: flat_map (fun kv : string * value =>
                         if skippedKey (fst kv) then []
                         else childDescendants descendants (snd kv)) props).
  right. apply in_flat_map. exists (k, child). split; [exact Hin | ].
  simpl. rewrite Hk. destruct (isNode_object _ Hnode) as [ps ->].
  unfold childDescendants. rewrite Hnode. exact Hx.
Qed.

(** C6: the counter counts the calls of the two targets among the statement
    and all its syntactic descendants, whatever the types of the nodes in
    between: a call [name(...)] with an identifier callee is a target call
    exactly when [name] is one of the two parameters; the descendants of the
    body of a function expression or arrow function are descendants of the
    function, and the count of the function is the count of its parameters
    plus the count of its body.  The statement
    [setTimeout(() => { resolve('delayed'); }, 100);] counts 1, and the body
    [resolve('immediate'); setTimeout(() => { resolve('delayed'); }, 100);]
    is reported as multipleCallbacks. *)
Theorem C6_calls_in_nested_functions_are_counted
    (resolveParam rejectParam : string) (params : list value) (body : value) :
  isNode body = true ->
  let count := countCallbacksInStatement resolveParam rejectParam in
  let paramsCount :=
    list_sum (map (fun p => if isNode p then count p else 0) params) in
  (forall stmt,
     count stmt
     = List.length (filter (isTargetCall resolveParam rejectParam)
                           (descendants stmt)))
  /\ (forall name arguments,
        isTargetCall resolveParam rejectParam
          (ESTree.CallExpression (ESTree.Identifier name) arguments)
        = String.eqb name resolveParam || String.eqb name rejectParam)
  /\ incl (descendants body) (descendants (ESTree.FunctionExpression params body))
  /\ incl (descendants body)
          (descendants (ESTree.ArrowFunctionExpression params body))
  /\ count (ESTree.FunctionExpression params body) = paramsCount + count body
  /\ count (ESTree.ArrowFunctionExpression params body) = paramsCount + count body
  /\ countCallbacksInStatement "resolve" "reject"
       (ESTree.callStmt "setTimeout"
          [ESTree.ArrowFunctionExpression []
             (ESTree.BlockStatement
                [ESTree.callStmt "resolve" [ESTree.Literal (VStr "delayed")]]);
           ESTree.Literal (VNum 100)]) = 1
  /\ analyzeExecutionPaths
       (ESTree.BlockStatement
          [ESTree.callStmt "resolve" [ESTree.Literal (VStr "immediate")];
           ESTree.callStmt "setTimeout"
             [ESTree.ArrowFunctionExpression []
                (ESTree.BlockStatement
                   [ESTree.callStmt "resolve" [ESTree.Literal (VStr "delayed")]]);
              ESTree.Literal (VNum 100)]])
       "resolve" "reject"
     = Ok [mkIssue
             (ESTree.callStmt "setTimeout"
                [ESTree.ArrowFunctionExpression []
                   (ESTree.BlockStatement
                      [ESTree.callStmt "resolve" [ESTree.Literal (VStr "delayed")]]);
                 ESTree.Literal (VNum 100)])
             multipleCallbacks].
Proof.
  intros Hbody count paramsCount.
  split; [ | split; [ | split; [ | split; [ | split; [ | split; [ | split]]]]]].
  - intros stmt. apply traverse_descendants.
  - intros name arguments. reflexivity.
  - apply (descendants_child _ "body" body); [ | reflexivity | exact Hbody].
    simpl. tauto.
  - apply (descendants_child _ "body" body); [ | reflexivity | exact Hbody].
    simpl. tauto.
  - subst count paramsCount. unfold countCallbacksInStatement.
    destruct (isNode_object _ Hbody) as [ps ->]. simpl.
    simpl in Hbody. rewrite Hbody. lia.
  - subst count paramsCount. unfold countCallbacksInStatement.
    destruct (isNode_object _ Hbody) as [ps ->]. simpl.
    simpl in Hbody. rewrite Hbody.
    destruct (negb (isStr "BlockStatement" (lookup "type" ps))); simpl; lia.
  - vm_compute. reflexivity.
  - vm_compute. reflexivity.
Qed.

Lemma C6_calls_in_nested_functions_are_counted_witness :
  countCallbacksInStatement "resolve" "reject"
    (ESTree.FunctionExpression [] (ESTree.BlockStatement [Examples.callA]))
  = 0 + countCallbacksInStatement "resolve" "reject"
          (ESTree.BlockStatement [Examples.callA]).
Proof.
  apply (C6_calls_in_nested_functions_are_counted "resolve" "reject" []
           (ESTree.BlockStatement [Examples.callA])).
  reflexivity.
Defined.

(** ** Sequences without branching *)

Lemma loop_straight (rec : list value -> list value -> result (list path))
    (stmts wp : list value) :
  nonBranching stmts -> stmts ++ wp <> [] ->
  analyzeBlockLoop rec stmts wp = Ok [straightPath stmts wp].
Proof.
  intros H. revert wp. induction H as [| s rest Hs _ IH]; intros wp Hne.
  - rewrite loop_end. simpl in Hne. destruct wp; [congruence | reflexivity].
  - simpl straightPath. destruct (isTerminator s) eqn:Ht.
    + apply loop_terminator. exact Ht.
    + rewrite orb_false_r in Hs. rewrite loop_plain by exact Hs.
      apply IH. intros Hnil. apply app_eq_nil in Hnil as [_ Hnil].
      apply app_eq_nil in Hnil as [_ Hnil]. discriminate.
Qed.

(** ** C7: a switch without default *)

Lemma switchCases_no_default
    (rec : list value -> list value -> result (list path))
    (cases cur : list value) (r : list path * bool) :
  Forall (fun caseNode => isNull (get "test" caseNode) = false) cases ->
  switchCases rec cases cur = Ok r -> snd r = false.
Proof.
  intros H. revert r. induction H as [| caseNode rest Hc _ IH]; simpl; intros r Hr.
  - inv_ok Hr. reflexivity.
  - inv_bind Hr. inv_bind Hr. inv_bind Hr. inv_bind Hr. inv_bind Hr. inv_ok Hr.
    simpl. rewrite (IH _ Ha3).
    assert (a = get "test" caseNode).
    { destruct caseNode; simpl in *; congruence. }
    subst a. rewrite Hc. reflexivity.
Qed.

Lemma switchCases_straight (cases cur : list value) :
  Forall (fun caseNode =>
            isNull (get "test" caseNode) = false
            /\ exists body, get "consequent" caseNode = VArr body
                            /\ nonBranching body) cases ->
  switchCases analyzeBlock cases cur = Ok (map (casePath cur) cases, false).
Proof.
  induction 1 as [| caseNode rest (Ht & body & Hb & Hnb) _ IH]; [reflexivity | ].
  simpl.
  assert (Hd : defined caseNode = true).
  { destruct caseNode; simpl in Hb; try discriminate; reflexivity. }
  rewrite !(prop_ok _ _ Hd). simpl bind at 1. simpl bind at 1.
  rewrite Hb. simpl bind at 1. rewrite IH.
  unfold casePath. rewrite Hb. destruct body as [| s body].
  - simpl. rewrite Ht. reflexivity.
  - rewrite analyzeBlock_unfold, loop_straight; [ | exact Hnb | discriminate].
    simpl. rewrite Ht. reflexivity.
Qed.

(** C7: for a switch whose cases all have a test (no default), the paths
    are those of the cases followed by exactly one more path, seeded with
    the current prefix, anchored at the switch and not terminated.  When the
    case bodies do not branch, each of the N cases gives one path: for an
    empty body the path seeded with the prefix and anchored at the case, not
    terminated; so there are N + 1 paths, and they are the paths of a
    sequence that consists of the switch. *)
Theorem C7_switch_without_default
    (switchStmt : value) (cases cur : list value) :
  get "cases" switchStmt = VArr cases ->
  Forall (fun caseNode => isNull (get "test" caseNode) = false) cases ->
  (forall r, switchCases analyzeBlock cases cur = Ok r ->
             analyzeSwitchStatement analyzeBlock switchStmt cur
             = Ok (fst r ++ [mkPath cur switchStmt no isImplicitDefault]))
  /\ (Forall (fun caseNode =>
                exists body, get "consequent" caseNode = VArr body
                             /\ nonBranching body) cases ->
      analyzeSwitchStatement analyzeBlock switchStmt cur
      = Ok (map (casePath cur) cases
            ++ [mkPath cur switchStmt no isImplicitDefault])
      /\ List.length (map (casePath cur) cases
                      ++ [mkPath cur switchStmt no isImplicitDefault])
         = List.length cases + 1
      /\ (forall caseNode,
            In caseNode cases -> get "consequent" caseNode = VArr [] ->
            casePath cur caseNode = mkPath cur caseNode no isEmpty)
      /\ (hasType "SwitchStatement" switchStmt = true ->
          analyzeBlock [switchStmt] cur
          = Ok (map (casePath cur) cases
                ++ [mkPath cur switchStmt no isImplicitDefault]))).
Proof.
  intros Hcases Htests.
  assert (Hd : defined switchStmt = true).
  { destruct switchStmt; simpl in Hcases; try discriminate; reflexivity. }
  assert (Hunfold : analyzeSwitchStatement analyzeBlock switchStmt cur
                    = (r <- switchCases analyzeBlock cases cur ;;
                       if negb (snd r)
                       then Ok (fst r ++ [mkPath cur switchStmt no isImplicitDefault])
                       else Ok (fst r))).
  { unfold analyzeSwitchStatement. rewrite (prop_ok _ _ Hd). simpl bind at 1.
    rewrite Hcases. reflexivity. }
  split.
  - intros r Hr. rewrite Hunfold, Hr. simpl.
    rewrite (switchCases_no_default _ _ _ _ Htests Hr). reflexivity.
  - intros Hbodies.
    assert (Hpaths : analyzeSwitchStatement analyzeBlock switchStmt cur
                     = Ok (map (casePath cur) cases
                           ++ [mkPath cur switchStmt no isImplicitDefault])).
    { rewrite Hunfold, switchCases_straight; [reflexivity | ].
      rewrite Forall_forall in *. intros c Hc. split; auto. }
    split; [exact Hpaths | ]. split; [ | split].
    + rewrite length_app, length_map. reflexivity.
    + intros caseNode _ Hempty. unfold casePath. rewrite Hempty. reflexivity.
    + intros Htype. rewrite analyzeBlock_unfold, loop_switch by exact Htype.
      rewrite Hpaths. simpl bind. apply continuePaths_nil.
Qed.

Lemma C7_switch_without_default_witness :
  analyzeSwitchStatement analyzeBlock Examples.switchTwoCases []
  = Ok [mkPath [ESTree.callStmt "resolve" [ESTree.Literal (VStr "ok")];
                ESTree.BreakStatement]
               ESTree.BreakStatement no noFlag;
        mkPath [] Examples.caseError no isEmpty;
        mkPath [] Examples.switchTwoCases no isImplicitDefault].
Proof.
  destruct (C7_switch_without_default Examples.switchTwoCases
              [Examples.caseSuccess; Examples.caseError] [])
    as [_ H].
  - reflexivity.
  - repeat constructor.
  - destruct H as [H _]; [ | exact H].
    constructor; [ | constructor; [ | constructor]].
    + eexists. split; [reflexivity | ]. repeat constructor.
    + eexists. split; [reflexivity | ]. constructor.
Defined.

(** ** C8: there is no path limit *)

Lemma analyzeBlock_plain (s : value) (rest wp : list value) :
  isPlain s = true ->
  analyzeBlock (s :: rest) wp = analyzeBlock rest (wp ++ [s]).
Proof.
  intros H. rewrite (analyzeBlock_unfold (s :: rest)), loop_plain by exact H.
  symmetry. apply analyzeBlock_unfold.
Qed.

Lemma analyzeBlock_nil (wp : list value) :
  wp <> [] ->
  analyzeBlock [] wp = Ok [mkPath wp (last wp VUndefined) no noFlag].
Proof. destruct wp; [congruence | reflexivity]. Qed.








(** ** C9: break is an ordinary statement *)

Lemma break_plain (brk : value) :
  hasType "BreakStatement" brk = true -> isPlain brk = true.
Proof.
  intros H. unfold isPlain. rewrite (hasType_defined _ _ H). simpl.
  assert (Hne : forall lit, lit <> "BreakStatement" -> hasType lit brk = false).
  { intros lit Hlit. destruct (hasType lit brk) eqn:E; [ | reflexivity].
    elim Hlit. eapply hasType_unique; eassumption. }
  unfold isBranching, isTerminator.
  rewrite !Hne by discriminate. reflexivity.
Qed.

Lemma analyzeBlock_plains (pre rest wp : list value) :
  Forall (fun s => isPlain s = true) pre ->
  analyzeBlock (pre ++ rest) wp = analyzeBlock rest (wp ++ pre).
Proof.
  intros H. rewrite (analyzeBlock_unfold (pre ++ rest)), loop_plains by exact H.
  symmetry. apply analyzeBlock_unfold.
Qed.

(** C9: a break statement reaches the final [else] of [analyzeBlock] like
    any plain statement: when the enumeration of a sequence reaches it
    (the statements [pre] before it are plain), it is appended to the
    working path and the enumeration goes on with the statements after it,
    so every path returned has the break among its statements; a sequence
    that ends in the break, such as a case body, gives one path that is not
    terminated, and the continuation loop extends that path with the
    statements that follow the enclosing construct.  For
    [switch (status) { case 'success': resolve('ok'); break; } B;] the case
    path is [resolve('ok'); break; B] with two sentinel calls, reported as
    multipleCallbacks. *)
Theorem C9_break_is_a_plain_statement
    (pre rest cur : list value) (brk : value) :
  Forall (fun s => isPlain s = true) pre ->
  hasType "BreakStatement" brk = true ->
  isPlain brk = true
  /\ analyzeBlock (pre ++ brk :: rest) cur
     = analyzeBlock rest (cur ++ pre ++ [brk])
  /\ (forall paths,
        analyzeBlock (pre ++ brk :: rest) cur = Ok paths ->
        Forall (fun p => In brk (statements p)) paths)
  /\ analyzeBlock (pre ++ [brk]) cur
     = Ok [mkPath (cur ++ pre ++ [brk]) brk no noFlag]
  /\ (forall following,
        following <> [] ->
        continuePaths analyzeBlock
          [mkPath (cur ++ pre ++ [brk]) brk no noFlag] following
        = (continued <- analyzeBlock following (cur ++ pre ++ [brk]) ;;
           Ok (continued ++ [])))
  /\ (findAllExecutionPaths
        (ESTree.BlockStatement [Examples.switchBreak; Examples.callB])
      = Ok [mkPath [ESTree.callStmt "resolve" [ESTree.Literal (VStr "ok")];
                    ESTree.BreakStatement; Examples.callB]
                   Examples.callB no noFlag;
            mkPath [Examples.callB] Examples.callB no noFlag]
      /\ analyzeExecutionPaths
           (ESTree.BlockStatement [Examples.switchBreak; Examples.callB])
           "resolve" "reject"
         = Ok [mkIssue Examples.callB multipleCallbacks]).
Proof.
  intros Hpre Hbrk. pose proof (break_plain _ Hbrk) as Hplain.
  assert (Hstep : forall rest', analyzeBlock (pre ++ brk :: rest') cur
                                = analyzeBlock rest' (cur ++ pre ++ [brk])).
  { intros rest'. rewrite analyzeBlock_plains by exact Hpre.
    rewrite analyzeBlock_plain by exact Hplain.
    rewrite <- app_assoc. reflexivity. }
  split; [exact Hplain | ]. split; [apply Hstep | ].
  split; [ | split; [ | split]].
  - intros paths Hpaths. rewrite Hstep in Hpaths.
    apply analyzeBlock_inv in Hpaths as [Hext _].
    eapply Forall_impl; [ | exact Hext]. intros p [ext Hp]. rewrite Hp.
    apply in_or_app. left. apply in_or_app. right.
    apply in_or_app. right. left. reflexivity.
  - rewrite Hstep, analyzeBlock_nil.
    + rewrite !app_assoc, last_last. reflexivity.
    + rewrite app_assoc. apply app_nonempty_r. discriminate.
  - intros following Hf. simpl.
    destruct following as [| s following]; [congruence | ]. reflexivity.
  - split; vm_compute; reflexivity.
Qed.

Lemma C9_break_is_a_plain_statement_witness :
  analyzeBlock ([Examples.callA] ++ [ESTree.BreakStatement]) []
  = Ok [mkPath [Examples.callA; ESTree.BreakStatement]
               ESTree.BreakStatement no noFlag].
Proof.
  apply (C9_break_is_a_plain_statement [Examples.callA] [] []
           ESTree.BreakStatement).
  - repeat constructor.
  - reflexivity.
Defined.

(** ** C10: the terminating statement is on the path *)

Lemma countCallbacks_app (resolveParam rejectParam : string) (l1 l2 : list value) :
  countCallbacks resolveParam rejectParam (l1 ++ l2)
  = countCallbacks resolveParam rejectParam l1
    + countCallbacks resolveParam rejectParam l2.
Proof.
  unfold countCallbacks.
  assert (Hgen : forall l acc,
             fold_left (fun count stmt =>
                          count + countCallbacksInStatement resolveParam rejectParam stmt)
                       l acc
             = acc + fold_left
                       (fun count stmt =>
                          count + countCallbacksInStatement resolveParam rejectParam stmt)
                       l 0).
  { induction l as [| s l IH]; intros acc; simpl; [lia | ].
    rewrite IH, (IH (countCallbacksInStatement _ _ _)). lia. }
  rewrite fold_left_app, Hgen. reflexivity.
Qed.

Lemma list_sum_in {A : Type} (f : A -> nat) (l : list A) (x : A) :
  In x l -> f x <= list_sum (map f l).
Proof.
  induction l as [| y l IH]; simpl; [tauto | ].
  intros [-> | H]; [lia | ]. specialize (IH H). lia.
Qed.

(** The calls counted in a node held by a property are counted in the
    object that has the property. *)
Lemma traverse_child_le (resolveParam rejectParam : string)
    (props : list (string * value)) (k : string) (child : value) :
  In (k, child) props -> skippedKey k = false -> isNode child = true ->
  traverse resolveParam rejectParam child
  <= traverse resolveParam rejectParam (VObj props).
Proof.
  intros Hin Hk Hnode.
  change (traverse resolveParam rejectParam (VObj props))
    with ((if isTargetCall resolveParam rejectParam (VObj props) then 1 else 0)
          + list_sum (map (fun kv : string * value =>
                             if skippedKey (fst kv) then 0
                             else visitChild (traverse resolveParam rejectParam)
                                    (snd kv)) props)).
  pose proof (list_sum_in
                (fun kv : string * value =>
                   if skippedKey (fst kv) then 0
                   else visitChild (traverse resolveParam rejectParam) (snd kv))
                props (k, child) Hin) as Hle.
  cbv beta in Hle. cbn [fst snd] in Hle. rewrite Hk in Hle.
  destruct (isNode_object _ Hnode) as [ps ->].
  change (visitChild (traverse resolveParam rejectParam) (VObj ps))
    with (if isNode (VObj ps)
          then traverse resolveParam rejectParam (VObj ps) else 0) in Hle at 1.
  rewrite Hnode in Hle. lia.
Qed.

Lemma traverse_target (resolveParam rejectParam : string)
    (props : list (string * value)) :
  isTargetCall resolveParam rejectParam (VObj props) = true ->
  1 <= traverse resolveParam rejectParam (VObj props).
Proof.
  intros H.
  change (traverse resolveParam rejectParam (VObj props))
    with ((if isTargetCall resolveParam rejectParam (VObj props) then 1 else 0)
          + list_sum (map (fun kv : string * value =>
                             if skippedKey (fst kv) then 0
                             else visitChild (traverse resolveParam rejectParam)
                                    (snd kv)) props)).
  rewrite H. lia.
Qed.

Lemma return_call_counted (resolveParam rejectParam name : string)
    (arguments : list value) :
  String.eqb name resolveParam || String.eqb name rejectParam = true ->
  1 <= countCallbacksInStatement resolveParam rejectParam
         (ESTree.ReturnStatement
            (ESTree.CallExpression (ESTree.Identifier name) arguments)).
Proof.
  intros H. unfold countCallbacksInStatement.
  transitivity (traverse resolveParam rejectParam
                  (ESTree.CallExpression (ESTree.Identifier name) arguments)).
  - apply traverse_target. exact H.
  - apply (traverse_child_le _ _ _ "argument"); [ | reflexivity | reflexivity].
    simpl. tauto.
Qed.

(** C10: the path closed at a return or throw statement [r] has [r] as its
    last statement, so its sentinel count is the count of the statements
    before [r] plus the count of [r] itself; a statement
    [return name(...)] whose callee is one of the two parameters counts at
    least 1.  For [if (condition) { return resolve('success'); } B;] the
    path closed at the return has count 1 and there is no diagnostic. *)
Theorem C10_terminating_statement_is_counted
    (pre rest cur : list value) (r : value)
    (resolveParam rejectParam : string) :
  Forall (fun s => isPlain s = true) pre ->
  isTerminator r = true ->
  (exists p,
     analyzeBlock (pre ++ r :: rest) cur = Ok [p]
     /\ In r (statements p)
     /\ last (statements p) VUndefined = r
     /\ terminated p = terminatorKind r
     /\ countCallbacksInPath p resolveParam rejectParam
        = countCallbacks resolveParam rejectParam (cur ++ pre)
          + countCallbacksInStatement resolveParam rejectParam r)
  /\ (forall arguments,
        1 <= countCallbacksInStatement resolveParam rejectParam
               (ESTree.ReturnStatement
                  (ESTree.CallExpression (ESTree.Identifier resolveParam) arguments))
        /\ 1 <= countCallbacksInStatement resolveParam rejectParam
                  (ESTree.ReturnStatement
                     (ESTree.CallExpression (ESTree.Identifier rejectParam) arguments)))
  /\ (findAllExecutionPaths
        (ESTree.BlockStatement [Examples.ifReturnResolve; Examples.callB])
      = Ok [mkPath [Examples.returnResolve] Examples.returnResolve yes noFlag;
            mkPath [Examples.callB] Examples.callB no noFlag]
      /\ countCallbacks "resolve" "reject" [Examples.returnResolve] = 1
      /\ analyzeExecutionPaths
           (ESTree.BlockStatement [Examples.ifReturnResolve; Examples.callB])
           "resolve" "reject" = Ok []).
Proof.
  intros Hpre Hr. split; [ | split].
  - exists (mkPath (cur ++ pre ++ [r]) r (terminatorKind r) noFlag).
    split; [ | split; [ | split; [ | split]]].
    + rewrite analyzeBlock_plains by exact Hpre.
      rewrite analyzeBlock_unfold, loop_terminator by exact Hr.
      rewrite <- app_assoc. reflexivity.
    + simpl. apply in_or_app. right. apply in_or_app. right. left. reflexivity.
    + simpl. rewrite app_assoc. apply last_last.
    + reflexivity.
    + unfold countCallbacksInPath. simpl.
      rewrite app_assoc, countCallbacks_app. reflexivity.
  - intros arguments. split; apply return_call_counted;
      rewrite String.eqb_refl, ?orb_true_r; reflexivity.
  - repeat split; vm_compute; reflexivity.
Qed.

Lemma C10_terminating_statement_is_counted_witness :
  exists p,
    analyzeBlock ([] ++ Examples.returnResolve :: [Examples.callB]) [Examples.callA]
    = Ok [p]
    /\ countCallbacksInPath p "resolve" "reject"
       = countCallbacks "resolve" "reject" ([Examples.callA] ++ [])
         + countCallbacksInStatement "resolve" "reject" Examples.returnResolve.
Proof.
  destruct (C10_terminating_statement_is_counted [] [Examples.callB]
              [Examples.callA] Examples.returnResolve "resolve" "reject")
    as [(p & Hp & _ & _ & _ & Hc) _].
  - constructor.
  - reflexivity.
  - exists p. split; [exact Hp | exact Hc].
Defined.

(** * Further properties of the rule *)

(** ** Paths and their prefix *)

(** X1: on well-formed statements [analyzeBlock] returns paths that all
    start with the prefix it was given, so the sentinel count of a path is
    the count of the prefix plus the count of what was appended; when the
    prefix already has two sentinel calls, every path is reported as
    multipleCallbacks. *)
Theorem X1_paths_extend_the_prefix
    (stmts cur : list value) (resolveParam rejectParam : string) :
  Forall wfStmt stmts ->
  exists paths,
    analyzeBlock stmts cur = Ok paths
    /\ Forall (fun p =>
                 exists ext,
                   statements p = cur ++ ext
                   /\ countCallbacksInPath p resolveParam rejectParam
                      = countCallbacks resolveParam rejectParam cur
                        + countCallbacks resolveParam rejectParam ext) paths
    /\ (2 <= countCallbacks resolveParam rejectParam cur ->
        forall callbackBody,
          Forall (fun p =>
                    map message (issuesOfPath callbackBody resolveParam rejectParam p)
                    = [multipleCallbacks]) paths).
Proof.
  intros Hwf. destruct (analyzeBlock_ok stmts cur Hwf) as [paths Hpaths].
  exists paths. split; [exact Hpaths | ].
  destruct (analyzeBlock_inv _ _ _ Hpaths) as [Hext _].
  assert (Hcount : Forall (fun p =>
                 exists ext,
                   statements p = cur ++ ext
                   /\ countCallbacksInPath p resolveParam rejectParam
                      = countCallbacks resolveParam rejectParam cur
                        + countCallbacks resolveParam rejectParam ext) paths).
  { eapply Forall_impl; [ | exact Hext]. intros p [ext Hp]. exists ext.
    split; [exact Hp | ]. unfold countCallbacksInPath.
    rewrite Hp. apply countCallbacks_app. }
  split; [exact Hcount | ]. intros Htwo body.
  eapply Forall_impl; [ | exact Hcount]. intros p (ext & _ & Hc).
  unfold issuesOfPath. rewrite Hc.
  destruct (countCallbacks resolveParam rejectParam cur
            + countCallbacks resolveParam rejectParam ext) as [| [| n]] eqn:E;
    [lia | lia | reflexivity].
Qed.

Lemma X1_paths_extend_the_prefix_witness :
  exists paths,
    analyzeBlock [Examples.ifOnly] [Examples.callA; Examples.callB] = Ok paths
    /\ Forall (fun p =>
                 map message (issuesOfPath VNull "resolve" "reject" p)
                 = [multipleCallbacks]) paths.
Proof.
  destruct (X1_paths_extend_the_prefix [Examples.ifOnly]
              [Examples.callA; Examples.callB] "resolve" "reject")
    as (paths & Hpaths & _ & Hall).
  - constructor; [ | constructor].
    apply wf_if; [reflexivity | | left; reflexivity].
    apply (wf_block _ [Examples.callA]); [reflexivity | reflexivity | ].
    repeat constructor.
  - exists paths. split; [exact Hpaths | ]. apply Hall. vm_compute. lia.
Defined.

(** ** The shape of the paths *)

Section PathShape.

Variable rec : list value -> list value -> result (list path).
Hypothesis rec_shape : forall l c ps, rec l c = Ok ps -> Forall pathShape ps.

Lemma callBlock_shape (sv : value) (c : list value) (ps : list path) :
  callBlock rec sv c = Ok ps -> Forall pathShape ps.
Proof.
  unfold callBlock. intros H. inv_bind H. eapply rec_shape; eassumption.
Qed.

Lemma analyzeIfStatement_shape (stmt : value) (c : list value) (ps : list path) :
  hasType "IfStatement" stmt = true ->
  analyzeIfStatement rec stmt c = Ok ps -> Forall pathShape ps.
Proof.
  unfold analyzeIfStatement. intros Ht H.
  inv_bind H. inv_bind H. inv_bind H. inv_bind H. inv_bind H. inv_ok H.
  apply Forall_app. split; [eapply callBlock_shape; eassumption | ].
  destruct (truthy a2).
  - inv_bind Ha3. eapply callBlock_shape; eassumption.
  - inv_ok Ha3. constructor; [ | constructor]. split; [reflexivity | exact Ht].
Qed.

Lemma finallyJoin_shape (fs : value) (tryPaths ps : list path) :
  finallyJoin rec fs tryPaths = Ok ps -> Forall pathShape ps.
Proof.
  revert ps. induction tryPaths as [| p rest IH]; simpl; intros ps H.
  - inv_ok H. constructor.
  - inv_bind H. inv_bind H. inv_ok H. apply Forall_app. split.
    + destruct (isNo (terminated p)); eapply callBlock_shape; eassumption.
    + apply IH. exact Ha0.
Qed.

Lemma analyzeTryStatement_shape (stmt : value) (c : list value) (ps : list path) :
  analyzeTryStatement rec stmt c = Ok ps -> Forall pathShape ps.
Proof.
  unfold analyzeTryStatement. intros H.
  inv_bind H. inv_bind H. inv_bind H. inv_bind H. inv_bind H. inv_bind H.
  assert (Hcatch : Forall pathShape a3).
  { destruct (truthy a2).
    - inv_bind Ha3. inv_bind Ha3. eapply callBlock_shape; eassumption.
    - inv_ok Ha3. constructor. }
  destruct (truthy a4).
  - inv_bind H. inv_bind H. inv_ok H. apply Forall_app.
    split; [exact Hcatch | eapply finallyJoin_shape; eassumption].
  - inv_ok H. apply Forall_app.
    split; [exact Hcatch | eapply callBlock_shape; eassumption].
Qed.

Lemma switchCases_shape (cases c : list value) (r : list path * bool) :
  switchCases rec cases c = Ok r -> Forall pathShape (fst r).
Proof.
  revert r. induction cases as [| caseNode rest IH]; simpl; intros r H.
  - inv_ok H. constructor.
  - inv_bind H. inv_bind H. inv_bind H. inv_bind H. inv_bind H. inv_ok H.
    simpl. apply Forall_app. split; [ | apply IH; exact Ha3].
    destruct (0 <? List.length a1).
    + eapply rec_shape; eassumption.
    + inv_ok Ha2. constructor; [reflexivity | constructor].
Qed.

Lemma analyzeSwitchStatement_shape (stmt : value) (c : list value)
    (ps : list path) :
  hasType "SwitchStatement" stmt = true ->
  analyzeSwitchStatement rec stmt c = Ok ps -> Forall pathShape ps.
Proof.
  unfold analyzeSwitchStatement. intros Ht H.
  inv_bind H. inv_bind H. inv_bind H.
  pose proof (switchCases_shape _ _ _ Ha1) as Hs.
  destruct (negb (snd a1)); inv_ok H; [ | exact Hs].
  apply Forall_app. split; [exact Hs | ].
  constructor; [ | constructor]. split; [reflexivity | exact Ht].
Qed.

Lemma analyzeLoopStatement_shape (stmt : value) (c : list value)
    (ps : list path) :
  isLoop stmt = true ->
  analyzeLoopStatement rec stmt c = Ok ps -> Forall pathShape ps.
Proof.
  unfold analyzeLoopStatement. intros Ht H.
  inv_bind H. inv_bind H. inv_bind H. inv_ok H.
  apply Forall_app. split; [eapply callBlock_shape; eassumption | ].
  constructor; [ | constructor]. split; [reflexivity | exact Ht].
Qed.

Lemma continuePaths_shape (subPaths : list path) (remaining : list value)
    (ps : list path) :
  Forall pathShape subPaths ->
  continuePaths rec subPaths remaining = Ok ps -> Forall pathShape ps.
Proof.
  intros Hsub. revert ps. induction Hsub as [| p rest Hp _ IH]; simpl; intros ps H.
  - inv_ok H. constructor.
  - inv_bind H. inv_bind H. inv_ok H. apply Forall_app. split; [ | apply IH; exact Ha0].
    destruct (isNo (terminated p) && (0 <? List.length remaining)).
    + eapply rec_shape; eassumption.
    + inv_ok Ha. constructor; [exact Hp | constructor].
Qed.

Lemma analyzeBlockLoop_shape (stmts wp : list value) (ps : list path) :
  analyzeBlockLoop rec stmts wp = Ok ps -> Forall pathShape ps.
Proof.
  revert wp ps. induction stmts as [| stmt remaining IH]; intros wp ps H.
  - rewrite loop_end in H. inv_ok H. destruct wp as [| x wp'].
    + constructor.
    + constructor; [ | constructor].
      split; [discriminate | ]. split; [reflexivity | left; reflexivity].
  - simpl in H. inv_bind H.
    assert (Hd : defined stmt = true).
    { destruct stmt; simpl in Ha; try discriminate; reflexivity. }
    rewrite (prop_ok _ _ Hd) in Ha. inv_ok Ha.
    assert (Hcont : forall sub,
               (forall sp, sub = Ok sp -> Forall pathShape sp) ->
               (sp <- sub ;; cp <- continuePaths rec sp remaining ;; Ok ([] ++ cp))
               = Ok ps -> Forall pathShape ps).
    { intros sub Hsub H'. inv_bind H'. inv_bind H'. inv_ok H'. simpl.
      eapply continuePaths_shape; [apply Hsub; reflexivity | eassumption]. }
    destruct (isStr "IfStatement" (get "type" stmt)) eqn:E1.
    { eapply Hcont; [ | exact H]. intros. eapply analyzeIfStatement_shape; eassumption. }
    destruct (isStr "TryStatement" (get "type" stmt)) eqn:E2.
    { eapply Hcont; [ | exact H]. intros. eapply analyzeTryStatement_shape; eassumption. }
    destruct (isStr "SwitchStatement" (get "type" stmt)) eqn:E3.
    { eapply Hcont; [ | exact H]. intros. eapply analyzeSwitchStatement_shape; eassumption. }
    destruct (isStr "ForStatement" (get "type" stmt)
              || isStr "WhileStatement" (get "type" stmt)
              || isStr "DoWhileStatement" (get "type" stmt)) eqn:E4.
    { eapply Hcont; [ | exact H]. intros. eapply analyzeLoopStatement_shape; eassumption. }
    assert (Hclose : forall t,
               isTerminator stmt = true -> t = terminatorKind stmt ->
               Forall pathShape [mkPath (wp ++ [stmt]) stmt t noFlag]).
    { intros t Hterm Ht. constructor; [ | constructor].
      split; [apply app_nonempty_r; discriminate | ].
      split; [apply last_last | right; split; assumption]. }
    destruct (isStr "ReturnStatement" (get "type" stmt)) eqn:E5.
    { inv_ok H. apply Hclose.
      - unfold isTerminator, hasType. rewrite E5. reflexivity.
      - unfold terminatorKind, hasType. rewrite E5. reflexivity. }
    destruct (isStr "ThrowStatement" (get "type" stmt)) eqn:E6.
    { inv_ok H. apply Hclose.
      - unfold isTerminator, hasType. rewrite E6. apply orb_true_r.
      - unfold terminatorKind, hasType. rewrite E5. reflexivity. }
    eapply IH. exact H.
Qed.

End PathShape.

Lemma analyzeBlockFuel_shape (n : nat) (stmts c : list value) (ps : list path) :
  analyzeBlockFuel n stmts c = Ok ps -> Forall pathShape ps.
Proof.
  revert stmts c ps. induction n as [| n IH]; simpl; intros stmts c ps H.
  - discriminate.
  - eapply analyzeBlockLoop_shape; [ | exact H]. exact IH.
Qed.

(** X2: the fields of every path the enumerator returns go together.  A
    path without flag has statements and is anchored at the last of them; if
    it is terminated, that statement is a return statement for ['yes'] and a
    throw statement for ['thrown'].  A path with a flag (the implicit else,
    the empty case, the implicit default, the skipped loop) is not
    terminated and is anchored at the if, switch or loop it stands for.  On
    well-formed bodies such a list of paths is returned. *)
Theorem X2_paths_are_well_shaped (callbackBody : value) :
  (forall paths,
     findAllExecutionPaths callbackBody = Ok paths -> Forall pathShape paths)
  /\ (wfBody callbackBody ->
      exists paths, findAllExecutionPaths callbackBody = Ok paths).
Proof.
  split; [ | apply findAllExecutionPaths_ok].
  intros paths H. unfold findAllExecutionPaths in H. inv_bind H.
  destruct (negb (isStr "BlockStatement" a)).
  - inv_ok H. constructor; [ | constructor].
    split; [discriminate | ]. split; [reflexivity | left; reflexivity].
  - inv_bind H. unfold callBlock in H. inv_bind H.
    eapply analyzeBlockFuel_shape. exact H.
Qed.

Lemma X2_paths_are_well_shaped_witness :
  exists paths,
    findAllExecutionPaths
      (ESTree.BlockStatement [Examples.ifReturn; Examples.callB]) = Ok paths
    /\ Forall pathShape paths.
Proof.
  destruct (X2_paths_are_well_shaped
              (ESTree.BlockStatement [Examples.ifReturn; Examples.callB]))
    as [Hshape Hok].
  destruct Hok as [paths Hpaths].
  - split; [reflexivity | ]. intros _.
    exists [Examples.ifReturn; Examples.callB]. split; [reflexivity | ].
    constructor; [ | repeat constructor].
    apply wf_if; [reflexivity | | left; reflexivity].
    apply (wf_block _ [Examples.callA; Examples.returnVoid]);
      [reflexivity | reflexivity | ].
    constructor; [apply wf_plain; reflexivity | ].
    constructor; [apply wf_terminator; reflexivity | constructor].
  - exists paths. split; [exact Hpaths | apply Hshape; exact Hpaths].
Defined.

(** ** Finally blocks *)

Lemma last_app_nonempty {A : Type} (l1 l2 : list A) (d : A) :
  l2 <> [] -> last (l1 ++ l2) d = last l2 d.
Proof.
  intros H. induction l1 as [| x l1 IH]; [reflexivity | ].
  simpl. destruct (l1 ++ l2) eqn:E; [ | exact IH].
  apply app_eq_nil in E as [_ E]. congruence.
Qed.

(** A sequence of plain statements gives the one path that appends them. *)
Lemma analyzeBlock_all_plain (l wp : list value) :
  Forall (fun s => isPlain s = true) l -> wp ++ l <> [] ->
  analyzeBlock l wp
  = Ok [mkPath (wp ++ l) (last (wp ++ l) VUndefined) no noFlag].
Proof.
  intros Hl Hne. rewrite <- (app_nil_r l) at 1.
  rewrite analyzeBlock_plains by exact Hl. apply analyzeBlock_nil. exact Hne.
Qed.

Lemma finallyJoin_plain (fs : list value) (tryPaths : list path) :
  Forall (fun s => isPlain s = true) fs -> fs <> [] ->
  finallyJoin analyzeBlock (VArr fs) tryPaths
  = Ok (map (fun p => mkPath (statements p ++ fs) (last fs VUndefined) no noFlag)
            tryPaths).
Proof.
  intros Hfs Hne. induction tryPaths as [| p rest IH]; [reflexivity | ].
  simpl. unfold callBlock. simpl. rewrite IH.
  rewrite analyzeBlock_all_plain by (exact Hfs || (apply app_nonempty_r; exact Hne)).
  rewrite last_app_nonempty by exact Hne.
  destruct (isNo (terminated p)); reflexivity.
Qed.

(** X3: a finally block of plain statements reopens every try path: each
    path of the try block, terminated or not, comes back not terminated,
    with the finally statements appended and anchored at the last of them.
    So when the try block ends in a return or throw, the statements that
    follow the try statement are still appended to its path. *)
Theorem X3_finally_reopens_terminated_paths
    (pre fs following cur : list value) (r : value) :
  Forall (fun s => isPlain s = true) pre ->
  isTerminator r = true ->
  Forall (fun s => isPlain s = true) fs -> fs <> [] ->
  Forall (fun s => isPlain s = true) following -> following <> [] ->
  (forall tryPaths,
     finallyJoin analyzeBlock (VArr fs) tryPaths
     = Ok (map (fun p => mkPath (statements p ++ fs) (last fs VUndefined) no noFlag)
               tryPaths))
  /\ analyzeBlock
       (ESTree.TryStatement (ESTree.BlockStatement (pre ++ [r])) VNull
          (ESTree.BlockStatement fs) :: following) cur
     = Ok [mkPath (((cur ++ pre ++ [r]) ++ fs) ++ following)
                  (last following VUndefined) no noFlag].
Proof.
  intros Hpre Hr Hfs Hfne Hfol Hfolne.
  split; [intros tryPaths; apply finallyJoin_plain; assumption | ].
  rewrite analyzeBlock_unfold, loop_try by reflexivity.
  assert (Htry : analyzeBlock (pre ++ [r]) cur
                 = Ok [mkPath (cur ++ pre ++ [r]) r (terminatorKind r) noFlag]).
  { rewrite analyzeBlock_plains by exact Hpre.
    rewrite analyzeBlock_unfold, loop_terminator by exact Hr.
    rewrite <- app_assoc. reflexivity. }
  change (analyzeTryStatement analyzeBlock
            (ESTree.TryStatement (ESTree.BlockStatement (pre ++ [r])) VNull
               (ESTree.BlockStatement fs)) cur)
    with (tryPaths <- analyzeBlock (pre ++ [r]) cur ;;
          joined <- finallyJoin analyzeBlock (VArr fs) tryPaths ;;
          Ok ([] ++ joined)).
  rewrite Htry. cbn [bind]. rewrite finallyJoin_plain by assumption.
  cbn [bind map statements continuePaths terminated isNo app].
  destruct following as [| f following']; [congruence | ].
  cbn [List.length Nat.ltb Nat.leb andb].
  rewrite analyzeBlock_all_plain;
    [ | exact Hfol | apply app_nonempty_r; discriminate ].
  simpl bind. rewrite last_app_nonempty by discriminate. reflexivity.
Qed.

Lemma X3_finally_reopens_terminated_paths_witness :
  analyzeBlock
    (ESTree.TryStatement
       (ESTree.BlockStatement ([] ++ [Examples.returnResolve])) VNull
       (ESTree.BlockStatement [Examples.logStmt]) :: [Examples.callB]) []
  = Ok [mkPath [Examples.returnResolve; Examples.logStmt; Examples.callB]
               Examples.callB no noFlag].
Proof.
  apply (X3_finally_reopens_terminated_paths [] [Examples.logStmt]
           [Examples.callB] [] Examples.returnResolve).
  - constructor.
  - reflexivity.
  - repeat constructor.
  - discriminate.
  - repeat constructor.
  - discriminate.
Defined.

(** ** Implicit paths *)

Lemma loop_loop (rec : list value -> list value -> result (list path))
    (stmt : value) (rest wp : list value) :
  isLoop stmt = true ->
  analyzeBlockLoop rec (stmt :: rest) wp
  = (loopPaths <- analyzeLoopStatement rec stmt wp ;;
     continuePaths rec loopPaths rest).
Proof.
  intros H.
  assert (Hlit : exists lit,
             hasType lit stmt = true
             /\ lit <> "IfStatement" /\ lit <> "TryStatement"
             /\ lit <> "SwitchStatement").
  { unfold isLoop in H. apply orb_true_iff in H as [H | H];
      [apply orb_true_iff in H as [H | H] | ];
      eexists; (split; [exact H | repeat split; discriminate]). }
  destruct Hlit as (lit & Hlit & N1 & N2 & N3).
  simpl. rewrite (prop_ok _ _ (hasType_defined _ _ Hlit)). simpl bind at 1.
  rewrite (hasType_other _ "IfStatement" _ Hlit) by exact N1.
  rewrite (hasType_other _ "TryStatement" _ Hlit) by exact N2.
  rewrite (hasType_other _ "SwitchStatement" _ Hlit) by exact N3.
  unfold isLoop, hasType in H. rewrite H.
  destruct (analyzeLoopStatement rec stmt wp); simpl; [apply bind_ret | reflexivity].
Qed.

Lemma implicitFlag_object (s : value) (f : pathFlag) :
  implicitFlag s = Some f -> truthy s = true /\ defined s = true.
Proof.
  unfold implicitFlag, isLoop, hasType.
  destruct s; simpl; try discriminate. auto.
Qed.

(** The implicit path of a statement is among the sub-paths of the
    statement. *)
Lemma implicit_path_in_subpaths (s : value) (f : pathFlag) (wp : list value)
    (paths : list path) :
  implicitFlag s = Some f ->
  analyzeBlockLoop analyzeBlock [s] wp = Ok paths ->
  In (mkPath wp s no f) paths.
Proof.
  unfold implicitFlag. intros Hf H.
  destruct (hasType "IfStatement" s) eqn:Hif.
  { destruct (truthy (get "alternate" s)) eqn:Halt; [discriminate | ].
    inv_ok Hf. rewrite loop_if in H by exact Hif. inv_bind H.
    rewrite continuePaths_nil in H. inv_ok H.
    unfold analyzeIfStatement in Ha.
    inv_bind Ha. inv_bind Ha. inv_bind Ha. inv_bind Ha. inv_bind Ha. inv_ok Ha.
    rewrite (prop_ok _ _ (hasType_defined _ _ Hif)) in Ha3. inv_ok Ha3.
    rewrite Halt in Ha4. inv_ok Ha4.
    apply in_or_app. right. left. reflexivity. }
  destruct (isLoop s) eqn:Hloop.
  { inv_ok Hf. rewrite loop_loop in H by exact Hloop. inv_bind H.
    rewrite continuePaths_nil in H. inv_ok H.
    unfold analyzeLoopStatement in Ha.
    inv_bind Ha. inv_bind Ha. inv_bind Ha. inv_ok Ha.
    apply in_or_app. right. left. reflexivity. }
  destruct (hasType "SwitchStatement" s) eqn:Hsw; [ | discriminate].
  destruct (get "cases" s) as [| | | | | cases |] eqn:Hcases; try discriminate.
  destruct (forallb (fun caseNode => negb (isNull (get "test" caseNode))) cases)
    eqn:Hall; [ | discriminate].
  inv_ok Hf. rewrite loop_switch in H by exact Hsw. inv_bind H.
  rewrite continuePaths_nil in H. inv_ok H.
  unfold analyzeSwitchStatement in Ha.
  rewrite (prop_ok _ _ (hasType_defined _ _ Hsw)), Hcases in Ha.
  simpl bind in Ha. inv_bind Ha.
  assert (Hnd : snd a = false).
  { eapply switchCases_no_default; [ | exact Ha0].
    rewrite forallb_forall in Hall. apply Forall_forall. intros c Hc.
    apply negb_true_iff. apply Hall. exact Hc. }
  rewrite Hnd in Ha. inv_ok Ha.
  apply in_or_app. right. left. reflexivity.
Qed.

(** X4: an if statement without else, a for, while or do-while loop, or a
    switch statement whose cases all have a test, at the end of a block of
    otherwise plain statements, always leaves its implicit path: the path
    with the statements before it, anchored at the statement.  So when the
    plain statements call no sentinel, a noCallback diagnostic is reported
    at that statement, whatever its branches do; and on a well-formed
    statement the analysis does return its diagnostics. *)
Theorem X4_implicit_path_is_always_reported
    (pre : list value) (s : value) (f : pathFlag)
    (resolveParam rejectParam : string) :
  Forall (fun s => isPlain s = true) pre ->
  implicitFlag s = Some f ->
  countCallbacks resolveParam rejectParam pre = 0 ->
  (forall paths,
     findAllExecutionPaths (ESTree.BlockStatement (pre ++ [s])) = Ok paths ->
     In (mkPath pre s no f) paths)
  /\ (forall issues,
        analyzeExecutionPaths (ESTree.BlockStatement (pre ++ [s]))
          resolveParam rejectParam = Ok issues ->
        In (mkIssue s noCallback) issues)
  /\ (wfStmt s ->
      exists issues,
        analyzeExecutionPaths (ESTree.BlockStatement (pre ++ [s]))
          resolveParam rejectParam = Ok issues).
Proof.
  intros Hpre Hf Hcount.
  assert (Hfind : forall paths,
             findAllExecutionPaths (ESTree.BlockStatement (pre ++ [s])) = Ok paths ->
             In (mkPath pre s no f) paths).
  { intros paths H.
    change (analyzeBlock (pre ++ [s]) [] = Ok paths) in H.
    rewrite analyzeBlock_unfold, loop_plains in H by exact Hpre.
    simpl app in H. eapply implicit_path_in_subpaths; eassumption. }
  split; [exact Hfind | ]. split.
  - intros issues H. unfold analyzeExecutionPaths in H. inv_bind H. inv_ok H.
    apply in_flat_map. exists (mkPath pre s no f). split; [apply Hfind; exact Ha | ].
    unfold issuesOfPath, countCallbacksInPath. simpl statements. rewrite Hcount.
    simpl. unfold orElse. destruct (implicitFlag_object _ _ Hf) as [-> _].
    left. reflexivity.
  - intros Hwf.
    destruct (findAllExecutionPaths_ok (ESTree.BlockStatement (pre ++ [s])))
      as [paths Hpaths].
    + split; [reflexivity | ]. intros _. exists (pre ++ [s]).
      split; [reflexivity | ]. apply Forall_app. split.
      * eapply Forall_impl; [ | exact Hpre]. intros x Hx. apply wf_plain. exact Hx.
      * constructor; [exact Hwf | constructor].
    + unfold analyzeExecutionPaths. rewrite Hpaths. simpl. eauto.
Qed.

Lemma X4_implicit_path_is_always_reported_witness :
  exists issues,
    analyzeExecutionPaths
      (ESTree.BlockStatement ([Examples.logStmt] ++ [Examples.switchBreak]))
      "resolve" "reject" = Ok issues
    /\ In (mkIssue Examples.switchBreak noCallback) issues.
Proof.
  destruct (X4_implicit_path_is_always_reported [Examples.logStmt]
              Examples.switchBreak isImplicitDefault "resolve" "reject")
    as (_ & Hin & Hok).
  - repeat constructor.
  - reflexivity.
  - reflexivity.
  - destruct Hok as [issues Hissues].
    + apply (wf_switch _ [Examples.caseSuccess]); [reflexivity | reflexivity | ].
      constructor; [ | constructor].
      exists [ESTree.callStmt "resolve" [ESTree.Literal (VStr "ok")];
              ESTree.BreakStatement].
      split; [reflexivity | ].
      constructor; [apply wf_plain; reflexivity | ].
      constructor; [apply wf_plain; reflexivity | constructor].
    + exists issues. split; [exact Hissues | apply Hin; exact Hissues].
Defined.

(** ** Statements that are not looked into *)

(** X5: a nested block, a labeled statement, a for-in or for-of loop and a
    with statement are plain statements for the enumerator: it does not look
    at the control flow inside.  A body that consists of one such statement
    has the single path made of that statement, and its verdict is the one
    of the number of sentinel calls anywhere inside the statement. *)
Theorem X5_nested_statements_are_not_enumerated
    (s : value) (t : string) (resolveParam rejectParam : string) :
  In t ["BlockStatement"; "LabeledStatement"; "ForInStatement";
        "ForOfStatement"; "WithStatement"] ->
  hasType t s = true ->
  (forall rest cur,
     analyzeBlock (s :: rest) cur = analyzeBlock rest (cur ++ [s]))
  /\ findAllExecutionPaths (ESTree.BlockStatement [s])
     = Ok [mkPath [s] s no noFlag]
  /\ analyzeExecutionPaths (ESTree.BlockStatement [s]) resolveParam rejectParam
     = Ok (issuesOfVerdict s
             (specVerdict (countCallbacksInStatement resolveParam rejectParam s))).
Proof.
  intros Ht Hs.
  assert (Hplain : isPlain s = true).
  { unfold isPlain. rewrite (hasType_defined _ _ Hs). simpl.
    assert (Hne : forall lit, lit <> t -> hasType lit s = false).
    { intros lit Hlit. destruct (hasType lit s) eqn:E; [ | reflexivity].
      elim Hlit. eapply hasType_unique; eassumption. }
    unfold isBranching, isTerminator.
    simpl in Ht.
    destruct Ht as [<- | [<- | [<- | [<- | [<- | []]]]]];
      rewrite !Hne by discriminate; reflexivity. }
  assert (Hfind : findAllExecutionPaths (ESTree.BlockStatement [s])
                  = Ok [mkPath [s] s no noFlag]).
  { change (analyzeBlock [s] [] = Ok [mkPath [s] s no noFlag]).
    rewrite analyzeBlock_plain by exact Hplain. reflexivity. }
  split; [intros rest cur; apply analyzeBlock_plain; exact Hplain | ].
  split; [exact Hfind | ].
  unfold analyzeExecutionPaths. rewrite Hfind. simpl. rewrite app_nil_r.
  unfold issuesOfPath, countCallbacksInPath, countCallbacks. simpl.
  assert (Htruthy : truthy s = true).
  { unfold hasType in Hs. destruct s; simpl in Hs; try discriminate. reflexivity. }
  unfold orElse. rewrite Htruthy.
  destruct (countCallbacksInStatement resolveParam rejectParam s) as [| [| n]];
    reflexivity.
Qed.

Lemma X5_nested_statements_are_not_enumerated_witness :
  analyzeExecutionPaths
    (ESTree.BlockStatement
       [ESTree.BlockStatement
          [ESTree.IfStatement Examples.condition Examples.callA Examples.callB]])
    "resolve" "reject"
  = Ok [mkIssue
          (ESTree.BlockStatement
             [ESTree.IfStatement Examples.condition Examples.callA Examples.callB])
          multipleCallbacks].
Proof.
  apply (X5_nested_statements_are_not_enumerated
           (ESTree.BlockStatement
              [ESTree.IfStatement Examples.condition Examples.callA Examples.callB])
           "BlockStatement" "resolve" "reject").
  - left. reflexivity.
  - reflexivity.
Defined.

(** ** The listener *)

(** X6: the listener reports nothing, and analyses nothing, for a [new]
    expression whose callee is not the identifier [Promise] (a member
    expression such as [window.Promise] included), that has no argument, or
    whose first argument is not a function expression or arrow function (a
    function passed by name, for instance). *)
Theorem X6_listener_ignores_other_constructions
    (callee : value) (arguments : list value) :
  defined callee = true ->
  hasType "Identifier" callee = false
  \/ isStr "Promise" (get "name" callee) = false
  \/ arguments = []
  \/ (exists first rest,
        arguments = first :: rest
        /\ defined first = true
        /\ hasType "ArrowFunctionExpression" first = false
        /\ hasType "FunctionExpression" first = false) ->
  visitNewExpression (ESTree.NewExpression callee arguments) = Ok [].
Proof.
  intros Hd H. unfold visitNewExpression, isPromiseConstructor.
  change (prop (ESTree.NewExpression callee arguments) "type")
    with (Ok (A := value) (VStr "NewExpression")).
  change (prop (ESTree.NewExpression callee arguments) "callee")
    with (Ok callee).
  cbn [bind]. change (isStr "NewExpression" (VStr "NewExpression")) with true.
  cbn iota. cbn [bind]. rewrite !(prop_ok _ _ Hd). cbn [bind].
  fold (hasType "Identifier" callee).
  destruct (hasType "Identifier" callee) eqn:Hid; [ | reflexivity].
  cbn [bind].
  destruct (isStr "Promise" (get "name" callee)) eqn:Hname; [ | reflexivity].
  destruct H as [H | [H | H]]; try discriminate.
  cbn [negb]. unfold getExecutorFunction.
  change (prop (ESTree.NewExpression callee arguments) "arguments")
    with (Ok (VArr arguments)).
  cbn [bind truthy elements].
  destruct H as [-> | (first & rest & -> & Hfd & Harrow & Hfun)]; [reflexivity | ].
  rewrite (prop_ok _ _ Hfd). cbn [bind].
  unfold hasType in Harrow, Hfun. rewrite Harrow, Hfun. reflexivity.
Qed.

Lemma X6_listener_ignores_other_constructions_witness :
  visitNewExpression
    (ESTree.NewExpression (ESTree.Identifier "Promise")
       [ESTree.Identifier "executor"]) = Ok [].
Proof.
  apply X6_listener_ignores_other_constructions.
  - reflexivity.
  - right. right. right. exists (ESTree.Identifier "executor"), [].
    repeat split.
Defined.

(** X7: for [new Promise(f, ...)] with a function literal [f] that has
    fewer than two parameters, or whose first or second parameter has no
    truthy [name] (a destructuring pattern, a default value or a rest
    element instead of an identifier), the listener makes exactly one
    report, missingParameters at [f], and does not look at the body of
    [f]. *)
Theorem X7_missing_parameters_is_the_only_report
    (executorFn : value) (params rest : list value) :
  hasType "ArrowFunctionExpression" executorFn = true
  \/ hasType "FunctionExpression" executorFn = true ->
  get "params" executorFn = VArr params ->
  List.length params < 2
  \/ truthy (paramName (nth 0 params VUndefined)) = false
  \/ truthy (paramName (nth 1 params VUndefined)) = false ->
  visitNewExpression
    (ESTree.NewExpression (ESTree.Identifier "Promise") (executorFn :: rest))
  = Ok [mkIssue executorFn missingParameters].
Proof.
  intros Htype Hparams Hmissing.
  assert (Hd : defined executorFn = true).
  { destruct Htype as [H | H]; eapply hasType_defined; eassumption. }
  assert (Htruthy : truthy executorFn = true).
  { destruct executorFn; simpl in Hparams; try discriminate. reflexivity. }
  assert (Hexec : getExecutorFunction
                    (ESTree.NewExpression (ESTree.Identifier "Promise")
                       (executorFn :: rest)) = Ok executorFn).
  { unfold getExecutorFunction.
    change (prop (ESTree.NewExpression (ESTree.Identifier "Promise")
                    (executorFn :: rest)) "arguments")
      with (Ok (VArr (executorFn :: rest))).
    cbn [bind truthy elements]. rewrite (prop_ok _ _ Hd). cbn [bind].
    unfold hasType in Htype. destruct Htype as [-> | ->];
      rewrite ?orb_true_r; reflexivity. }
  unfold visitNewExpression.
  change (isPromiseConstructor
            (ESTree.NewExpression (ESTree.Identifier "Promise")
               (executorFn :: rest))) with (Ok true).
  cbn [bind negb]. rewrite Hexec. cbn [bind]. rewrite Htruthy. cbn [negb].
  unfold getParameterNames. rewrite (prop_ok _ _ Hd), Hparams. cbn [bind elements].
  destruct (List.length params <? 2) eqn:Hlen; [reflexivity | ].
  apply Nat.ltb_ge in Hlen. destruct Hmissing as [H | [H | H]]; [lia | | ].
  - cbn [bind]. rewrite H. reflexivity.
  - cbn [bind]. rewrite H. rewrite orb_true_r. reflexivity.
Qed.

Lemma X7_missing_parameters_is_the_only_report_witness :
  visitNewExpression
    (ESTree.NewExpression (ESTree.Identifier "Promise")
       [ESTree.ArrowFunctionExpression [ESTree.Identifier "resolve"]
          (ESTree.BlockStatement [Examples.callA])])
  = Ok [mkIssue
          (ESTree.ArrowFunctionExpression [ESTree.Identifier "resolve"]
             (ESTree.BlockStatement [Examples.callA]))
          missingParameters].
Proof.
  apply (X7_missing_parameters_is_the_only_report _
           [ESTree.Identifier "resolve"] []).
  - left. reflexivity.
  - reflexivity.
  - left. simpl. lia.
Defined.

Lemma issuesOfPath_messages (callbackBody : value)
    (resolveParam rejectParam : string) (p : path) (i : issue) :
  In i (issuesOfPath callbackBody resolveParam rejectParam p) ->
  message i = noCallback \/ message i = multipleCallbacks.
Proof.
  unfold issuesOfPath.
  destruct (countCallbacksInPath p resolveParam rejectParam =? 0);
    [intros [<- | []]; left; reflexivity | ].
  destruct (1 <? countCallbacksInPath p resolveParam rejectParam);
    [intros [<- | []]; right; reflexivity | intros []].
Qed.

(** X8: whatever the node, the reports of the listener are either the
    single report missingParameters or reports of noCallback and
    multipleCallbacks only: missingParameters never comes with another
    report, and the message unreachableCallback, which the rule declares, is
    never reported. *)
Theorem X8_reports_of_the_listener (node : value) (reports : list issue) :
  visitNewExpression node = Ok reports ->
  (exists executorFn, reports = [mkIssue executorFn missingParameters])
  \/ Forall (fun i => message i = noCallback \/ message i = multipleCallbacks)
            reports.
Proof.
  unfold visitNewExpression. intros H. inv_bind H.
  destruct (negb a); [inv_ok H; right; constructor | ].
  inv_bind H. destruct (negb (truthy a0)); [inv_ok H; right; constructor | ].
  inv_bind H. destruct a1 as [[resolve reject] | ].
  - destruct (negb (truthy resolve) || negb (truthy reject)).
    + inv_ok H. left. eauto.
    + inv_bind H. inv_bind H. inv_bind H.
      unfold analyzeExecutionPaths in H. inv_bind H. inv_ok H. right.
      apply Forall_forall. intros i Hi. apply in_flat_map in Hi as (p & _ & Hi).
      eapply issuesOfPath_messages. exact Hi.
  - inv_ok H. left. eauto.
Qed.

Lemma X8_reports_of_the_listener_witness :
  (exists executorFn,
     [mkIssue Examples.callB multipleCallbacks]
     = [mkIssue executorFn missingParameters])
  \/ Forall (fun i => message i = noCallback \/ message i = multipleCallbacks)
            [mkIssue Examples.callB multipleCallbacks].
Proof.
  apply (X8_reports_of_the_listener
           (ESTree.NewExpression (ESTree.Identifier "Promise")
              [ESTree.ArrowFunctionExpression
                 [ESTree.Identifier "resolve"; ESTree.Identifier "reject"]
                 (ESTree.BlockStatement [Examples.callA; Examples.callB])])).
  vm_compute. reflexivity.
Defined.

(** ** The counter and the book-keeping properties *)

Lemma truthy_strip (v : value) : truthy (strip v) = truthy v.
Proof. destruct v; reflexivity. Qed.

Lemma isStr_strip (lit : string) (v : value) : isStr lit (strip v) = isStr lit v.
Proof. destruct v; reflexivity. Qed.

Lemma typeofObject_strip (v : value) : typeofObject (strip v) = typeofObject v.
Proof. destruct v; reflexivity. Qed.

Lemma skippedKey_eqb (k k' : string) :
  String.eqb k' k = true -> skippedKey k' = skippedKey k.
Proof. intros H. apply String.eqb_eq in H. congruence. Qed.

Lemma lookup_strip (k : string) (props : list (string * value)) :
  skippedKey k = false ->
  lookup k (filter (fun kv : string * value => negb (skippedKey (fst kv)))
                   (map (fun kv : string * value => (fst kv, strip (snd kv)))
                        props))
  = strip (lookup k props).
Proof.
  intros Hk. induction props as [| [k' v] props IH]; [reflexivity | ].
  simpl. destruct (String.eqb k' k) eqn:E.
  - rewrite (skippedKey_eqb _ _ E), Hk. simpl. rewrite E. reflexivity.
  - destruct (skippedKey k'); simpl; [exact IH | ]. rewrite E. exact IH.
Qed.

Lemma get_strip (k : string) (v : value) :
  skippedKey k = false -> get k (strip v) = strip (get k v).
Proof.
  intros Hk. destruct v; try reflexivity. simpl. apply lookup_strip. exact Hk.
Qed.

Lemma isNode_strip (v : value) : isNode (strip v) = isNode v.
Proof.
  unfold isNode.
  rewrite truthy_strip, typeofObject_strip, get_strip, truthy_strip by reflexivity.
  reflexivity.
Qed.

Lemma isTargetCall_strip (resolveParam rejectParam : string) (v : value) :
  isTargetCall resolveParam rejectParam (strip v)
  = isTargetCall resolveParam rejectParam v.
Proof.
  unfold isTargetCall.
  rewrite !get_strip by reflexivity.
  rewrite !isStr_strip, truthy_strip. reflexivity.
Qed.

Lemma list_sum_filter_map {A B : Type} (keep : B -> bool) (g : A -> B)
    (f : B -> nat) (h : A -> nat) (l : list A) :
  Forall (fun x => (if keep (g x) then f (g x) else 0) = h x) l ->
  list_sum (map f (filter keep (map g l))) = list_sum (map h l).
Proof.
  induction 1 as [| x l Hx _ IH]; [reflexivity | ].
  simpl. destruct (keep (g x)); simpl; rewrite IH; lia.
Qed.

Section StripCount.

Variables resolveParam rejectParam : string.

Let count := traverse resolveParam rejectParam.

Lemma visitChild_strip (child : value) :
  (forall items, child = VArr items ->
                 Forall (fun x => count (strip x) = count x) items) ->
  count (strip child) = count child ->
  visitChild count (strip child) = visitChild count child.
Proof.
  intros Hitems Hself. destruct child; try reflexivity.
  - simpl. rewrite map_map. apply list_sum_map_ext.
    eapply Forall_impl; [ | apply (Hitems items eq_refl)].
    intros x Hx. simpl. rewrite isNode_strip, Hx. reflexivity.
  - change (visitChild count (strip (VObj props)))
      with (if isNode (strip (VObj props)) then count (strip (VObj props)) else 0).
    rewrite isNode_strip, Hself. reflexivity.
Qed.

Lemma traverse_strip_items (node : value) :
  count (strip node) = count node
  /\ (forall items, node = VArr items ->
                    Forall (fun x => count (strip x) = count x) items).
Proof.
  induction node as [| | b | z | s | items IH | props IH]
    using value_nested_ind; try (split; [reflexivity | discriminate]).
  - assert (Hitems : Forall (fun x => count (strip x) = count x) items).
    { eapply Forall_impl; [ | exact IH]. intros x [Hx _]. exact Hx. }
    split; [ | intros ? [= <-]; exact Hitems].
    simpl. rewrite map_map. apply list_sum_map_ext.
    eapply Forall_impl; [ | exact IH]. intros child [Hchild Hsub]. simpl.
    apply visitChild_strip; assumption.
  - split; [ | discriminate].
    change (count (strip (VObj props)))
      with ((if isTargetCall resolveParam rejectParam (strip (VObj props))
             then 1 else 0)
            + list_sum
                (map (fun kv : string * value =>
                        if skippedKey (fst kv) then 0
                        else visitChild count (snd kv))
                     (filter (fun kv : string * value => negb (skippedKey (fst kv)))
                             (map (fun kv : string * value =>
                                     (fst kv, strip (snd kv))) props)))).
    change (count (VObj props))
      with ((if isTargetCall resolveParam rejectParam (VObj props) then 1 else 0)
            + list_sum (map (fun kv : string * value =>
                               if skippedKey (fst kv) then 0
                               else visitChild count (snd kv)) props)).
    rewrite isTargetCall_strip. f_equal.
    apply list_sum_filter_map.
    eapply Forall_impl; [ | exact IH]. intros [k child] [Hchild Hsub].
    simpl. destruct (skippedKey k); [reflexivity | ]. simpl.
    apply visitChild_strip; assumption.
Qed.

End StripCount.

(** X9: the counter never looks under the properties [parent], [range] and
    [loc]: removing them at every depth of a statement leaves its count
    unchanged, and so does setting such a property of a node to any
    value. *)
Theorem X9_count_ignores_bookkeeping_properties
    (resolveParam rejectParam : string) (stmt : value) :
  countCallbacksInStatement resolveParam rejectParam (strip stmt)
  = countCallbacksInStatement resolveParam rejectParam stmt
  /\ (forall key anything props,
        skippedKey key = true ->
        countCallbacksInStatement resolveParam rejectParam
          (VObj ((key, anything) :: props))
        = countCallbacksInStatement resolveParam rejectParam (VObj props)).
Proof.
  split.
  - apply traverse_strip_items.
  - intros key anything props Hkey. unfold countCallbacksInStatement.
    rewrite <- (proj1 (traverse_strip_items resolveParam rejectParam
                         (VObj ((key, anything) :: props)))).
    rewrite <- (proj1 (traverse_strip_items resolveParam rejectParam (VObj props))).
    simpl. rewrite Hkey. reflexivity.
Qed.

Lemma X9_count_ignores_bookkeeping_properties_witness :
  countCallbacksInStatement "resolve" "reject" (strip Examples.ifReturn)
  = countCallbacksInStatement "resolve" "reject" Examples.ifReturn
  /\ countCallbacksInStatement "resolve" "reject"
       (VObj [("parent", Examples.callA); ("type", VStr "EmptyStatement")])
     = countCallbacksInStatement "resolve" "reject"
         (VObj [("type", VStr "EmptyStatement")]).
Proof.
  split.
  - exact (proj1 (X9_count_ignores_bookkeeping_properties "resolve" "reject"
                    Examples.ifReturn)).
  - apply (proj2 (X9_count_ignores_bookkeeping_properties "resolve" "reject"
                    Examples.ifReturn)).
    reflexivity.
Defined.

(** X10: the two names are interchangeable: swapping [resolveParam] and
    [rejectParam] changes neither the count of a statement nor the
    diagnostics of a body, so the rule does not tell a call of resolve from a
    call of reject. *)
Theorem X10_the_two_names_are_interchangeable
    (resolveParam rejectParam : string) (callbackBody : value) :
  (forall stmt,
     countCallbacksInStatement resolveParam rejectParam stmt
     = countCallbacksInStatement rejectParam resolveParam stmt)
  /\ analyzeExecutionPaths callbackBody resolveParam rejectParam
     = analyzeExecutionPaths callbackBody rejectParam resolveParam.
Proof.
  assert (Hstmt : forall stmt,
             countCallbacksInStatement resolveParam rejectParam stmt
             = countCallbacksInStatement rejectParam resolveParam stmt).
  { intros stmt. unfold countCallbacksInStatement.
    rewrite !traverse_descendants. f_equal. apply filter_ext.
    intros node. unfold isTargetCall. rewrite orb_comm. reflexivity. }
  split; [exact Hstmt | ].
  unfold analyzeExecutionPaths.
  destruct (findAllExecutionPaths callbackBody) as [paths | e]; [ | reflexivity].
  simpl. f_equal. apply flat_map_ext. intros p.
  unfold issuesOfPath, countCallbacksInPath, countCallbacks.
  replace (fold_left
             (fun count stmt =>
                count + countCallbacksInStatement rejectParam resolveParam stmt)
             (statements p) 0)
    with (fold_left
            (fun count stmt =>
               count + countCallbacksInStatement resolveParam rejectParam stmt)
            (statements p) 0); [reflexivity | ].
  generalize 0. induction (statements p) as [| s l IH]; intros acc; [reflexivity | ].
  simpl. rewrite Hstmt. apply IH.
Qed.

(** * Properties of the rule [promise-constructor-callbacks] *)

Lemma lookupWith_lookup {A : Type} (f : value -> A) (d : A) (k : string)
    (props : list (string * value)) :
  f VUndefined = d -> PCC.lookupWith f d k props = f (lookup k props).
Proof.
  intros Hd. induction props as [| [k' v] rest IH]; simpl; [congruence | ].
  destruct (String.eqb k' k); auto.
Qed.

Lemma lookup_in (k : string) (props : list (string * value)) :
  lookup k props = VUndefined \/ In (k, lookup k props) props.
Proof.
  induction props as [| [k' v] rest IH]; simpl; [left; reflexivity | ].
  destruct (String.eqb k' k) eqn:E.
  - apply String.eqb_eq in E. subst. right. left. reflexivity.
  - destruct IH as [IH | IH]; [left | right; right]; assumption.
Qed.

Lemma containsTargetCall_object (targets : list string)
    (props : list (string * value)) :
  PCC.containsTargetCall targets (VObj props)
  = if PCC.isDirectCall targets (VObj props) then true
    else if isStr "ExpressionStatement" (lookup "type" props) then
      PCC.containsTargetCall targets (lookup "expression" props)
    else
      existsb (fun kv : string * value =>
                 negb (skippedKey (fst kv))
                 && PCC.containsChild (PCC.containsTargetCall targets) (snd kv))
              props.
Proof.
  rewrite <- (lookupWith_lookup (PCC.containsTargetCall targets) false)
    by reflexivity.
  reflexivity.
Qed.

Lemma containsChild_undefined (contains : value -> bool) :
  PCC.containsChild contains VUndefined = false.
Proof. reflexivity. Qed.

(** When a node that is not an expression statement contains no call of a
    target, neither does what any of its properties holds. *)
Lemma contains_child_false (targets : list string)
    (props : list (string * value)) (k : string) :
  PCC.containsTargetCall targets (VObj props) = false ->
  isStr "ExpressionStatement" (lookup "type" props) = false ->
  skippedKey k = false ->
  PCC.containsChild (PCC.containsTargetCall targets) (lookup k props) = false.
Proof.
  rewrite containsTargetCall_object. intros Hc Hexpr Hk.
  destruct (PCC.isDirectCall targets (VObj props)); [discriminate | ].
  rewrite Hexpr in Hc.
  destruct (lookup_in k props) as [-> | Hin]; [reflexivity | ].
  destruct (PCC.containsChild (PCC.containsTargetCall targets) (lookup k props))
    eqn:E; [ | reflexivity].
  assert (Hex : existsb (fun kv : string * value =>
                 negb (skippedKey (fst kv))
                 && PCC.containsChild (PCC.containsTargetCall targets) (snd kv))
              props = true).
  { apply existsb_exists. exists (k, lookup k props). split; [assumption | ].
    cbn [fst snd]. rewrite Hk, E. reflexivity. }
  congruence.
Qed.

Lemma stmtNode_isNode (v : value) : stmtNode v -> isNode v = true.
Proof. intros H. destruct H as [props Ht _ _ _]. unfold isNode. simpl. exact Ht. Qed.

Lemma falsy_contains (targets : list string) (v : value) :
  truthy v = false -> PCC.containsTargetCall targets v = false.
Proof. destruct v; simpl; congruence. Qed.

Lemma optStmt_child_false (targets : list string)
    (props : list (string * value)) (k : string) :
  PCC.containsTargetCall targets (VObj props) = false ->
  isStr "ExpressionStatement" (lookup "type" props) = false ->
  skippedKey k = false ->
  optStmt (lookup k props) ->
  PCC.containsTargetCall targets (lookup k props) = false.
Proof.
  intros Hc Hexpr Hk [Hf | Hs]; [apply falsy_contains; assumption | ].
  pose proof (contains_child_false targets props k Hc Hexpr Hk) as H.
  pose proof (stmtNode_isNode _ Hs) as Hn.
  destruct Hs as [props' _ _ _ _]. simpl in H. simpl in Hn.
  unfold PCC.containsChild in H. rewrite Hn in H. exact H.
Qed.

Lemma items_child_false (targets : list string)
    (props : list (string * value)) (k : string) (items : list value) :
  PCC.containsTargetCall targets (VObj props) = false ->
  isStr "ExpressionStatement" (lookup "type" props) = false ->
  skippedKey k = false ->
  lookup k props = VArr items -> Forall stmtNode items ->
  Forall (fun item => PCC.containsTargetCall targets item = false) items.
Proof.
  intros Hc Hexpr Hk Hitems Hs.
  pose proof (contains_child_false targets props k Hc Hexpr Hk) as H.
  rewrite Hitems in H. simpl in H.
  apply Forall_forall. intros item Hin.
  rewrite Forall_forall in Hs.
  destruct (PCC.containsTargetCall targets item) eqn:E; [ | reflexivity].
  assert (Hex : existsb (fun item => isNode item && PCC.containsTargetCall targets item)
             items = true).
  { apply existsb_exists. exists item. split; [assumption | ].
    rewrite (stmtNode_isNode _ (Hs _ Hin)), E. reflexivity. }
  congruence.
Qed.

Lemma isStr_distinct (a b : string) (v : value) :
  isStr a v = true -> a <> b -> isStr b v = false.
Proof.
  destruct v; simpl; try discriminate. intros Ha Hab.
  apply String.eqb_eq in Ha. subst. apply String.eqb_neq. exact Hab.
Qed.

Lemma guaranteesCallback_object (targets : list string)
    (props : list (string * value)) :
  PCC.guaranteesCallback targets (VObj props)
  = if PCC.containsTargetCall targets (VObj props) then Ok true
    else if isStr "IfStatement" (lookup "type" props) then
      thenGuarantees <- PCC.guaranteesCallback targets (lookup "consequent" props) ;;
      elseGuarantees <-
        (if truthy (lookup "alternate" props)
         then PCC.guaranteesCallback targets (lookup "alternate" props)
         else Ok false) ;;
      Ok (thenGuarantees && elseGuarantees)
    else if isStr "TryStatement" (lookup "type" props) then
      tryGuarantees <- PCC.guaranteesCallback targets (lookup "block" props) ;;
      catchGuarantees <-
        (if truthy (lookup "handler" props)
         then PCC.guaranteesCallback targets
                (get "body" (lookup "handler" props))
         else Ok false) ;;
      Ok (tryGuarantees && catchGuarantees)
    else if isStr "BlockStatement" (lookup "type" props) then
      match lookup "body" props with
      | VArr items =>
          PCC.someGuarantees (PCC.guaranteesCallback targets) items
      | _ => Err TypeError
      end
    else Ok false.
Proof.
  rewrite <- !(lookupWith_lookup (PCC.guaranteesCallback targets) (Ok false))
    by reflexivity.
  rewrite <- (lookupWith_lookup
    (fun body => match body with
                 | VArr items =>
                     PCC.someGuarantees (PCC.guaranteesCallback targets) items
                 | _ => Err TypeError
                 end) (Err TypeError) "body") by reflexivity.
  assert (Hh : PCC.guaranteesCallback targets (get "body" (lookup "handler" props))
          = PCC.lookupWith
              (fun handler =>
                 match handler with
                 | VObj handlerProps =>
                     PCC.lookupWith (PCC.guaranteesCallback targets) (Ok false)
                       "body" handlerProps
                 | _ => Ok false
                 end) (Ok false) "handler" props).
  { rewrite lookupWith_lookup by reflexivity.
    destruct (lookup "handler" props); try reflexivity.
    simpl get. rewrite lookupWith_lookup by reflexivity. reflexivity. }
  rewrite Hh. reflexivity.
Qed.

(** ** What [containsTargetCall] looks into *)

(** X11: [containsTargetCall] looks into every property of a node that is
    not an expression statement, whatever the type of the node: when a node
    held by a property other than [parent], [range] and [loc], directly or
    as an item of an array, contains a call of a target, so does the node.
    This holds for function literals too, although the comment on the loop
    says "but not into nested functions". *)
Theorem X11_contains_looks_into_every_node
    (targets : list string) (props : list (string * value)) (k : string)
    (child : value) :
  In (k, child) props ->
  skippedKey k = false ->
  isStr "ExpressionStatement" (lookup "type" props) = false ->
  (isNode child = true /\ PCC.containsTargetCall targets child = true)
  \/ (exists items item,
        child = VArr items /\ In item items /\ isNode item = true
        /\ PCC.containsTargetCall targets item = true) ->
  PCC.containsTargetCall targets (VObj props) = true.
Proof.
  intros Hin Hk Hexpr Hchild. rewrite containsTargetCall_object.
  destruct (PCC.isDirectCall targets (VObj props)); [reflexivity | ].
  rewrite Hexpr. apply existsb_exists. exists (k, child).
  split; [assumption | ]. cbn [fst snd]. rewrite Hk. cbn [negb andb].
  destruct Hchild as [[Hn Hc] | (items & item & -> & Hitem & Hn & Hc)].
  - destruct (isNode_object _ Hn) as [props' ->].
    unfold PCC.containsChild. rewrite Hn, Hc. reflexivity.
  - unfold PCC.containsChild. apply existsb_exists. exists item.
    split; [assumption | ]. rewrite Hn, Hc. reflexivity.
Qed.

Lemma X11_contains_looks_into_every_node_witness :
  PCC.containsTargetCall ["resolve"; "reject"]
    (ESTree.ArrowFunctionExpression []
       (ESTree.BlockStatement [Examples.callA])) = true.
Proof.
  apply (X11_contains_looks_into_every_node ["resolve"; "reject"] _ "body"
           (ESTree.BlockStatement [Examples.callA])).
  - simpl. tauto.
  - reflexivity.
  - reflexivity.
  - left. split; reflexivity.
Defined.

(** ** [guaranteesCallback] *)

Lemma someGuarantees_false (targets : list string) (items : list value) :
  Forall (fun item => PCC.guaranteesCallback targets item = Ok false) items ->
  PCC.someGuarantees (PCC.guaranteesCallback targets) items = Ok false.
Proof.
  induction 1 as [| item items Hitem _ IH]; [reflexivity | ].
  change (PCC.someGuarantees (PCC.guaranteesCallback targets) (item :: items))
    with (g <- PCC.guaranteesCallback targets item ;;
          if g then Ok true
          else PCC.someGuarantees (PCC.guaranteesCallback targets) items).
  rewrite Hitem. exact IH.
Qed.

Lemma lookup_lt (k : string) (props : list (string * value)) :
  vsize (lookup k props) < vsize (VObj props).
Proof. pose proof (lookup_size k props). simpl. lia. Qed.

Lemma item_lt (items : list value) (item : value) :
  In item items -> vsize item < vsize (VArr items).
Proof. intros H. pose proof (list_sum_in vsize items item H). simpl. lia. Qed.

Lemma guarantees_contains_size (targets : list string) :
  forall (n : nat) (v : value),
    vsize v < n -> optStmt v ->
    PCC.guaranteesCallback targets v = Ok (PCC.containsTargetCall targets v).
Proof.
  induction n as [| n IH]; intros v Hn Hv; [lia | ].
  destruct Hv as [Hf | Hs].
  { destruct v; simpl in Hf; try discriminate; reflexivity. }
  inversion Hs as [props Ht Hif Htry Hblock Heq]. subst v.
  rewrite guaranteesCallback_object.
  destruct (PCC.containsTargetCall targets (VObj props)) eqn:Hc; [reflexivity | ].
  assert (Hsz : forall k, vsize (lookup k props) < n).
  { intros k. pose proof (lookup_lt k props). lia. }
  destruct (isStr "IfStatement" (lookup "type" props)) eqn:Eif.
  { destruct (Hif eq_refl) as [Hcons Halt].
    assert (Hexpr : isStr "ExpressionStatement" (lookup "type" props) = false)
      by (eapply isStr_distinct; [exact Eif | discriminate]).
    rewrite (IH _ (Hsz _) Hcons).
    rewrite (optStmt_child_false targets props "consequent" Hc Hexpr eq_refl Hcons).
    cbn [bind andb].
    destruct (truthy (lookup "alternate" props)); [ | reflexivity].
    destruct Halt as [Halt | Halt]; [discriminate | ].
    rewrite (IH _ (Hsz _) (or_intror Halt)). reflexivity. }
  destruct (isStr "TryStatement" (lookup "type" props)) eqn:Etry.
  { destruct (Htry eq_refl) as [Hb Hh].
    assert (Hexpr : isStr "ExpressionStatement" (lookup "type" props) = false)
      by (eapply isStr_distinct; [exact Etry | discriminate]).
    rewrite (IH _ (Hsz _) Hb).
    rewrite (optStmt_child_false targets props "block" Hc Hexpr eq_refl Hb).
    cbn [bind andb].
    destruct (truthy (lookup "handler" props)) eqn:Eh; [ | reflexivity].
    destruct Hh as [Hh | [_ Hh]]; [congruence | ].
    rewrite IH; [reflexivity | | exact Hh].
    pose proof (get_le "body" (lookup "handler" props)).
    specialize (Hsz "handler"). lia. }
  destruct (isStr "BlockStatement" (lookup "type" props)) eqn:Eblock;
    [ | reflexivity].
  destruct (Hblock eq_refl) as (items & Hbody & Hitems).
  assert (Hexpr : isStr "ExpressionStatement" (lookup "type" props) = false)
    by (eapply isStr_distinct; [exact Eblock | discriminate]).
  rewrite Hbody. apply someGuarantees_false.
  pose proof (items_child_false targets props "body" items Hc Hexpr eq_refl
                Hbody Hitems) as Hfalse.
  rewrite Forall_forall in *. intros item Hin.
  rewrite IH.
  - rewrite (Hfalse _ Hin). reflexivity.
  - pose proof (item_lt items item Hin). specialize (Hsz "body").
    rewrite Hbody in Hsz. lia.
  - right. apply Hitems. exact Hin.
Qed.

(** X12: on a statement of the shape ESTree gives it, or on an absent one,
    [guaranteesCallback] answers what [containsTargetCall] answers: its
    cases for if statements ("only if both branches do"), try statements and
    blocks never change the answer, because they are reached only when the
    node contains no call of a target, and then they all return false.
    An if statement with a call in one branch only is said to guarantee a
    callback. *)
Theorem X12_guarantees_is_contains (targets : list string) (v : value) :
  optStmt v ->
  PCC.guaranteesCallback targets v = Ok (PCC.containsTargetCall targets v).
Proof. apply (guarantees_contains_size targets (S (vsize v))). lia. Qed.

Ltac stmt_shape :=
  lazymatch goal with
  | |- optStmt _ => unfold optStmt; stmt_shape
  | |- stmtNode _ =>
      apply stmt_node;
      [ reflexivity
      | let H := fresh in
        intros H; cbv in H; first [ discriminate H | split; stmt_shape ]
      | let H := fresh in
        intros H; cbv in H; first [ discriminate H | split; stmt_shape ]
      | let H := fresh in
        intros H; cbv in H;
        first [ discriminate H
              | eexists; split;
                [ reflexivity
                | repeat (apply Forall_cons; [stmt_shape | ]); apply Forall_nil ] ] ]
  | |- _ \/ (stmtNode _ /\ _) =>
      first [ left; reflexivity | right; split; stmt_shape ]
  | |- _ \/ stmtNode _ =>
      first [ left; reflexivity | right; stmt_shape ]
  end.

Lemma X12_guarantees_is_contains_witness :
  PCC.guaranteesCallback ["resolve"; "reject"] Examples.ifOnly = Ok true.
Proof.
  apply (X12_guarantees_is_contains ["resolve"; "reject"] Examples.ifOnly).
  stmt_shape.
Defined.

(** ** [hasPathWithoutCallback] and [analyzeBlock] *)

Lemma hasPathWithoutCallback_object (targets : list string)
    (props : list (string * value)) :
  PCC.hasPathWithoutCallback targets (VObj props)
  = if isStr "BlockStatement" (lookup "type" props) then
      PCC.analyzeBlock (VObj props) targets
    else
      guarantees <- PCC.guaranteesCallback targets (VObj props) ;;
      Ok (negb guarantees).
Proof.
  unfold PCC.analyzeBlock.
  change (prop (VObj props) "body") with (Ok (lookup "body" props)).
  cbn [bind].
  pose (F := fun statements : value =>
          match statements with
          | VArr items =>
              if List.length items =? 0 then Ok true
              else PCC.blockLoop (PCC.hasPathWithoutCallback targets)
                     targets items
          | _ => Err TypeError
          end).
  assert (H : PCC.hasPathWithoutCallback targets (VObj props)
              = if isStr "BlockStatement" (lookup "type" props) then
                  PCC.lookupWith F (Err TypeError) "body" props
                else
                  guarantees <- PCC.guaranteesCallback targets (VObj props) ;;
                  Ok (negb guarantees)) by reflexivity.
  rewrite H, (lookupWith_lookup F (Err TypeError)) by reflexivity.
  unfold F. destruct (lookup "body" props); reflexivity.
Qed.

Lemma reachable_incl (items : list value) : incl (reachable items) items.
Proof.
  induction items as [| stmt rest IH]; simpl; [apply incl_refl | ].
  destruct (isTerminator stmt).
  - intros x [<- | []]. left. reflexivity.
  - intros x [<- | Hx]; [left; reflexivity | right; apply IH; exact Hx].
Qed.

Lemma existsb_false_forall {A : Type} (f : A -> bool) (l : list A) :
  Forall (fun x => f x = false) l -> existsb f l = false.
Proof.
  induction 1 as [| x l Hx _ IH]; simpl; [reflexivity | ].
  rewrite Hx, IH. reflexivity.
Qed.

Lemma hasType_object (lit : string) (v : value) :
  hasType lit v = true -> exists props, v = VObj props.
Proof. unfold hasType. destruct v; simpl; try discriminate. eauto. Qed.

(** A statement position that contains no call of a target is not
    covered. *)
Lemma covers_contains (targets : list string) (v : value) :
  optStmt v -> PCC.containsTargetCall targets v = false ->
  covers targets v = false.
Proof.
  intros Hv Hc. unfold covers.
  destruct (hasType "BlockStatement" v) eqn:Eblock; [ | exact Hc].
  destruct (hasType_object _ _ Eblock) as [props ->].
  destruct Hv as [Hf | Hs]; [discriminate | ].
  inversion Hs as [props' Ht Hif Htry Hblock Heq]. subst props'.
  destruct (Hblock Eblock) as (items & Hbody & Hitems).
  simpl get. rewrite Hbody.
  assert (Hexpr : isStr "ExpressionStatement" (lookup "type" props) = false)
    by (eapply isStr_distinct; [exact Eblock | discriminate]).
  pose proof (items_child_false targets props "body" items Hc Hexpr eq_refl
                Hbody Hitems) as Hfalse.
  apply existsb_false_forall. rewrite Forall_forall in *.
  intros x Hx. apply Hfalse. apply reachable_incl. exact Hx.
Qed.

Lemma ifPresent_lookup {A : Type} (f : value -> A) (d : A) (k : string)
    (props : list (string * value)) :
  f VUndefined = d ->
  PCC.ifPresent f d k props
  = if truthy (lookup k props) then f (lookup k props) else d.
Proof.
  intros H. unfold PCC.ifPresent. rewrite lookupWith_lookup by exact H.
  reflexivity.
Qed.

Lemma handlerBody_get {A : Type} (f : value -> A) (d : A) (handler : value) :
  f VUndefined = d -> PCC.handlerBody f d handler = f (get "body" handler).
Proof.
  intros H. destruct handler; simpl; try congruence.
  apply lookupWith_lookup. exact H.
Qed.

Lemma guarantees_contains (targets : list string) (v : value) :
  optStmt v ->
  PCC.guaranteesCallback targets v = Ok (PCC.containsTargetCall targets v).
Proof. apply (guarantees_contains_size targets (S (vsize v))). lia. Qed.

(** One turn of the loop of [analyzeBlock] at a well-shaped statement, when
    [hasPathWithoutCallback] is known below the statement. *)
Lemma blockStep_spec (targets : list string) (stmt : value) :
  stmtNode stmt ->
  (forall v, vsize v < vsize stmt -> optStmt v ->
             PCC.hasPathWithoutCallback targets v
             = Ok (negb (covers targets v))) ->
  PCC.blockStep (PCC.hasPathWithoutCallback targets) targets stmt
  = Ok (if PCC.containsTargetCall targets stmt then Some false
        else if isTerminator stmt then Some true else None).
Proof.
  intros Hs IH. unfold PCC.blockStep.
  rewrite (guarantees_contains targets stmt (or_intror Hs)). cbn [bind].
  destruct (PCC.containsTargetCall targets stmt) eqn:Hc; [reflexivity | ].
  inversion Hs as [props Ht Hif Htry Hblock Heq]. subst stmt.
  assert (Hsz : forall k, vsize (lookup k props) < vsize (VObj props))
    by (intros k; apply lookup_lt).
  unfold isTerminator, hasType. simpl get.
  destruct (isStr "IfStatement" (lookup "type" props)) eqn:Eif.
  { rewrite (isStr_distinct _ "ReturnStatement" _ Eif) by discriminate.
    rewrite (isStr_distinct _ "ThrowStatement" _ Eif) by discriminate.
    assert (Hexpr : isStr "ExpressionStatement" (lookup "type" props) = false)
      by (eapply isStr_distinct; [exact Eif | discriminate]).
    destruct (Hif eq_refl) as [Hcons Halt].
    rewrite lookupWith_lookup by reflexivity.
    rewrite (IH _ (Hsz _) Hcons).
    rewrite (covers_contains targets _ Hcons
               (optStmt_child_false targets props "consequent" Hc Hexpr
                  eq_refl Hcons)).
    cbn [bind negb]. rewrite ifPresent_lookup by reflexivity.
    destruct (truthy (lookup "alternate" props)); [ | reflexivity].
    destruct Halt as [Halt | Halt]; [discriminate | ].
    rewrite (IH _ (Hsz _) (or_intror Halt)). reflexivity. }
  destruct (isStr "TryStatement" (lookup "type" props)) eqn:Etry.
  { rewrite (isStr_distinct _ "ReturnStatement" _ Etry) by discriminate.
    rewrite (isStr_distinct _ "ThrowStatement" _ Etry) by discriminate.
    assert (Hexpr : isStr "ExpressionStatement" (lookup "type" props) = false)
      by (eapply isStr_distinct; [exact Etry | discriminate]).
    destruct (Htry eq_refl) as [Hb Hh].
    rewrite lookupWith_lookup by reflexivity.
    rewrite (IH _ (Hsz _) Hb).
    rewrite (covers_contains targets _ Hb
               (optStmt_child_false targets props "block" Hc Hexpr
                  eq_refl Hb)).
    cbn [bind negb]. rewrite ifPresent_lookup by reflexivity.
    destruct (truthy (lookup "handler" props)); [ | reflexivity].
    destruct Hh as [Hh | [_ Hh]]; [discriminate | ].
    rewrite handlerBody_get by reflexivity.
    rewrite IH; [reflexivity | | exact Hh].
    pose proof (get_le "body" (lookup "handler" props)).
    specialize (Hsz "handler"). lia. }
  destruct (isStr "ReturnStatement" (lookup "type" props)
            || isStr "ThrowStatement" (lookup "type" props)); reflexivity.
Qed.

Lemma blockLoop_spec (targets : list string) (items : list value) :
  Forall stmtNode items ->
  (forall v, vsize v < vsize (VArr items) -> optStmt v ->
             PCC.hasPathWithoutCallback targets v
             = Ok (negb (covers targets v))) ->
  PCC.blockLoop (PCC.hasPathWithoutCallback targets) targets items
  = Ok (negb (existsb (PCC.containsTargetCall targets) (reachable items))).
Proof.
  induction 1 as [| stmt rest Hs Hrest IHl]; intros IH; [reflexivity | ].
  change (PCC.blockLoop (PCC.hasPathWithoutCallback targets) targets
            (stmt :: rest))
    with (step <- PCC.blockStep (PCC.hasPathWithoutCallback targets) targets
                    stmt ;;
          match step with
          | Some b => Ok b
          | None =>
              PCC.blockLoop (PCC.hasPathWithoutCallback targets) targets rest
          end).
  rewrite blockStep_spec;
    [ | exact Hs | intros v Hv Hopt; apply IH; [simpl in *; lia | exact Hopt]].
  cbn [bind]. simpl reachable.
  destruct (PCC.containsTargetCall targets stmt) eqn:Hc.
  - destruct (isTerminator stmt); simpl; rewrite Hc; reflexivity.
  - destruct (isTerminator stmt); simpl; rewrite Hc; [reflexivity | ].
    apply IHl. intros v Hv Hopt. apply IH; [simpl in *; lia | exact Hopt].
Qed.

Lemma hasPath_covers_size (targets : list string) :
  forall (n : nat) (v : value),
    vsize v < n -> optStmt v ->
    PCC.hasPathWithoutCallback targets v = Ok (negb (covers targets v)).
Proof.
  induction n as [| n IH]; intros v Hn Hv; [lia | ].
  destruct Hv as [Hf | Hs].
  { destruct v; try discriminate Hf;
      unfold PCC.hasPathWithoutCallback; rewrite ?Hf; reflexivity. }
  inversion Hs as [props Ht Hif Htry Hblock Heq]. subst v.
  rewrite hasPathWithoutCallback_object. unfold covers, hasType. simpl get.
  destruct (isStr "BlockStatement" (lookup "type" props)) eqn:Eblock.
  - destruct (Hblock eq_refl) as (items & Hbody & Hitems).
    unfold PCC.analyzeBlock.
    change (prop (VObj props) "body") with (Ok (lookup "body" props)).
    rewrite Hbody. cbn [bind elements].
    destruct items as [| stmt rest]; [reflexivity | ].
    change (List.length (stmt :: rest) =? 0) with false. cbv iota.
    apply blockLoop_spec; [exact Hitems | ].
    intros v Hv Hopt. apply IH; [ | exact Hopt].
    pose proof (lookup_lt "body" props) as Hlt. rewrite Hbody in Hlt. lia.
  - rewrite (guarantees_contains targets _ (or_intror Hs)). reflexivity.
Qed.

Lemma hasPath_covers (targets : list string) (v : value) :
  optStmt v ->
  PCC.hasPathWithoutCallback targets v = Ok (negb (covers targets v)).
Proof. apply (hasPath_covers_size targets (S (vsize v))). lia. Qed.

(** X13: [analyzeBlock] of a well-shaped block answers false (no path
    without a callback) exactly when one of the statements of the block up
    to its first return or throw statement contains a call of a target,
    anywhere in it; it answers true otherwise, and for the empty block.
    What the if and try statements of the block hold in their branches
    never changes the answer. *)
Theorem X13_block_is_covered_by_a_reachable_call
    (targets : list string) (blockNode : value) (items : list value) :
  stmtNode blockNode ->
  hasType "BlockStatement" blockNode = true ->
  get "body" blockNode = VArr items ->
  PCC.analyzeBlock blockNode targets
  = Ok (negb (existsb (PCC.containsTargetCall targets) (reachable items))).
Proof.
  intros Hs Htype Hbody.
  pose proof (hasPath_covers targets blockNode (or_intror Hs)) as H.
  destruct (hasType_object _ _ Htype) as [props ->].
  rewrite hasPathWithoutCallback_object in H.
  unfold covers in H. rewrite Htype, Hbody in H.
  unfold hasType in Htype. simpl in Htype. rewrite Htype in H. exact H.
Qed.

Lemma X13_block_is_covered_by_a_reachable_call_witness :
  PCC.analyzeBlock
    (ESTree.BlockStatement
       [Examples.ifLog; Examples.returnVoid; Examples.callA])
    ["resolve"; "reject"]
  = Ok true.
Proof.
  apply (X13_block_is_covered_by_a_reachable_call ["resolve"; "reject"]
           (ESTree.BlockStatement
              [Examples.ifLog; Examples.returnVoid; Examples.callA])
           [Examples.ifLog; Examples.returnVoid; Examples.callA]).
  - stmt_shape.
  - reflexivity.
  - reflexivity.
Defined.

(** ** The listener of the rule *)

Lemma function_literal_truthy (executorFn : value) :
  hasType "ArrowFunctionExpression" executorFn = true
  \/ hasType "FunctionExpression" executorFn = true ->
  defined executorFn = true /\ truthy executorFn = true.
Proof.
  intros [H | H]; destruct (hasType_object _ _ H) as [props ->];
    split; reflexivity.
Qed.

Lemma getExecutorFunction_literal (executorFn : value) (rest : list value) :
  hasType "ArrowFunctionExpression" executorFn = true
  \/ hasType "FunctionExpression" executorFn = true ->
  getExecutorFunction
    (ESTree.NewExpression (ESTree.Identifier "Promise") (executorFn :: rest))
  = Ok executorFn.
Proof.
  intros Htype. destruct (function_literal_truthy _ Htype) as [Hd _].
  unfold getExecutorFunction.
  change (prop (ESTree.NewExpression (ESTree.Identifier "Promise")
                  (executorFn :: rest)) "arguments")
    with (Ok (VArr (executorFn :: rest))).
  cbn [bind truthy elements]. rewrite (prop_ok _ _ Hd). cbn [bind].
  unfold hasType in Htype. destruct Htype as [-> | ->];
    rewrite ?orb_true_r; reflexivity.
Qed.

Lemma targetCallsOf_names (r j : string) :
  r <> "" -> j <> "" -> PCC.targetCallsOf r j = [r; j].
Proof.
  intros Hr Hj. unfold PCC.targetCallsOf. simpl.
  apply String.eqb_neq in Hr, Hj. rewrite Hr, Hj. reflexivity.
Qed.

Lemma listener_reports_uncovered
    (executorFn : value) (params rest : list value) (r j : string) :
  hasType "ArrowFunctionExpression" executorFn = true
  \/ hasType "FunctionExpression" executorFn = true ->
  get "params" executorFn = VArr params ->
  2 <= List.length params ->
  paramName (nth 0 params VUndefined) = VStr r ->
  paramName (nth 1 params VUndefined) = VStr j ->
  r <> "" -> j <> "" ->
  optStmt (get "body" executorFn) ->
  PCC.visitNewExpression
    (ESTree.NewExpression (ESTree.Identifier "Promise") (executorFn :: rest))
  = Ok (if covers [r; j] (get "body" executorFn) then []
        else [PCC.mkReport executorFn PCC.noCallback]).
Proof.
  intros Htype Hparams Hlen Hr Hj Hrne Hjne Hbody.
  destruct (function_literal_truthy _ Htype) as [Hd Htruthy].
  unfold PCC.visitNewExpression.
  change (isPromiseConstructor
            (ESTree.NewExpression (ESTree.Identifier "Promise")
               (executorFn :: rest))) with (Ok true).
  cbn [bind negb]. rewrite (getExecutorFunction_literal _ _ Htype).
  cbn [bind]. rewrite Htruthy. cbn [negb].
  unfold PCC.hasRequiredParameters.
  rewrite (prop_ok _ _ Hd), Hparams. cbn [bind elements].
  assert (Hreq : (2 <=? List.length params) = true) by (apply Nat.leb_le; exact Hlen).
  rewrite Hreq. cbn [negb]. rewrite Hr, Hj.
  assert (Htr : truthy (VStr r) = true).
  { simpl. apply String.eqb_neq in Hrne. rewrite Hrne. reflexivity. }
  assert (Htj : truthy (VStr j) = true).
  { simpl. apply String.eqb_neq in Hjne. rewrite Hjne. reflexivity. }
  rewrite Htr, Htj. cbn [negb orb nameString bind].
  unfold PCC.analyzeExecutorFunction.
  rewrite (targetCallsOf_names r j Hrne Hjne).
  change (List.length [r; j] =? 0) with false. cbv iota.
  rewrite (prop_ok _ _ Hd). cbn [bind].
  rewrite (hasPath_covers [r; j] _ Hbody). cbn [bind].
  rewrite negb_involutive.
  destruct (covers [r; j] (get "body" executorFn)); reflexivity.
Qed.

(** X14: for [new Promise(f, ...)] where the function literal [f] has at
    least two parameters, the first two with non-empty names [r] and [j],
    and a well-shaped body, the listener reports noCallback at [f] exactly
    when the body is not covered: when the body is a block none of whose
    statements up to the first return or throw contains a call of [r] or
    [j], or is another node that contains no such call.  In particular
    [if (c) { resolve() }] alone, with no else, is accepted. *)
Theorem X14_no_callback_iff_not_covered
    (executorFn : value) (params rest : list value) (r j : string) :
  hasType "ArrowFunctionExpression" executorFn = true
  \/ hasType "FunctionExpression" executorFn = true ->
  get "params" executorFn = VArr params ->
  2 <= List.length params ->
  paramName (nth 0 params VUndefined) = VStr r ->
  paramName (nth 1 params VUndefined) = VStr j ->
  r <> "" -> j <> "" ->
  optStmt (get "body" executorFn) ->
  PCC.visitNewExpression
    (ESTree.NewExpression (ESTree.Identifier "Promise") (executorFn :: rest))
  = Ok (if covers [r; j] (get "body" executorFn) then []
        else [PCC.mkReport executorFn PCC.noCallback]).
Proof. apply listener_reports_uncovered. Qed.

Lemma X14_no_callback_iff_not_covered_witness :
  PCC.visitNewExpression
    (ESTree.NewExpression (ESTree.Identifier "Promise")
       [ESTree.ArrowFunctionExpression
          [ESTree.Identifier "resolve"; ESTree.Identifier "reject"]
          (ESTree.BlockStatement [Examples.ifOnly])])
  = Ok [].
Proof.
  apply (X14_no_callback_iff_not_covered
           (ESTree.ArrowFunctionExpression
              [ESTree.Identifier "resolve"; ESTree.Identifier "reject"]
              (ESTree.BlockStatement [Examples.ifOnly]))
           [ESTree.Identifier "resolve"; ESTree.Identifier "reject"] []
           "resolve" "reject").
  - left. reflexivity.
  - reflexivity.
  - simpl. lia.
  - reflexivity.
  - reflexivity.
  - discriminate.
  - discriminate.
  - stmt_shape.
Defined.

(** ** The version with [analyzeAllPaths] *)

Lemma analyzeAllPaths_object (targets : list string)
    (props : list (string * value)) :
  AllPaths.analyzeAllPaths targets (VObj props)
  = if isStr "BlockStatement" (lookup "type" props) then
      AllPaths.analyzeBlockStatement (VObj props) targets
    else Ok (PCC.containsTargetCall targets (VObj props)).
Proof.
  unfold AllPaths.analyzeBlockStatement.
  change (prop (VObj props) "body") with (Ok (lookup "body" props)).
  cbn [bind].
  pose (F := fun statements : value =>
          match statements with
          | VArr items =>
              AllPaths.blockStatementLoop (AllPaths.analyzeAllPaths targets)
                targets items
          | _ => Err TypeError
          end).
  assert (H : AllPaths.analyzeAllPaths targets (VObj props)
              = if isStr "BlockStatement" (lookup "type" props) then
                  PCC.lookupWith F (Err TypeError) "body" props
                else Ok (PCC.containsTargetCall targets (VObj props)))
    by reflexivity.
  rewrite H, (lookupWith_lookup F (Err TypeError)) by reflexivity.
  unfold F. destruct (lookup "body" props); reflexivity.
Qed.

Lemma blockStatementStep_spec (targets : list string) (stmt : value) :
  stmtNode stmt ->
  (forall v, vsize v < vsize stmt -> optStmt v ->
             AllPaths.analyzeAllPaths targets v = Ok (covers targets v)) ->
  AllPaths.blockStatementStep (AllPaths.analyzeAllPaths targets) targets stmt
  = Ok (if PCC.containsTargetCall targets stmt then Some true
        else if isTerminator stmt then Some false else None).
Proof.
  intros Hs IH. unfold AllPaths.blockStatementStep.
  destruct (PCC.containsTargetCall targets stmt) eqn:Hc; [reflexivity | ].
  inversion Hs as [props Ht Hif Htry Hblock Heq]. subst stmt.
  assert (Hsz : forall k, vsize (lookup k props) < vsize (VObj props))
    by (intros k; apply lookup_lt).
  unfold isTerminator, hasType. simpl get.
  destruct (isStr "IfStatement" (lookup "type" props)) eqn:Eif.
  { rewrite (isStr_distinct _ "TryStatement" _ Eif) by discriminate.
    rewrite (isStr_distinct _ "ReturnStatement" _ Eif) by discriminate.
    rewrite (isStr_distinct _ "ThrowStatement" _ Eif) by discriminate.
    assert (Hexpr : isStr "ExpressionStatement" (lookup "type" props) = false)
      by (eapply isStr_distinct; [exact Eif | discriminate]).
    destruct (Hif eq_refl) as [Hcons Halt].
    rewrite lookupWith_lookup by reflexivity.
    rewrite (IH _ (Hsz _) Hcons).
    rewrite (covers_contains targets _ Hcons
               (optStmt_child_false targets props "consequent" Hc Hexpr
                  eq_refl Hcons)).
    cbn [bind]. rewrite ifPresent_lookup by reflexivity.
    destruct (truthy (lookup "alternate" props)); [ | reflexivity].
    destruct Halt as [Halt | Halt]; [discriminate | ].
    rewrite (IH _ (Hsz _) (or_intror Halt)). reflexivity. }
  cbn [bind].
  destruct (isStr "TryStatement" (lookup "type" props)) eqn:Etry.
  { rewrite (isStr_distinct _ "ReturnStatement" _ Etry) by discriminate.
    rewrite (isStr_distinct _ "ThrowStatement" _ Etry) by discriminate.
    assert (Hexpr : isStr "ExpressionStatement" (lookup "type" props) = false)
      by (eapply isStr_distinct; [exact Etry | discriminate]).
    destruct (Htry eq_refl) as [Hb Hh].
    rewrite lookupWith_lookup by reflexivity.
    rewrite (IH _ (Hsz _) Hb).
    rewrite (covers_contains targets _ Hb
               (optStmt_child_false targets props "block" Hc Hexpr
                  eq_refl Hb)).
    cbn [bind]. rewrite ifPresent_lookup by reflexivity.
    destruct (truthy (lookup "handler" props)); [ | reflexivity].
    destruct Hh as [Hh | [_ Hh]]; [discriminate | ].
    rewrite handlerBody_get by reflexivity.
    rewrite IH; [reflexivity | | exact Hh].
    pose proof (get_le "body" (lookup "handler" props)).
    specialize (Hsz "handler"). lia. }
  cbn [bind].
  destruct (isStr "ReturnStatement" (lookup "type" props)); [reflexivity | ].
  destruct (isStr "ThrowStatement" (lookup "type" props)); reflexivity.
Qed.

Lemma blockStatementLoop_spec (targets : list string) (items : list value) :
  Forall stmtNode items ->
  (forall v, vsize v < vsize (VArr items) -> optStmt v ->
             AllPaths.analyzeAllPaths targets v = Ok (covers targets v)) ->
  AllPaths.blockStatementLoop (AllPaths.analyzeAllPaths targets) targets items
  = Ok (existsb (PCC.containsTargetCall targets) (reachable items)).
Proof.
  induction 1 as [| stmt rest Hs Hrest IHl]; intros IH; [reflexivity | ].
  change (AllPaths.blockStatementLoop (AllPaths.analyzeAllPaths targets)
            targets (stmt :: rest))
    with (step <- AllPaths.blockStatementStep
                    (AllPaths.analyzeAllPaths targets) targets stmt ;;
          match step with
          | Some b => Ok b
          | None =>
              AllPaths.blockStatementLoop (AllPaths.analyzeAllPaths targets)
                targets rest
          end).
  rewrite blockStatementStep_spec;
    [ | exact Hs | intros v Hv Hopt; apply IH; [simpl in *; lia | exact Hopt]].
  cbn [bind]. simpl reachable.
  destruct (PCC.containsTargetCall targets stmt) eqn:Hc.
  - destruct (isTerminator stmt); simpl; rewrite Hc; reflexivity.
  - destruct (isTerminator stmt); simpl; rewrite Hc; [reflexivity | ].
    apply IHl. intros v Hv Hopt. apply IH; [simpl in *; lia | exact Hopt].
Qed.

Lemma analyzeAllPaths_covers_size (targets : list string) :
  forall (n : nat) (v : value),
    vsize v < n -> optStmt v ->
    AllPaths.analyzeAllPaths targets v = Ok (covers targets v).
Proof.
  induction n as [| n IH]; intros v Hn Hv; [lia | ].
  destruct Hv as [Hf | Hs].
  { destruct v; try discriminate Hf; reflexivity. }
  inversion Hs as [props Ht Hif Htry Hblock Heq]. subst v.
  rewrite analyzeAllPaths_object. unfold covers, hasType. simpl get.
  destruct (isStr "BlockStatement" (lookup "type" props)) eqn:Eblock;
    [ | reflexivity].
  destruct (Hblock eq_refl) as (items & Hbody & Hitems).
  unfold AllPaths.analyzeBlockStatement.
  change (prop (VObj props) "body") with (Ok (lookup "body" props)).
  rewrite Hbody. cbn [bind elements].
  apply blockStatementLoop_spec; [exact Hitems | ].
  intros v Hv Hopt. apply IH; [ | exact Hopt].
  pose proof (lookup_lt "body" props) as Hlt. rewrite Hbody in Hlt. lia.
Qed.

Lemma analyzeAllPaths_covers (targets : list string) (v : value) :
  optStmt v -> AllPaths.analyzeAllPaths targets v = Ok (covers targets v).
Proof. apply (analyzeAllPaths_covers_size targets (S (vsize v))). lia. Qed.

(** X15: on a well-shaped statement position the two versions of the
    analysis answer the same question with opposite signs:
    [analyzeAllPaths] ("every path calls a callback") is true exactly when
    [hasPathWithoutCallback] is false, and both are decided by whether the
    position is covered, i.e. whether a reachable statement of the block
    (or the node, when it is not a block) contains a call of a target. *)
Theorem X15_all_paths_is_no_path_without_callback
    (targets : list string) (v : value) :
  optStmt v ->
  AllPaths.analyzeAllPaths targets v = Ok (covers targets v)
  /\ PCC.hasPathWithoutCallback targets v = Ok (negb (covers targets v)).
Proof.
  intros Hv. split; [apply analyzeAllPaths_covers | apply hasPath_covers];
    exact Hv.
Qed.

Lemma X15_all_paths_is_no_path_without_callback_witness :
  AllPaths.analyzeAllPaths ["resolve"; "reject"]
    (ESTree.BlockStatement [Examples.tryCatchFinally]) = Ok true
  /\ PCC.hasPathWithoutCallback ["resolve"; "reject"]
       (ESTree.BlockStatement [Examples.tryCatchFinally]) = Ok false.
Proof.
  apply (X15_all_paths_is_no_path_without_callback ["resolve"; "reject"]
           (ESTree.BlockStatement [Examples.tryCatchFinally])).
  stmt_shape.
Defined.

Lemma analyzeExecutorFunction_agree (executorFn : value) (r j : string) :
  optStmt (get "body" executorFn) ->
  AllPaths.analyzeExecutorFunction executorFn r j
  = PCC.analyzeExecutorFunction executorFn r j.
Proof.
  intros Hbody.
  unfold AllPaths.analyzeExecutorFunction, PCC.analyzeExecutorFunction.
  cbv zeta. destruct (List.length (PCC.targetCallsOf r j) =? 0); [reflexivity | ].
  destruct (defined executorFn) eqn:Hd.
  - rewrite (prop_ok _ _ Hd). cbn [bind].
    rewrite (analyzeAllPaths_covers _ _ Hbody), (hasPath_covers _ _ Hbody).
    cbn [bind]. rewrite negb_involutive. reflexivity.
  - destruct executorFn; try discriminate Hd; reflexivity.
Qed.

Lemma listeners_agree (node : value) :
  (forall executorFn,
     getExecutorFunction node = Ok executorFn ->
     optStmt (get "body" executorFn)) ->
  AllPaths.visitNewExpression node = PCC.visitNewExpression node.
Proof.
  intros Hbody. unfold AllPaths.visitNewExpression, PCC.visitNewExpression.
  destruct (isPromiseConstructor node) as [isPromise | e]; [ | reflexivity].
  cbn [bind]. destruct (negb isPromise); [reflexivity | ].
  destruct (getExecutorFunction node) as [executorFn | e]; [ | reflexivity].
  specialize (Hbody executorFn eq_refl).
  cbn [bind]. destruct (negb (truthy executorFn)); [reflexivity | ].
  destruct (PCC.hasRequiredParameters executorFn) as [required | e];
    [ | reflexivity].
  cbn [bind]. destruct (prop executorFn "params") as [params | e];
    [ | reflexivity].
  cbn [bind]. destruct (elements params) as [paramList | e]; [ | reflexivity].
  cbn [bind]. destruct (negb required); [reflexivity | ]. cbv zeta.
  destruct (negb (truthy (paramName (nth 0 paramList VUndefined)))
            || negb (truthy (paramName (nth 1 paramList VUndefined))));
    [reflexivity | ].
  destruct (nameString (paramName (nth 0 paramList VUndefined)))
    as [resolveName | e]; [ | reflexivity].
  cbn [bind].
  destruct (nameString (paramName (nth 1 paramList VUndefined)))
    as [rejectName | e]; [ | reflexivity].
  cbn [bind]. rewrite (analyzeExecutorFunction_agree _ _ _ Hbody).
  reflexivity.
Qed.

(** X16: the two versions of the rule make the same reports on every
    construction whose executor, if it has one, has a well-shaped body:
    rewriting [hasPathWithoutCallback], [analyzeBlock] and
    [guaranteesCallback] into [analyzeAllPaths] and [analyzeBlockStatement]
    changed no verdict. *)
Theorem X16_the_two_versions_report_the_same (node : value) :
  (forall executorFn,
     getExecutorFunction node = Ok executorFn ->
     optStmt (get "body" executorFn)) ->
  AllPaths.visitNewExpression node = PCC.visitNewExpression node.
Proof. apply listeners_agree. Qed.

Lemma X16_the_two_versions_report_the_same_witness :
  AllPaths.visitNewExpression
    (ESTree.NewExpression (ESTree.Identifier "Promise")
       [ESTree.ArrowFunctionExpression
          [ESTree.Identifier "resolve"; ESTree.Identifier "reject"]
          (ESTree.BlockStatement [Examples.ifLog; Examples.returnVoid])])
  = PCC.visitNewExpression
      (ESTree.NewExpression (ESTree.Identifier "Promise")
         [ESTree.ArrowFunctionExpression
            [ESTree.Identifier "resolve"; ESTree.Identifier "reject"]
            (ESTree.BlockStatement [Examples.ifLog; Examples.returnVoid])]).
Proof.
  apply X16_the_two_versions_report_the_same.
  intros executorFn H. vm_compute in H. inversion H. subst executorFn.
  stmt_shape.
Defined.

(** X17: an executor with two named parameters whose body is the empty
    block is reported by both versions of [promise-constructor-callbacks]
    (noCallback at the function), while
    [promise-constructor-exactly-one-callback] has no path for it and
    reports nothing. *)
Theorem X17_empty_body_is_reported_by_one_rule_only
    (executorFn : value) (params rest : list value) (r j : string) :
  hasType "ArrowFunctionExpression" executorFn = true
  \/ hasType "FunctionExpression" executorFn = true ->
  get "params" executorFn = VArr params ->
  2 <= List.length params ->
  paramName (nth 0 params VUndefined) = VStr r ->
  paramName (nth 1 params VUndefined) = VStr j ->
  r <> "" -> j <> "" ->
  hasType "BlockStatement" (get "body" executorFn) = true ->
  get "body" (get "body" executorFn) = VArr [] ->
  PCC.visitNewExpression
    (ESTree.NewExpression (ESTree.Identifier "Promise") (executorFn :: rest))
  = Ok [PCC.mkReport executorFn PCC.noCallback]
  /\ AllPaths.visitNewExpression
       (ESTree.NewExpression (ESTree.Identifier "Promise") (executorFn :: rest))
     = Ok [PCC.mkReport executorFn PCC.noCallback]
  /\ visitNewExpression
       (ESTree.NewExpression (ESTree.Identifier "Promise") (executorFn :: rest))
     = Ok [].
Proof.
  intros Htype Hparams Hlen Hr Hj Hrne Hjne Hblock Hempty.
  set (node := ESTree.NewExpression (ESTree.Identifier "Promise")
                 (executorFn :: rest)).
  assert (Hshape : optStmt (get "body" executorFn)).
  { right. destruct (hasType_object _ _ Hblock) as [props Hprops].
    rewrite Hprops in *. unfold hasType in Hblock. simpl in Hblock, Hempty.
    apply stmt_node.
    - destruct (lookup "type" props); try discriminate Hblock.
      simpl in *. destruct s; [discriminate Hblock | reflexivity].
    - intros H. rewrite (isStr_distinct _ "IfStatement" _ Hblock) in H
        by discriminate. discriminate H.
    - intros H. rewrite (isStr_distinct _ "TryStatement" _ Hblock) in H
        by discriminate. discriminate H.
    - intros _. exists []. split; [exact Hempty | constructor]. }
  assert (Hcov : covers [r; j] (get "body" executorFn) = false).
  { unfold covers. rewrite Hblock, Hempty. reflexivity. }
  assert (Hpcc : PCC.visitNewExpression node
                 = Ok [PCC.mkReport executorFn PCC.noCallback]).
  { unfold node.
    rewrite (listener_reports_uncovered executorFn params rest r j)
      by assumption.
    rewrite Hcov. reflexivity. }
  split; [exact Hpcc | ]. split.
  - rewrite <- Hpcc. apply listeners_agree.
    intros executorFn' H. unfold node in H.
    rewrite (getExecutorFunction_literal _ _ Htype) in H.
    inversion H. subst executorFn'. exact Hshape.
  - destruct (function_literal_truthy _ Htype) as [Hd Htruthy].
    unfold node, visitNewExpression.
    change (isPromiseConstructor
              (ESTree.NewExpression (ESTree.Identifier "Promise")
                 (executorFn :: rest))) with (Ok true).
    cbn [bind negb]. rewrite (getExecutorFunction_literal _ _ Htype).
    cbn [bind]. rewrite Htruthy. cbn [negb].
    unfold getParameterNames. rewrite (prop_ok _ _ Hd), Hparams.
    cbn [bind elements].
    assert (Hlt : (List.length params <? 2) = false)
      by (apply Nat.ltb_ge; exact Hlen).
    rewrite Hlt. cbn [bind]. rewrite Hr, Hj.
    assert (Htr : truthy (VStr r) = true).
    { simpl. apply String.eqb_neq in Hrne. rewrite Hrne. reflexivity. }
    assert (Htj : truthy (VStr j) = true).
    { simpl. apply String.eqb_neq in Hjne. rewrite Hjne. reflexivity. }
    rewrite Htr, Htj. cbn [negb orb nameString bind].
    rewrite (prop_ok _ _ Hd). cbn [bind].
    unfold analyzeExecutionPaths, findAllExecutionPaths.
    rewrite (prop_ok _ _ (hasType_defined _ _ Hblock)). cbn [bind].
    unfold hasType in Hblock. rewrite Hblock. cbn [negb].
    rewrite (prop_ok _ _ (hasType_defined "BlockStatement" _ Hblock)).
    cbn [bind]. rewrite Hempty. reflexivity.
Qed.

Lemma X17_empty_body_is_reported_by_one_rule_only_witness :
  PCC.visitNewExpression
    (ESTree.NewExpression (ESTree.Identifier "Promise")
       [ESTree.ArrowFunctionExpression
          [ESTree.Identifier "resolve"; ESTree.Identifier "reject"]
          (ESTree.BlockStatement [])])
  = Ok [PCC.mkReport
          (ESTree.ArrowFunctionExpression
             [ESTree.Identifier "resolve"; ESTree.Identifier "reject"]
             (ESTree.BlockStatement []))
          PCC.noCallback]
  /\ AllPaths.visitNewExpression
       (ESTree.NewExpression (ESTree.Identifier "Promise")
          [ESTree.ArrowFunctionExpression
             [ESTree.Identifier "resolve"; ESTree.Identifier "reject"]
             (ESTree.BlockStatement [])])
     = Ok [PCC.mkReport
             (ESTree.ArrowFunctionExpression
                [ESTree.Identifier "resolve"; ESTree.Identifier "reject"]
                (ESTree.BlockStatement []))
             PCC.noCallback]
  /\ visitNewExpression
       (ESTree.NewExpression (ESTree.Identifier "Promise")
          [ESTree.ArrowFunctionExpression
             [ESTree.Identifier "resolve"; ESTree.Identifier "reject"]
             (ESTree.BlockStatement [])])
     = Ok [].
Proof.
  apply (X17_empty_body_is_reported_by_one_rule_only
           (ESTree.ArrowFunctionExpression
              [ESTree.Identifier "resolve"; ESTree.Identifier "reject"]
              (ESTree.BlockStatement []))
           [ESTree.Identifier "resolve"; ESTree.Identifier "reject"] []
           "resolve" "reject").
  - left. reflexivity.
  - reflexivity.
  - simpl. lia.
  - reflexivity.
  - reflexivity.
  - discriminate.
  - discriminate.
  - reflexivity.
  - reflexivity.
Defined.

(** X18: when the executor has fewer than two parameters, or its first or
    second parameter has no name, the listener of
    [promise-constructor-callbacks] makes exactly one report at the
    function and does not look at its body: missingResolve when there is no
    parameter, or when there are two and the first has no name;
    missingReject when there is one parameter only, named or not, or when
    only the second of two has no name. *)
Theorem X18_missing_parameter_reports
    (executorFn : value) (params rest : list value) :
  hasType "ArrowFunctionExpression" executorFn = true
  \/ hasType "FunctionExpression" executorFn = true ->
  get "params" executorFn = VArr params ->
  List.length params < 2
  \/ truthy (paramName (nth 0 params VUndefined)) = false
  \/ truthy (paramName (nth 1 params VUndefined)) = false ->
  PCC.visitNewExpression
    (ESTree.NewExpression (ESTree.Identifier "Promise") (executorFn :: rest))
  = Ok [PCC.mkReport executorFn
          (match params with
           | [] => PCC.missingResolve
           | [_] => PCC.missingReject
           | first :: _ :: _ =>
               if truthy (paramName first) then PCC.missingReject
               else PCC.missingResolve
           end)].
Proof.
  intros Htype Hparams Hmissing.
  destruct (function_literal_truthy _ Htype) as [Hd Htruthy].
  unfold PCC.visitNewExpression.
  change (isPromiseConstructor
            (ESTree.NewExpression (ESTree.Identifier "Promise")
               (executorFn :: rest))) with (Ok true).
  cbn [bind negb]. rewrite (getExecutorFunction_literal _ _ Htype).
  cbn [bind]. rewrite Htruthy. cbn [negb].
  unfold PCC.hasRequiredParameters.
  rewrite (prop_ok _ _ Hd), Hparams. cbn [bind elements].
  destruct params as [| first [| second more]]; [reflexivity | reflexivity | ].
  change (2 <=? List.length (first :: second :: more)) with true.
  cbn [negb nth].
  simpl in Hmissing. destruct Hmissing as [H | [H | H]]; [lia | | ].
  - rewrite H. reflexivity.
  - rewrite H. rewrite orb_true_r.
    destruct (truthy (paramName first)); reflexivity.
Qed.

Lemma X18_missing_parameter_reports_witness :
  PCC.visitNewExpression
    (ESTree.NewExpression (ESTree.Identifier "Promise")
       [ESTree.ArrowFunctionExpression [ESTree.Identifier "resolve"]
          (ESTree.BlockStatement [Examples.callA])])
  = Ok [PCC.mkReport
          (ESTree.ArrowFunctionExpression [ESTree.Identifier "resolve"]
             (ESTree.BlockStatement [Examples.callA]))
          PCC.missingReject].
Proof.
  apply (X18_missing_parameter_reports _ [ESTree.Identifier "resolve"] []).
  - left. reflexivity.
  - reflexivity.
  - left. simpl. lia.
Defined.

(** ** [findCallsInNode] *)

Lemma setAdd_in (name callName : string) (calls : list string) :
  In name (PCC.setAdd callName calls) <-> In name calls \/ name = callName.
Proof.
  unfold PCC.setAdd. destruct (existsb (String.eqb callName) calls) eqn:E.
  - apply existsb_exists in E as (x & Hx & Heq). apply String.eqb_eq in Heq.
    subst x. split; [auto | intros [H | ->]; assumption].
  - rewrite in_app_iff. simpl. split.
    + intros [H | [<- | []]]; auto.
    + intros [H | ->]; auto.
Qed.

Lemma recordCall_in (targets : list string) (node : value)
    (calls : list string) (name : string) :
  In name (PCC.recordCall targets node calls)
  <-> In name calls \/ recordedName targets node = Some name.
Proof.
  unfold PCC.recordCall, recordedName.
  destruct (isStr "CallExpression" (get "type" node)
            && truthy (get "callee" node)
            && isStr "Identifier" (get "type" (get "callee" node)));
    [ | split; [auto | intros [H | H]; [exact H | discriminate H]]].
  destruct (get "name" (get "callee" node));
    try (split; [auto | intros [H | H]; [exact H | discriminate H]]).
  destruct (existsb (String.eqb s) targets);
    [ | split; [auto | intros [H | H]; [exact H | discriminate H]]].
  rewrite setAdd_in. split; intros [H | H]; auto.
  - subst. auto.
  - inversion H. auto.
Qed.

Lemma fold_left_in {A : Type} (f : list string -> A -> list string)
    (Q : A -> string -> Prop) (l : list A) :
  Forall (fun x => forall calls name,
            In name (f calls x) <-> In name calls \/ Q x name) l ->
  forall calls name,
    In name (fold_left f l calls)
    <-> In name calls \/ exists x, In x l /\ Q x name.
Proof.
  induction 1 as [| x l Hx _ IH]; intros calls name; simpl.
  - split; [auto | intros [H | (x & [] & _)]; exact H].
  - rewrite IH, Hx. split.
    + intros [[H | H] | (y & Hy & HQ)]; eauto.
    + intros [H | (y & [<- | Hy] & HQ)]; eauto.
Qed.

Section FindCalls.

Variable targets : list string.

(** What [traverse] adds to the set at [node]: the names recorded at the
    node and its descendants. *)
Let adds (node : value) : Prop :=
  forall calls name,
    In name (PCC.traverseCalls targets node calls)
    <-> In name calls
        \/ exists d, In d (descendants node) /\ recordedName targets d = Some name.

Lemma visitChildCalls_in (child : value) :
  (forall items, child = VArr items -> Forall adds items) ->
  adds child ->
  forall calls name,
    In name (PCC.visitChildCalls (PCC.traverseCalls targets) child calls)
    <-> In name calls
        \/ exists d, In d (childDescendants descendants child)
                     /\ recordedName targets d = Some name.
Proof.
  intros Hitems Hself calls name.
  assert (Hsingle :
    forall v, adds v ->
      forall calls name,
      In name (if isNode v then PCC.traverseCalls targets v calls else calls)
      <-> In name calls
          \/ exists d, In d (if isNode v then descendants v else [])
                       /\ recordedName targets d = Some name).
  { intros v Hv calls' name'. destruct (isNode v); [apply Hv | ].
    split; [auto | intros [H | (d & [] & _)]; exact H]. }
  destruct child; try apply (Hsingle _ Hself).
  simpl.
  rewrite (fold_left_in
             (fun acc item =>
                if isNode item then PCC.traverseCalls targets item acc else acc)
             (fun item name =>
                exists d, In d (if isNode item then descendants item else [])
                          /\ recordedName targets d = Some name)).
  - split; intros [H | H]; auto; right.
    + destruct H as (x & Hx & d & Hd & Hrec). exists d. split; [ | exact Hrec].
      apply in_flat_map. eauto.
    + destruct H as (d & Hd & Hrec). apply in_flat_map in Hd as (x & Hx & Hd).
      eauto.
  - eapply Forall_impl; [ | apply (Hitems items eq_refl)].
    intros x Hx. apply Hsingle. exact Hx.
Qed.

Lemma traverseCalls_in_items (node : value) :
  adds node /\ (forall items, node = VArr items -> Forall adds items).
Proof.
  induction node as [| | b | z | s | items IH | props IH]
    using value_nested_ind;
    try (split; [ | discriminate]; intros calls name; simpl;
         split; [auto | intros [H | (d & [] & _)]; exact H]).
  - (* array *)
    assert (Hitems : Forall adds items).
    { eapply Forall_impl; [ | exact IH]. intros x [Hx _]. exact Hx. }
    split; [ | intros ? [= <-]; exact Hitems].
    intros calls name.
    change (PCC.traverseCalls targets (VArr items) calls)
      with (fold_left (fun acc item =>
                         PCC.visitChildCalls (PCC.traverseCalls targets) item acc)
                      items calls).
    rewrite (fold_left_in
               (fun acc item =>
                  PCC.visitChildCalls (PCC.traverseCalls targets) item acc)
               (fun item name =>
                  exists d, In d (childDescendants descendants item)
                            /\ recordedName targets d = Some name)).
    + simpl. split; intros [H | H]; auto; right.
      * destruct H as (x & Hx & d & Hd & Hrec). exists d.
        split; [ | exact Hrec]. apply in_flat_map. eauto.
      * destruct H as (d & Hd & Hrec).
        apply in_flat_map in Hd as (x & Hx & Hd). eauto.
    + eapply Forall_impl; [ | exact IH]. intros child [Hchild Hsub].
      apply visitChildCalls_in; assumption.
  - (* object *)
    split; [ | discriminate]. intros calls name.
    change (PCC.traverseCalls targets (VObj props) calls)
      with (fold_left
              (fun acc (kv : string * value) =>
                 if skippedKey (fst kv) then acc
                 else PCC.visitChildCalls (PCC.traverseCalls targets)
                        (snd kv) acc)
              props (PCC.recordCall targets (VObj props) calls)).
    change (descendants (VObj props))
      with (VObj props
            :: flat_map (fun kv : string * value =>
                           if skippedKey (fst kv) then []
                           else childDescendants descendants (snd kv)) props).
    rewrite (fold_left_in
               (fun acc (kv : string * value) =>
                  if skippedKey (fst kv) then acc
                  else PCC.visitChildCalls (PCC.traverseCalls targets)
                         (snd kv) acc)
               (fun kv name =>
                  exists d,
                    In d (if skippedKey (fst kv) then []
                          else childDescendants descendants (snd kv))
                    /\ recordedName targets d = Some name)).
    + rewrite recordCall_in. split.
      * intros [[H | H] | (kv & Hkv & d & Hd & Hrec)]; auto; right.
        -- exists (VObj props). split; [left; reflexivity | exact H].
        -- exists d. split; [ | exact Hrec]. right. apply in_flat_map. eauto.
      * intros [H | (d & [<- | Hd] & Hrec)]; auto.
        apply in_flat_map in Hd as (kv & Hkv & Hd). right. eauto.
    + eapply Forall_impl; [ | exact IH]. intros [k child] [Hchild Hsub].
      intros calls' name'. cbn [fst snd]. destruct (skippedKey k).
      * split; [auto | intros [H | (d & [] & _)]; exact H].
      * apply visitChildCalls_in; assumption.
Qed.

Lemma findCallsInNode_in (node : value) (name : string) :
  In name (PCC.findCallsInNode node targets)
  <-> exists d, In d (descendants node) /\ recordedName targets d = Some name.
Proof.
  unfold PCC.findCallsInNode.
  destruct (traverseCalls_in_items node) as [H _]. rewrite (H [] name).
  simpl. split; [intros [[] | H'] | intros H']; auto.
Qed.

End FindCalls.

Lemma recordedName_target (r j : string) (d : value) :
  isTargetCall r j d = true <-> exists name, recordedName [r; j] d = Some name.
Proof.
  unfold isTargetCall, recordedName.
  destruct (isStr "CallExpression" (get "type" d)
            && truthy (get "callee" d)
            && isStr "Identifier" (get "type" (get "callee" d)));
    [ | simpl; split; [discriminate | intros [name H]; discriminate H]].
  cbn [andb]. cbv zeta.
  destruct (get "name" (get "callee" d));
    try (simpl; split; [discriminate | intros [name H]; discriminate H]).
  simpl. rewrite orb_false_r.
  destruct (String.eqb s r || String.eqb s j);
    split; eauto; [discriminate | intros [name H]; discriminate H].
Qed.

Lemma setAdd_NoDup (callName : string) (calls : list string) :
  NoDup calls -> NoDup (PCC.setAdd callName calls).
Proof.
  intros H. unfold PCC.setAdd.
  destruct (existsb (String.eqb callName) calls) eqn:E; [exact H | ].
  apply NoDup_app; [exact H | repeat constructor; intros [] | ].
  intros x Hx [<- | []].
  assert (Hex : existsb (String.eqb callName) calls = true).
  { apply existsb_exists. exists callName.
    split; [exact Hx | apply String.eqb_refl]. }
  congruence.
Qed.

Lemma fold_left_NoDup {A : Type} (f : list string -> A -> list string)
    (l : list A) :
  Forall (fun x => forall calls, NoDup calls -> NoDup (f calls x)) l ->
  forall calls, NoDup calls -> NoDup (fold_left f l calls).
Proof.
  induction 1 as [| x l Hx _ IH]; intros calls Hc; simpl; auto.
Qed.

Lemma traverseCalls_NoDup_items (targets : list string) (node : value) :
  (forall calls, NoDup calls -> NoDup (PCC.traverseCalls targets node calls))
  /\ (forall items, node = VArr items ->
        Forall (fun item => forall calls, NoDup calls ->
                  NoDup (PCC.traverseCalls targets item calls)) items).
Proof.
  assert (Hchild : forall child,
    (forall items, child = VArr items ->
        Forall (fun item => forall calls, NoDup calls ->
                  NoDup (PCC.traverseCalls targets item calls)) items) ->
    (forall calls, NoDup calls -> NoDup (PCC.traverseCalls targets child calls)) ->
    forall calls, NoDup calls ->
      NoDup (PCC.visitChildCalls (PCC.traverseCalls targets) child calls)).
  { intros child Hitems Hself calls Hc.
    unfold PCC.visitChildCalls.
    destruct child;
      try (match goal with |- context [isNode ?v] => destruct (isNode v) end;
           auto).
    apply fold_left_NoDup; [ | exact Hc].
    eapply Forall_impl; [ | apply (Hitems items eq_refl)].
    intros x Hx calls' Hc'. destruct (isNode x); auto. }
  induction node as [| | b | z | s | items IH | props IH]
    using value_nested_ind;
    try (split; [intros calls Hc; exact Hc | discriminate]).
  - split.
    + intros calls Hc.
      change (PCC.traverseCalls targets (VArr items) calls)
        with (fold_left (fun acc item =>
                           PCC.visitChildCalls (PCC.traverseCalls targets)
                             item acc)
                        items calls).
      apply fold_left_NoDup; [ | exact Hc].
      eapply Forall_impl; [ | exact IH]. intros child [Hself Hsub].
      apply Hchild; assumption.
    + intros ? [= <-]. eapply Forall_impl; [ | exact IH].
      intros x [Hx _]. exact Hx.
  - split; [ | discriminate]. intros calls Hc.
    change (PCC.traverseCalls targets (VObj props) calls)
      with (fold_left
              (fun acc (kv : string * value) =>
                 if skippedKey (fst kv) then acc
                 else PCC.visitChildCalls (PCC.traverseCalls targets)
                        (snd kv) acc)
              props (PCC.recordCall targets (VObj props) calls)).
    apply fold_left_NoDup.
    + eapply Forall_impl; [ | exact IH]. intros [k child] [Hself Hsub].
      intros calls' Hc'. cbn [fst snd]. destruct (skippedKey k); [exact Hc' | ].
      apply Hchild; assumption.
    + unfold PCC.recordCall.
      destruct (isStr "CallExpression" (get "type" (VObj props))
                && truthy (get "callee" (VObj props))
                && isStr "Identifier"
                     (get "type" (get "callee" (VObj props))));
        [ | exact Hc].
      destruct (get "name" (get "callee" (VObj props))); try exact Hc.
      destruct (existsb (String.eqb s) targets); [ | exact Hc].
      apply setAdd_NoDup. exact Hc.
Qed.

(** X19: [findCallsInNode] returns exactly the names in [targetNames] that
    are called (as an identifier) at the node or at one of its descendants,
    each of them once, whatever the types of the nodes in between; the
    descendants are those the counter of
    [promise-constructor-exactly-one-callback] goes through. *)
Theorem X19_found_calls_are_the_called_targets
    (targets : list string) (node : value) :
  NoDup (PCC.findCallsInNode node targets)
  /\ forall name,
       In name (PCC.findCallsInNode node targets)
       <-> exists d, In d (descendants node)
                     /\ recordedName targets d = Some name.
Proof.
  split.
  - apply traverseCalls_NoDup_items. constructor.
  - intros name. apply findCallsInNode_in.
Qed.

Lemma found_iff_counted (r j : string) (node : value) :
  (0 <? List.length (PCC.findCallsInNode node [r; j]))
  = (0 <? countCallbacksInStatement r j node).
Proof.
  unfold countCallbacksInStatement. rewrite traverse_descendants.
  destruct (PCC.findCallsInNode node [r; j]) as [| name rest] eqn:Ef.
  - destruct (filter (isTargetCall r j) (descendants node)) as [| d ds] eqn:Ed;
      [reflexivity | ].
    assert (Hd : In d (filter (isTargetCall r j) (descendants node)))
      by (rewrite Ed; left; reflexivity).
    apply filter_In in Hd as [Hin Ht].
    apply recordedName_target in Ht as [name Hname].
    assert (Hfound : In name (PCC.findCallsInNode node [r; j]))
      by (apply findCallsInNode_in; eauto).
    rewrite Ef in Hfound. destruct Hfound.
  - assert (Hfound : In name (PCC.findCallsInNode node [r; j]))
      by (rewrite Ef; left; reflexivity).
    apply findCallsInNode_in in Hfound as (d & Hin & Hname).
    assert (Ht : isTargetCall r j d = true)
      by (apply recordedName_target; eauto).
    assert (Hd : In d (filter (isTargetCall r j) (descendants node)))
      by (apply filter_In; auto).
    destruct (filter (isTargetCall r j) (descendants node)); [destruct Hd | ].
    reflexivity.
Qed.

(** X20: the first version of [promise-constructor-callbacks] accepted an
    executor exactly when the counter of
    [promise-constructor-exactly-one-callback] finds at least one call of
    resolve or reject in its whole body: a single call anywhere made the
    executor valid. *)
Theorem X20_first_version_accepts_any_call
    (executorFn : value) (r j : string) :
  defined executorFn = true ->
  r <> "" -> j <> "" ->
  FirstVersion.analyzeExecutorFunction executorFn r j
  = Ok (0 <? countCallbacksInStatement r j (get "body" executorFn)).
Proof.
  intros Hd Hr Hj. unfold FirstVersion.analyzeExecutorFunction.
  rewrite (targetCallsOf_names r j Hr Hj).
  change (List.length [r; j] =? 0) with false. cbv iota zeta.
  rewrite (prop_ok _ _ Hd). cbn [bind].
  rewrite found_iff_counted. reflexivity.
Qed.

Lemma X20_first_version_accepts_any_call_witness :
  FirstVersion.analyzeExecutorFunction
    (ESTree.ArrowFunctionExpression
       [ESTree.Identifier "resolve"; ESTree.Identifier "reject"]
       (ESTree.BlockStatement [Examples.ifOnly]))
    "resolve" "reject"
  = Ok true.
Proof.
  apply (X20_first_version_accepts_any_call
           (ESTree.ArrowFunctionExpression
              [ESTree.Identifier "resolve"; ESTree.Identifier "reject"]
              (ESTree.BlockStatement [Examples.ifOnly]))
           "resolve" "reject").
  - reflexivity.
  - discriminate.
  - discriminate.
Defined.

(** * Bodies that always have a path *)

Lemma prop_get (v w : value) (k : string) : prop v k = Ok w -> w = get k v.
Proof. destruct v; simpl; congruence. Qed.

Section SolidPaths.

Variable rec : list value -> list value -> result (list path).
Hypothesis rec_inv : forall l c ps, rec l c = Ok ps -> pathInv c ps.
Hypothesis rec_solid :
  forall l c ps, rec l c = Ok ps -> l <> [] -> Forall solid l -> ps <> [].

Lemma branch_solid (n sv : value) (c : list value) (ps : list path) :
  solidBranch n -> blockOrSingle n = Ok sv -> callBlock rec sv c = Ok ps ->
  ps <> [].
Proof.
  intros Hs Hsv Hps. unfold blockOrSingle in Hsv. inv_bind Hsv.
  apply prop_get in Ha. subst a.
  destruct Hs as [n body Ht Hb Hne Hf | n Ht Hn]; unfold hasType in Ht;
    rewrite Ht in Hsv.
  - apply prop_get in Hsv. subst sv. rewrite Hb in Hps.
    unfold callBlock in Hps. simpl in Hps. eapply rec_solid; eassumption.
  - inv_ok Hsv. unfold callBlock in Hps. simpl in Hps.
    eapply rec_solid; [exact Hps | discriminate | ].
    constructor; [exact Hn | constructor].
Qed.

Lemma analyzeIfStatement_solid (s : value) (c : list value) (ps : list path) :
  truthy (get "alternate" s) = false
  \/ solidBranch (get "consequent" s)
  \/ solidBranch (get "alternate" s) ->
  analyzeIfStatement rec s c = Ok ps -> ps <> [].
Proof.
  intros Hs H. unfold analyzeIfStatement in H.
  inv_bind H. inv_bind H. inv_bind H. inv_bind H. inv_bind H. inv_ok H.
  apply prop_get in Ha, Ha2. subst a a2.
  destruct Hs as [Hno | [Hcons | Halt]].
  - rewrite Hno in Ha3. inv_ok Ha3. apply app_nonempty_r. discriminate.
  - apply app_nonempty_l. eapply branch_solid; eassumption.
  - apply app_nonempty_r. destruct (truthy (get "alternate" s)).
    + inv_bind Ha3. eapply branch_solid; eassumption.
    + inv_ok Ha3. discriminate.
Qed.

Lemma finallyJoin_solid (fb : list value) (tryPaths ps : list path) :
  tryPaths <> [] -> fb <> [] -> Forall solid fb ->
  finallyJoin rec (VArr fb) tryPaths = Ok ps -> ps <> [].
Proof.
  intros Htry Hne Hfb H. destruct tryPaths as [| p rest]; [congruence | ].
  simpl in H. inv_bind H. inv_bind H. inv_ok H. apply app_nonempty_l.
  assert (Hcall : rec fb (statements p) = Ok a).
  { destruct (isNo (terminated p)); exact Ha. }
  eapply rec_solid; eassumption.
Qed.

Lemma analyzeTryStatement_solid (s : value) (c : list value) (ps : list path) :
  (exists tryBody,
     get "body" (get "block" s) = VArr tryBody
     /\ tryBody <> [] /\ Forall solid tryBody
     /\ (truthy (get "finalizer" s) = false
         \/ exists finallyBody,
              get "body" (get "finalizer" s) = VArr finallyBody
              /\ finallyBody <> [] /\ Forall solid finallyBody))
  \/ (truthy (get "handler" s) = true
      /\ exists catchBody,
           get "body" (get "body" (get "handler" s)) = VArr catchBody
           /\ catchBody <> [] /\ Forall solid catchBody) ->
  analyzeTryStatement rec s c = Ok ps -> ps <> [].
Proof.
  intros Hs H. unfold analyzeTryStatement in H.
  inv_bind H. inv_bind H. inv_bind H. inv_bind H. inv_bind H. inv_bind H.
  apply prop_get in Ha, Ha0, Ha2, Ha4. subst a a0 a2 a4.
  destruct Hs as [(tb & Htb & Hne & Hsolid & Hfin) | (Hh & cb & Hcb & Hne & Hsolid)].
  - rewrite Htb in Ha1. unfold callBlock in Ha1. simpl in Ha1.
    assert (Htry : a1 <> []) by (eapply rec_solid; eassumption).
    destruct (truthy (get "finalizer" s)).
    + destruct Hfin as [Hfin | (fb & Hfb & Hfne & Hfs)]; [discriminate | ].
      inv_bind H. inv_bind H. inv_ok H. apply prop_get in Ha. subst a.
      rewrite Hfb in Ha0. apply app_nonempty_r.
      eapply finallyJoin_solid; eassumption.
    + inv_ok H. apply app_nonempty_r. exact Htry.
  - rewrite Hh in Ha3. inv_bind Ha3. inv_bind Ha3.
    apply prop_get in Ha, Ha0. subst a a0. rewrite Hcb in Ha3.
    unfold callBlock in Ha3. simpl in Ha3.
    assert (Hcatch : a3 <> []) by (eapply rec_solid; eassumption).
    destruct (truthy (get "finalizer" s)).
    + inv_bind H. inv_bind H. inv_ok H. apply app_nonempty_l. exact Hcatch.
    + inv_ok H. apply app_nonempty_l. exact Hcatch.
Qed.

Lemma switchCases_solid (cases c : list value) (r : list path * bool) :
  Forall (fun caseNode =>
            exists caseBody,
              get "consequent" caseNode = VArr caseBody
              /\ Forall solid caseBody) cases ->
  cases <> [] ->
  switchCases rec cases c = Ok r -> fst r <> [].
Proof.
  intros Hcases Hne H. destruct cases as [| caseNode rest]; [congruence | ].
  inversion Hcases as [| ? ? (cb & Hcb & Hsolid) _]; subst.
  simpl in H. inv_bind H. inv_bind H. inv_bind H. inv_bind H. inv_bind H.
  inv_ok H. simpl. apply app_nonempty_l.
  apply prop_get in Ha0. subst a0. rewrite Hcb in Ha1. inv_ok Ha1.
  destruct (0 <? List.length a1) eqn:Hlen.
  - eapply rec_solid; [exact Ha2 | | exact Hsolid].
    intros ->. discriminate Hlen.
  - inv_ok Ha2. discriminate.
Qed.

Lemma analyzeSwitchStatement_solid (s : value) (c : list value)
    (ps : list path) :
  (exists cases,
     get "cases" s = VArr cases
     /\ Forall (fun caseNode =>
                  exists caseBody,
                    get "consequent" caseNode = VArr caseBody
                    /\ Forall solid caseBody) cases) ->
  analyzeSwitchStatement rec s c = Ok ps -> ps <> [].
Proof.
  intros (cases & Hc & Hcases) H. unfold analyzeSwitchStatement in H.
  inv_bind H. inv_bind H. inv_bind H. apply prop_get in Ha. subst a.
  rewrite Hc in Ha0. inv_ok Ha0.
  destruct (snd a1) eqn:Hdefault; simpl in H; inv_ok H.
  - eapply switchCases_solid; [exact Hcases | | exact Ha1].
    intros ->. simpl in Ha1. inv_ok Ha1. discriminate Hdefault.
  - apply app_nonempty_r. discriminate.
Qed.

Lemma continuePaths_solid (subPaths : list path) (remaining : list value)
    (ps : list path) :
  subPaths <> [] -> Forall solid remaining ->
  continuePaths rec subPaths remaining = Ok ps -> ps <> [].
Proof.
  intros Hne Hsolid H. destruct subPaths as [| p rest]; [congruence | ].
  simpl in H. inv_bind H. inv_bind H. inv_ok H. apply app_nonempty_l.
  destruct (isNo (terminated p) && (0 <? List.length remaining)) eqn:Hcond.
  - eapply rec_solid; [exact Ha | | exact Hsolid].
    intros ->. rewrite andb_false_r in Hcond. discriminate Hcond.
  - inv_ok Ha. discriminate.
Qed.

Lemma analyzeBlockLoop_solid (stmts wp : list value) (ps : list path) :
  stmts <> [] -> Forall solid stmts ->
  analyzeBlockLoop rec stmts wp = Ok ps -> ps <> [].
Proof.
  intros Hne Hsolid H. destruct stmts as [| stmt remaining]; [congruence | ].
  inversion Hsolid as [| ? ? Hstmt Hrem]; subst.
  destruct Hstmt as [s Hif Htry Hswitch].
  simpl in H. inv_bind H. apply prop_get in Ha. subst a.
  assert (Hcont : forall sub,
             (forall sp, sub = Ok sp -> sp <> []) ->
             (sp <- sub ;; cp <- continuePaths rec sp remaining ;; Ok ([] ++ cp))
             = Ok ps -> ps <> []).
  { intros sub Hsub H'. inv_bind H'. inv_bind H'. inv_ok H'. simpl.
    eapply continuePaths_solid; [apply Hsub; reflexivity | exact Hrem | eassumption]. }
  destruct (isStr "IfStatement" (get "type" s)) eqn:E1.
  { eapply Hcont; [ | exact H]. intros sp Hsp.
    eapply analyzeIfStatement_solid; [apply Hif; exact E1 | exact Hsp]. }
  destruct (isStr "TryStatement" (get "type" s)) eqn:E2.
  { eapply Hcont; [ | exact H]. intros sp Hsp.
    eapply analyzeTryStatement_solid; [apply Htry; exact E2 | exact Hsp]. }
  destruct (isStr "SwitchStatement" (get "type" s)) eqn:E3.
  { eapply Hcont; [ | exact H]. intros sp Hsp.
    eapply analyzeSwitchStatement_solid; [apply Hswitch; exact E3 | exact Hsp]. }
  destruct (isStr "ForStatement" (get "type" s)
            || isStr "WhileStatement" (get "type" s)
            || isStr "DoWhileStatement" (get "type" s)).
  { eapply Hcont; [ | exact H]. intros sp Hsp.
    unfold analyzeLoopStatement in Hsp.
    inv_bind Hsp. inv_bind Hsp. inv_bind Hsp. inv_ok Hsp.
    apply app_nonempty_r. discriminate. }
  destruct (isStr "ReturnStatement" (get "type" s)); [inv_ok H; discriminate | ].
  destruct (isStr "ThrowStatement" (get "type" s)); [inv_ok H; discriminate | ].
  apply (analyzeBlockLoop_inv rec rec_inv) in H. apply H.
  apply app_nonempty_r. discriminate.
Qed.

End SolidPaths.

Lemma analyzeBlockFuel_solid (n : nat) (stmts c : list value) (ps : list path) :
  analyzeBlockFuel n stmts c = Ok ps -> stmts <> [] -> Forall solid stmts ->
  ps <> [].
Proof.
  revert stmts c ps. induction n as [| n IH]; simpl; intros stmts c ps H Hne Hs.
  - discriminate.
  - eapply analyzeBlockLoop_solid; [ | | exact Hne | exact Hs | exact H].
    + apply analyzeBlockFuel_inv.
    + exact IH.
Qed.

Lemma analyzeBlock_solid (stmts c : list value) (ps : list path) :
  analyzeBlock stmts c = Ok ps -> stmts <> [] -> Forall solid stmts -> ps <> [].
Proof. apply analyzeBlockFuel_solid. Qed.

(** X21: the enumeration returns at least one path for every well-formed
    body that is not a block, and for every well-formed block that is not
    empty and whose statements are solid, that is, have no empty block where
    their sub-paths start; more generally [analyzeBlock] returns at least
    one path for well-formed statements when its prefix is not empty, or
    when the statements are solid and there is one at least.  So a body
    without a path has an empty block in it. *)
Theorem X21_solid_bodies_have_a_path (callbackBody : value) :
  wfBody callbackBody ->
  (hasType "BlockStatement" callbackBody = true ->
   exists body,
     get "body" callbackBody = VArr body /\ body <> [] /\ Forall solid body) ->
  (exists paths,
     findAllExecutionPaths callbackBody = Ok paths /\ 1 <= List.length paths)
  /\ (forall stmts cur,
        Forall wfStmt stmts ->
        cur <> [] \/ (stmts <> [] /\ Forall solid stmts) ->
        exists ps, analyzeBlock stmts cur = Ok ps /\ 1 <= List.length ps).
Proof.
  intros Hwf Hsolid.
  assert (Hlen : forall ps : list path, ps <> [] -> 1 <= List.length ps).
  { intros [| p ps] H; [congruence | simpl; lia]. }
  split.
  - destruct (findAllExecutionPaths_ok _ Hwf) as [paths Hpaths].
    exists paths. split; [exact Hpaths | ]. apply Hlen.
    destruct Hwf as [Hd _]. unfold findAllExecutionPaths in Hpaths.
    rewrite !(prop_ok _ _ Hd) in Hpaths. simpl bind in Hpaths.
    fold (hasType "BlockStatement" callbackBody) in Hpaths.
    destruct (hasType "BlockStatement" callbackBody) eqn:Ht.
    + destruct (Hsolid eq_refl) as (body & Hbody & Hne & Hs).
      simpl in Hpaths. rewrite Hbody in Hpaths.
      unfold callBlock in Hpaths. simpl in Hpaths.
      eapply analyzeBlock_solid; eassumption.
    + simpl in Hpaths. inv_ok Hpaths. discriminate.
  - intros stmts cur Hs Hor.
    destruct (analyzeBlock_ok stmts cur Hs) as [ps Hps].
    exists ps. split; [exact Hps | ]. apply Hlen.
    destruct Hor as [Hcur | [Hne Hsol]].
    + apply (analyzeBlock_inv _ _ _ Hps). exact Hcur.
    + eapply analyzeBlock_solid; eassumption.
Qed.

Lemma X21_solid_bodies_have_a_path_witness :
  exists paths,
    findAllExecutionPaths (ESTree.BlockStatement [Examples.ifElse]) = Ok paths
    /\ 1 <= List.length paths.
Proof.
  assert (Hwf : wfBody (ESTree.BlockStatement [Examples.ifElse])).
  { split; [reflexivity | ]. intros _. exists [Examples.ifElse].
    split; [reflexivity | ]. constructor; [ | constructor].
    apply wf_if; [reflexivity | | right].
    - apply (wf_block _ [Examples.callA]); [reflexivity | reflexivity | ].
      constructor; [apply wf_plain; reflexivity | constructor].
    - apply (wf_block _ [Examples.callB]); [reflexivity | reflexivity | ].
      constructor; [apply wf_plain; reflexivity | constructor]. }
  assert (Hsolid :
    hasType "BlockStatement" (ESTree.BlockStatement [Examples.ifElse]) = true ->
    exists body,
      get "body" (ESTree.BlockStatement [Examples.ifElse]) = VArr body
      /\ body <> [] /\ Forall solid body).
  { intros _. exists [Examples.ifElse].
    split; [reflexivity | ]. split; [discriminate | ].
    constructor; [ | constructor].
    apply solid_stmt; [intros _ | discriminate | discriminate].
    right. left. apply (solid_block _ [Examples.callA]);
      [reflexivity | reflexivity | discriminate | ].
    constructor; [ | constructor].
    apply solid_stmt; discriminate. }
  exact (proj1 (X21_solid_bodies_have_a_path _ Hwf Hsolid)).
Defined.
